(** * The ICU software compressor of plato-rdcu (icu_cmp.c): a shallow embedding

    The C source works on 8, 16 and 32-bit unsigned integers and on caller
    provided buffers.  Integers are modelled as [Z] with every wrap-around
    written out; buffers live in a store of typed cells that is threaded
    through the code, so that aliasing between the caller's pointers is
    visible.  A result [None] of a store computation stands for behaviour
    that C leaves undefined (null or out-of-bounds access, a buffer that
    does not hold the element type the mode casts it to). *)

From Stdlib Require Import ZArith Lia Bool.
From stdpp Require Import base option list.

Local Open Scope Z_scope.

(** ** Machine integers *)

Module Int.

Definition UINT8_MAX : Z := 255.

(** Conversion to an unsigned type of [w] bits. *)
Definition wrap (w x : Z) : Z := x mod 2 ^ w.

Definition u8 (x : Z) : Z := wrap 8 x.
Definition u16 (x : Z) : Z := wrap 16 x.
Definition u32 (x : Z) : Z := wrap 32 x.

(** Conversion of an unsigned [w]-bit value to the signed type of the same
    width (two's complement), as the casts [(int16_t)data_buf[i]] and the
    assignment of an [unsigned int] to an [int] do. *)
Definition to_signed (w x : Z) : Z :=
  if x <? 2 ^ (w - 1) then x else x - 2 ^ w.

Definition add32 (a b : Z) : Z := u32 (a + b).
Definition sub32 (a b : Z) : Z := u32 (a - b).
Definition mul32 (a b : Z) : Z := u32 (a * b).

(** [x << n] and [x >> n] on [unsigned int].  C leaves a shift count of 32
    or more undefined; the model shifts the mathematical value and then
    truncates. *)
Definition shl32 (x n : Z) : Z := u32 (Z.shiftl x n).
Definition shr32 (x n : Z) : Z := Z.shiftr x n.

(** [~x] on [unsigned int]. *)
Definition not32 (x : Z) : Z := 0xffffffff - x.

(** The value [-2U]. *)
Definition neg2U : Z := 0xfffffffe.

End Int.

Import Int.

(** ** Helpers of cmp_support that the compressor calls *)

(** Modelled from the spec: [round_fwd] and [round_inv] of cmp_support.h
    are not part of the sources at hand; section 4.2 gives
    [round_fwd(v, k) = v >> k] and [round_inv(v, k) = v << k], both on
    32-bit unsigned values. *)
Definition round_fwd (value round : Z) : Z := shr32 value round.
Definition round_inv (value round : Z) : Z := shl32 value round.

(** Modelled from the spec: [ilog_2] of cmp_support.c is not part of the
    sources at hand; the codeword rules of section 4.4 use it as the integer
    binary logarithm [log2_m] of the Golomb parameter. *)
Definition ilog_2 (x : Z) : Z := Z.log2 x.

(** Modelled from the spec: [is_a_pow_of_2] of cmp_support.c is not part of
    the sources at hand; section 4.4 selects Rice coding exactly when the
    Golomb parameter is a power of two. *)
Definition is_a_pow_of_2 (v : Z) : bool := (0 <? v) && (2 ^ Z.log2 v =? v).

(** ** Mapping of signed residuals to unsigned values *)

Definition map_to_pos_alg_8 (value_to_map : Z) : Z :=
  if value_to_map <? 0
  then u8 ((- value_to_map) * 2 - 1)
  else u8 (value_to_map * 2).

Definition map_to_pos_alg_16 (value_to_map : Z) : Z :=
  if value_to_map <? 0
  then u16 ((- value_to_map) * 2 - 1)
  else u16 (value_to_map * 2).

Definition map_to_pos_alg_32 (value_to_map : Z) : Z :=
  if value_to_map <? 0
  then u32 ((- value_to_map) * 2 - 1)
  else u32 (value_to_map * 2).

(** ** Codewords *)

(** Both encoders return the length of the codeword and store the codeword
    through the pointer [cw]; the model returns the pair (length, codeword). *)

Definition Rice_encoder (value m log2_m : Z) : Z * Z :=
  let g := shr32 value log2_m in
  let q := sub32 (shl32 1 g) 1 in
  let r := Z.land value (sub32 m 1) in
  let rl := add32 log2_m 1 in
  let cw := Z.lor (shl32 q rl) r in
  (add32 rl g, cw).

(** [Golomb_encoder] shifts [1U] by [log2_m + 1].  For [log2_m = 31] that
    is a shift by the width of the type, which C leaves undefined; the
    model is the program for [log2_m <= 30]; the value 0 that [shl32]
    gives for a count of 32 is the model's choice and binds no machine. *)
Definition Golomb_encoder (value m log2_m : Z) : Z * Z :=
  let len0 := add32 log2_m 1 in
  let cutoff := sub32 (shl32 1 (add32 log2_m 1)) m in
  let cutoff := if cutoff =? 0 then m else cutoff in
  if value <? cutoff then
    (len0, value)
  else
    let b := shl32 cutoff 1 in
    let g := (sub32 value cutoff) / m in
    let lg := add32 len0 g in
    let q := sub32 (shl32 1 g) 1 in
    let cw := sub32 (add32 (add32 (shl32 q (add32 len0 1)) b)
                           (sub32 value cutoff))
                    (mul32 g m) in
    (add32 lg 1, cw).

(** The function pointers [&Rice_encoder] and [&Golomb_encoder]. *)
Inductive encoder_ptr := Rice_ptr | Golomb_ptr.

Definition call_encoder (e : encoder_ptr) (value m log2_m : Z) : Z * Z :=
  match e with
  | Rice_ptr => Rice_encoder value m log2_m
  | Golomb_ptr => Golomb_encoder value m log2_m
  end.

(** [NULL] is [None]. *)
Definition select_encoder (golomb_par : Z) : option encoder_ptr :=
  if golomb_par =? 0 then None
  else if is_a_pow_of_2 golomb_par then Some Rice_ptr
  else Some Golomb_ptr.

Definition cal_multi_offset (unencoded_data : Z) : Z :=
  if unencoded_data <=? 0x3 then 0
  else if unencoded_data <=? 0xF then 1
  else if unencoded_data <=? 0x3F then 2
  else if unencoded_data <=? 0xFF then 3
  else if unencoded_data <=? 0x3FF then 4
  else if unencoded_data <=? 0xFFF then 5
  else if unencoded_data <=? 0x3FFF then 6
  else if unencoded_data <=? 0xFFFF then 7
  else if unencoded_data <=? 0x3FFFF then 8
  else if unencoded_data <=? 0xFFFFF then 9
  else if unencoded_data <=? 0x3FFFFF then 10
  else if unencoded_data <=? 0xFFFFFF then 11
  else if unencoded_data <=? 0x3FFFFFF then 12
  else if unencoded_data <=? 0xFFFFFFF then 13
  else if unencoded_data <=? 0x3FFFFFFF then 14
  else 15.

(** ** Sample shapes *)

(** Modelled from the spec: the sample structures of the data-type header
    are not part of the sources at hand; section 3 lists their fields, an
    8-bit [EXPOSURE_FLAGS] and 32-bit fields otherwise. *)
Module S_FX.
Record t := mk { EXPOSURE_FLAGS : Z; FX : Z }.
End S_FX.

Module S_FX_EFX.
Record t := mk { EXPOSURE_FLAGS : Z; FX : Z; EFX : Z }.
End S_FX_EFX.

Module S_FX_NCOB.
Record t := mk { EXPOSURE_FLAGS : Z; FX : Z; NCOB_X : Z; NCOB_Y : Z }.
End S_FX_NCOB.

Module S_FX_EFX_NCOB_ECOB.
Record t := mk { EXPOSURE_FLAGS : Z; FX : Z; NCOB_X : Z; NCOB_Y : Z;
                 EFX : Z; ECOB_X : Z; ECOB_Y : Z }.
End S_FX_EFX_NCOB_ECOB.

(** ** The store *)

(** One element of a caller buffer.  A buffer is a list of cells; the store
    is the list of all buffers and a pointer is the index of a buffer in it
    ([None] is [NULL]).  Two pointers alias exactly when they are equal. *)
Inductive cell :=
| U16 (v : Z)
| U32 (v : Z)
| C_S_FX (s : S_FX.t)
| C_S_FX_EFX (s : S_FX_EFX.t)
| C_S_FX_NCOB (s : S_FX_NCOB.t)
| C_S_FX_EFX_NCOB_ECOB (s : S_FX_EFX_NCOB_ECOB.t).

Abbreviation ptr := (option nat).
Abbreviation store := (list (list cell)).

Definition ptr_eqb (p q : ptr) : bool := bool_decide (p = q).
Definition is_null (p : ptr) : bool := bool_decide (p = None).

(** Computations on the store; [None] is undefined behaviour. *)
Definition M (A : Type) : Type := store -> option (A * store).

Definition ret {A} (a : A) : M A := fun h => Some (a, h).
Definition fault {A} : M A := fun _ => None.
Definition bind {A B} (m : M A) (k : A -> M B) : M B :=
  fun h => match m h with
           | Some (a, h') => k a h'
           | None => None
           end.

Notation "'let*' x ':=' m 'in' k" := (bind m (fun x => k))
  (at level 10, x name, m at level 200, k at level 200).
Notation "'let*' ' pat ':=' m 'in' k" :=
  (bind m (fun x => match x with pat => k end))
  (at level 10, pat pattern, m at level 200, k at level 200).
Notation "'run' m 'in' k" := (bind m (fun _ => k))
  (at level 10, m at level 200, k at level 200).

(** [p[i]] read and written as a whole cell. *)
Definition load (p : ptr) (i : nat) : M cell :=
  fun h => match p with
           | None => None
           | Some a => match h !! a with
                       | Some b => match b !! i with
                                   | Some c => Some (c, h)
                                   | None => None
                                   end
                       | None => None
                       end
           end.

Definition poke (p : ptr) (i : nat) (c : cell) : M unit :=
  fun h => match p with
           | None => None
           | Some a => match h !! a with
                       | Some b => if bool_decide (i < length b)%nat
                                   then Some (tt, <[a := <[i := c]> b]> h)
                                   else None
                       | None => None
                       end
           end.

(** The typed views a cast of the buffer pointer gives. *)
Definition load_u16 (p : ptr) (i : nat) : M Z :=
  let* c := load p i in match c with U16 v => ret v | _ => fault end.
Definition load_u32 (p : ptr) (i : nat) : M Z :=
  let* c := load p i in match c with U32 v => ret v | _ => fault end.
Definition load_S_FX (p : ptr) (i : nat) : M S_FX.t :=
  let* c := load p i in match c with C_S_FX s => ret s | _ => fault end.
Definition load_S_FX_EFX (p : ptr) (i : nat) : M S_FX_EFX.t :=
  let* c := load p i in match c with C_S_FX_EFX s => ret s | _ => fault end.
Definition load_S_FX_NCOB (p : ptr) (i : nat) : M S_FX_NCOB.t :=
  let* c := load p i in match c with C_S_FX_NCOB s => ret s | _ => fault end.
Definition load_S_FX_EFX_NCOB_ECOB (p : ptr) (i : nat)
  : M S_FX_EFX_NCOB_ECOB.t :=
  let* c := load p i in
  match c with C_S_FX_EFX_NCOB_ECOB s => ret s | _ => fault end.

(** A typed write needs the cell to hold the same element type already: the
    buffer was allocated for it. *)
Definition same_shape (c d : cell) : bool :=
  match c, d with
  | U16 _, U16 _ | U32 _, U32 _ | C_S_FX _, C_S_FX _
  | C_S_FX_EFX _, C_S_FX_EFX _ | C_S_FX_NCOB _, C_S_FX_NCOB _
  | C_S_FX_EFX_NCOB_ECOB _, C_S_FX_EFX_NCOB_ECOB _ => true
  | _, _ => false
  end.

Definition store_cell (p : ptr) (i : nat) (c : cell) : M unit :=
  let* old := load p i in
  if same_shape old c then poke p i c else fault.

(** The loop [for (i = first; i < first + n; i++) body(i)] whose body yields
    an error code and leaves the loop with it when it is not zero. *)
Fixpoint for_loop {S : Type} (n : nat) (i : nat)
    (body : nat -> S -> M (Z * S)) (s : S) : M (Z * S) :=
  match n with
  | O => ret (0, s)
  | S n' =>
      let* '(err, s') := body i s in
      if err =? 0 then for_loop n' (Datatypes.S i) body s' else ret (err, s')
  end.

(** The loop [for (i = 0; i < n; i++) body(i)] without an exit. *)
Fixpoint for_each (n : nat) (i : nat) (body : nat -> M unit) : M unit :=
  match n with
  | O => ret tt
  | S n' => run body i in for_each n' (S i) body
  end.

(** The loop [for (i = n; i > 0; i--) body(i)]. *)
Fixpoint for_down (i : nat) (body : nat -> M unit) : M unit :=
  match i with
  | O => ret tt
  | S j => run body (S j) in for_down j body
  end.

(** ** Compression modes, configuration and result *)

(** The mode constants the source switches on; [MODE_UNKNOWN] is any other
    value of the [cmp_mode] field. *)
Inductive cmp_mode :=
| MODE_RAW | MODE_RAW_S_FX
| MODE_MODEL_ZERO | MODE_MODEL_MULTI | MODE_DIFF_ZERO | MODE_DIFF_MULTI
| MODE_MODEL_ZERO_S_FX | MODE_MODEL_MULTI_S_FX
| MODE_DIFF_ZERO_S_FX | MODE_DIFF_MULTI_S_FX
| MODE_MODEL_ZERO_S_FX_EFX | MODE_MODEL_MULTI_S_FX_EFX
| MODE_DIFF_ZERO_S_FX_EFX | MODE_DIFF_MULTI_S_FX_EFX
| MODE_MODEL_ZERO_S_FX_NCOB | MODE_MODEL_MULTI_S_FX_NCOB
| MODE_DIFF_ZERO_S_FX_NCOB | MODE_DIFF_MULTI_S_FX_NCOB
| MODE_MODEL_ZERO_S_FX_EFX_NCOB_ECOB | MODE_MODEL_MULTI_S_FX_EFX_NCOB_ECOB
| MODE_DIFF_ZERO_S_FX_EFX_NCOB_ECOB | MODE_DIFF_MULTI_S_FX_EFX_NCOB_ECOB
| MODE_MODEL_ZERO_32 | MODE_MODEL_MULTI_32
| MODE_DIFF_ZERO_32 | MODE_DIFF_MULTI_32
| MODE_MODEL_ZERO_F_FX | MODE_MODEL_MULTI_F_FX
| MODE_DIFF_ZERO_F_FX | MODE_DIFF_MULTI_F_FX
| MODE_UNKNOWN (v : Z).

(** Modelled from the spec: the mode predicates of cmp_support.c are not
    part of the sources at hand; section 6 reads them off the name of the
    mode: prefix [MODEL] selects model pre-processing, [DIFF] differencing,
    [RAW] neither; [ZERO] selects the zero escape and [MULTI] the multi
    escape mechanism. *)
Definition model_mode_is_used (m : cmp_mode) : bool :=
  match m with
  | MODE_MODEL_ZERO | MODE_MODEL_MULTI
  | MODE_MODEL_ZERO_S_FX | MODE_MODEL_MULTI_S_FX
  | MODE_MODEL_ZERO_S_FX_EFX | MODE_MODEL_MULTI_S_FX_EFX
  | MODE_MODEL_ZERO_S_FX_NCOB | MODE_MODEL_MULTI_S_FX_NCOB
  | MODE_MODEL_ZERO_S_FX_EFX_NCOB_ECOB | MODE_MODEL_MULTI_S_FX_EFX_NCOB_ECOB
  | MODE_MODEL_ZERO_32 | MODE_MODEL_MULTI_32
  | MODE_MODEL_ZERO_F_FX | MODE_MODEL_MULTI_F_FX => true
  | _ => false
  end.

Definition diff_mode_is_used (m : cmp_mode) : bool :=
  match m with
  | MODE_DIFF_ZERO | MODE_DIFF_MULTI
  | MODE_DIFF_ZERO_S_FX | MODE_DIFF_MULTI_S_FX
  | MODE_DIFF_ZERO_S_FX_EFX | MODE_DIFF_MULTI_S_FX_EFX
  | MODE_DIFF_ZERO_S_FX_NCOB | MODE_DIFF_MULTI_S_FX_NCOB
  | MODE_DIFF_ZERO_S_FX_EFX_NCOB_ECOB | MODE_DIFF_MULTI_S_FX_EFX_NCOB_ECOB
  | MODE_DIFF_ZERO_32 | MODE_DIFF_MULTI_32
  | MODE_DIFF_ZERO_F_FX | MODE_DIFF_MULTI_F_FX => true
  | _ => false
  end.

Definition raw_mode_is_used (m : cmp_mode) : bool :=
  match m with
  | MODE_RAW | MODE_RAW_S_FX => true
  | _ => false
  end.

Definition zero_escape_mech_is_used (m : cmp_mode) : bool :=
  match m with
  | MODE_MODEL_ZERO | MODE_DIFF_ZERO
  | MODE_MODEL_ZERO_S_FX | MODE_DIFF_ZERO_S_FX
  | MODE_MODEL_ZERO_S_FX_EFX | MODE_DIFF_ZERO_S_FX_EFX
  | MODE_MODEL_ZERO_S_FX_NCOB | MODE_DIFF_ZERO_S_FX_NCOB
  | MODE_MODEL_ZERO_S_FX_EFX_NCOB_ECOB | MODE_DIFF_ZERO_S_FX_EFX_NCOB_ECOB
  | MODE_MODEL_ZERO_32 | MODE_DIFF_ZERO_32
  | MODE_MODEL_ZERO_F_FX | MODE_DIFF_ZERO_F_FX => true
  | _ => false
  end.

Definition multi_escape_mech_is_used (m : cmp_mode) : bool :=
  match m with
  | MODE_MODEL_MULTI | MODE_DIFF_MULTI
  | MODE_MODEL_MULTI_S_FX | MODE_DIFF_MULTI_S_FX
  | MODE_MODEL_MULTI_S_FX_EFX | MODE_DIFF_MULTI_S_FX_EFX
  | MODE_MODEL_MULTI_S_FX_NCOB | MODE_DIFF_MULTI_S_FX_NCOB
  | MODE_MODEL_MULTI_S_FX_EFX_NCOB_ECOB | MODE_DIFF_MULTI_S_FX_EFX_NCOB_ECOB
  | MODE_MODEL_MULTI_32 | MODE_DIFF_MULTI_32
  | MODE_MODEL_MULTI_F_FX | MODE_DIFF_MULTI_F_FX => true
  | _ => false
  end.

(** Modelled from the spec: [MAX_MODEL_VALUE], [MAX_ICU_ROUND] and
    [MIN_ICU_GOLOMB_PAR] of cmp_support.h are not part of the sources at
    hand; section 3 gives 16, 3 and 1. *)
Definition MAX_MODEL_VALUE : Z := 16.
Definition MAX_ICU_ROUND : Z := 3.
Definition MIN_ICU_GOLOMB_PAR : Z := 1.

(** The fields of [struct cmp_cfg] the compressor reads. *)
Record cmp_cfg := mk_cfg {
  cmp_mode_of : cmp_mode;
  golomb_par : Z;
  spill : Z;
  model_value : Z;
  round : Z;
  samples : Z;
  buffer_length : Z;
  input_buf : ptr;
  model_buf : ptr;
  icu_new_model_buf : ptr;
  icu_output_buf : ptr;
  rdcu_new_model_adr : Z;
  rdcu_buffer_adr : Z
}.

Definition set_golomb_par (cfg : cmp_cfg) (v : Z) : cmp_cfg :=
  mk_cfg (cmp_mode_of cfg) v (spill cfg) (model_value cfg) (round cfg)
         (samples cfg) (buffer_length cfg) (input_buf cfg) (model_buf cfg)
         (icu_new_model_buf cfg) (icu_output_buf cfg)
         (rdcu_new_model_adr cfg) (rdcu_buffer_adr cfg).

Definition set_samples (cfg : cmp_cfg) (v : Z) : cmp_cfg :=
  mk_cfg (cmp_mode_of cfg) (golomb_par cfg) (spill cfg) (model_value cfg)
         (round cfg) v (buffer_length cfg) (input_buf cfg) (model_buf cfg)
         (icu_new_model_buf cfg) (icu_output_buf cfg)
         (rdcu_new_model_adr cfg) (rdcu_buffer_adr cfg).

(** [struct cmp_info]. *)
Record cmp_info := mk_info {
  cmp_err : Z;
  cmp_mode_used : Z;
  model_value_used : Z;
  round_used : Z;
  spill_used : Z;
  golomb_par_used : Z;
  samples_used : Z;
  info_cmp_size : Z;
  ap1_cmp_size : Z;
  ap2_cmp_size : Z;
  rdcu_new_model_adr_used : Z;
  rdcu_cmp_adr_used : Z
}.

Definition set_cmp_err (info : cmp_info) (v : Z) : cmp_info :=
  mk_info v (cmp_mode_used info) (model_value_used info) (round_used info)
          (spill_used info) (golomb_par_used info) (samples_used info)
          (info_cmp_size info) (ap1_cmp_size info) (ap2_cmp_size info)
          (rdcu_new_model_adr_used info) (rdcu_cmp_adr_used info).

Definition set_info_cmp_size (info : cmp_info) (v : Z) : cmp_info :=
  mk_info (cmp_err info) (cmp_mode_used info) (model_value_used info)
          (round_used info) (spill_used info) (golomb_par_used info)
          (samples_used info) v (ap1_cmp_size info) (ap2_cmp_size info)
          (rdcu_new_model_adr_used info) (rdcu_cmp_adr_used info).

(** [info->cmp_err |= 1UL << bit]. *)
Definition raise_err (info : cmp_info) (bit : Z) : cmp_info :=
  set_cmp_err info (Z.lor (cmp_err info) (Z.shiftl 1 bit)).

(** What cmp_support.h and cmp_support.c leave to the implementation: the
    constants, the numbering of the modes and the helpers that are not part
    of the sources at hand and that the spec does not fix. *)
Class cmp_support := {
  MAX_ICU_GOLOMB_PAR : Z;
  MIN_ICU_SPILL : Z;
  get_max_spill : Z -> cmp_mode -> Z;
  GOLOMB_PAR_EXPOSURE_FLAGS : Z;
  CMP_MODE_ERR_BIT : Z;
  MODEL_VALUE_ERR_BIT : Z;
  CMP_PAR_ERR_BIT : Z;
  SMALL_BUFFER_ERR_BIT : Z;
  (** the integer a mode constant stands for *)
  cmp_mode_value : cmp_mode -> Z;
  size_of_a_sample : cmp_mode -> Z;
  cal_up_model : Z -> Z -> Z -> Z;
  cal_up_model_S_FX : S_FX.t -> S_FX.t -> Z -> S_FX.t;
  (** the words of the output buffer after [memcpy] of the first [n] bytes
      of a sample buffer over them *)
  memcpy_words : list cell -> list cell -> Z -> list cell
}.

(** ** The bit packer *)

(** [*(p + i) &= m] and [*(p + i) |= v] on a 32-bit word. *)
Definition and_assign (p : ptr) (i : nat) (m : Z) : M unit :=
  let* w := load_u32 p i in store_cell p i (U32 (Z.land w m)).
Definition or_assign (p : ptr) (i : nat) (v : Z) : M unit :=
  let* w := load_u32 p i in store_cell p i (U32 (Z.lor w v)).

(** The part of [put_n_bits32] behind its three guards. *)
Definition put_n_bits32_write (value bitOffset nBits : Z) (destAddr : ptr)
  : M Z :=
  let localAddr := Z.to_nat (shr32 bitOffset 5) in
  let bitsLeft := Z.land bitOffset 0x1f in
  let shiftRight := sub32 32 nBits in
  let mask := shr32 0xffffffff shiftRight in
  let value := Z.land value mask in
  let localEndPos := add32 bitsLeft nBits in
  if localEndPos <=? 32 then
    let shiftLeft := sub32 shiftRight bitsLeft in
    let mask := shl32 mask shiftLeft in
    run and_assign destAddr localAddr (not32 mask) in
    run or_assign destAddr localAddr (shl32 value (sub32 32 localEndPos)) in
    ret nBits
  else
    let n2 := sub32 (add32 bitsLeft nBits) 32 in
    let shiftRight := bitsLeft in
    let mask := shr32 0xffffffff shiftRight in
    run and_assign destAddr localAddr (not32 mask) in
    run or_assign destAddr localAddr (shr32 value n2) in
    let localAddr := S localAddr in
    let shiftLeft := sub32 (sub32 64 bitsLeft) nBits in
    let mask := shl32 0xffffffff shiftLeft in
    run and_assign destAddr localAddr (not32 mask) in
    run or_assign destAddr localAddr (shl32 value (sub32 32 n2)) in
    ret nBits.

Definition put_n_bits32 (value bitOffset nBits : Z) (destAddr : ptr)
    (dest_len : Z) : M Z :=
  if add32 bitOffset nBits >? mul32 (mul32 (add32 dest_len 1 / 2) 2) 16 then
    ret neg2U
  else if nBits =? 0 then ret 0
  else if nBits >? 32 then ret 0
  else put_n_bits32_write value bitOffset nBits destAddr.

(** ** The entropy encoder *)

Record encoder_struct := mk_enc {
  encoder : option encoder_ptr;
  log2_golomb_par : Z;
  cmp_size : Z
}.

Definition set_cmp_size (enc : encoder_struct) (v : Z) : encoder_struct :=
  mk_enc (encoder enc) (log2_golomb_par enc) v.
Definition set_log2_golomb_par (enc : encoder_struct) (v : Z)
  : encoder_struct :=
  mk_enc (encoder enc) v (cmp_size enc).

(** The functions below take [enc] by pointer and update it; the model
    returns the error code together with the updated [enc]. *)

Definition encode_normal (value_to_encode : Z) (cfg : cmp_cfg)
    (enc : encoder_struct) : M (Z * encoder_struct) :=
  match encoder enc with
  | None => ret (-1, enc)
  | Some e =>
      let '(cw_len, code_word) :=
        call_encoder e value_to_encode (golomb_par cfg)
                     (log2_golomb_par enc) in
      let* r := put_n_bits32 code_word (cmp_size enc) cw_len
                             (icu_output_buf cfg) (buffer_length cfg) in
      let err := to_signed 32 r in
      if err <=? 0 then ret (err, enc)
      else ret (0, set_cmp_size enc (add32 (cmp_size enc) cw_len))
  end.

Definition encode_outlier_zero (value_to_encode max_bits : Z)
    (cfg : cmp_cfg) (enc : encoder_struct) : M (Z * encoder_struct) :=
  if max_bits >? 32 then ret (-1, enc)
  else
    (* use zero as escape symbol; the error code is dropped *)
    let* '(_, enc) := encode_normal 0 cfg enc in
    let* r := put_n_bits32 value_to_encode (cmp_size enc) (u32 max_bits)
                           (icu_output_buf cfg) (buffer_length cfg) in
    let err := to_signed 32 r in
    if err <=? 0 then ret (err, enc)
    else ret (0, set_cmp_size enc (add32 (cmp_size enc) max_bits)).

Definition encode_outlier_multi (value_to_encode : Z) (cfg : cmp_cfg)
    (enc : encoder_struct) : M (Z * encoder_struct) :=
  let unencoded_data := sub32 value_to_encode (spill cfg) in
  let escape_sym_offset := cal_multi_offset unencoded_data in
  let escape_sym := add32 (spill cfg) escape_sym_offset in
  let unencoded_data_len := u32 ((escape_sym_offset + 1) * 2) in
  (* put the escape symbol in the bitstream; the error code is dropped *)
  let* '(_, enc) := encode_normal escape_sym cfg enc in
  let* r := put_n_bits32 unencoded_data (cmp_size enc) unencoded_data_len
                         (icu_output_buf cfg) (buffer_length cfg) in
  let err := to_signed 32 r in
  if err <=? 0 then ret (err, enc)
  else ret (0, set_cmp_size enc (add32 (cmp_size enc) unencoded_data_len)).

Definition encode_outlier (value_to_encode bit_len : Z) (cfg : cmp_cfg)
    (enc : encoder_struct) : M (Z * encoder_struct) :=
  if multi_escape_mech_is_used (cmp_mode_of cfg) then
    encode_outlier_multi value_to_encode cfg enc
  else if zero_escape_mech_is_used (cmp_mode_of cfg) then
    encode_outlier_zero value_to_encode bit_len cfg enc
  else ret (-1, enc).

Definition encode_value (value_to_encode bit_len : Z) (cfg : cmp_cfg)
    (enc : encoder_struct) : M (Z * encoder_struct) :=
  if (spill cfg <=? value_to_encode)
     || (zero_escape_mech_is_used (cmp_mode_of cfg)
         && (value_to_encode =? 0))
  then encode_outlier value_to_encode bit_len cfg enc
  else encode_normal value_to_encode cfg enc.

(** [err = f(...); if (err) return err;] followed by the rest of a loop
    body. *)
Definition and_then (m : M (Z * encoder_struct))
    (k : encoder_struct -> M (Z * encoder_struct)) : M (Z * encoder_struct) :=
  let* '(err, enc) := m in
  if err =? 0 then k enc else ret (err, enc).

Definition encode_16 (data_to_encode : ptr) (cfg : cmp_cfg)
    (enc : encoder_struct) : M (Z * encoder_struct) :=
  if samples cfg =? 0 then ret (0, enc)
  else if is_null data_to_encode then ret (-1, enc)
  else
    for_loop (Z.to_nat (samples cfg)) 0
      (fun i enc =>
         let* v := load_u16 data_to_encode i in
         encode_value v 16 cfg enc)
      enc.

Definition encode_32 (cfg : cmp_cfg) (enc : encoder_struct)
  : M (Z * encoder_struct) :=
  let data_to_encode := input_buf cfg in
  for_loop (Z.to_nat (samples cfg)) 0
    (fun i enc =>
       let* v := load_u32 data_to_encode i in
       encode_value v 32 cfg enc)
    enc.

Section Encoders.

Context `{cmp_support}.

(** The loop keeps the caller's [enc] and the local copy [enc_exp_flag];
    the counter [del_cnt] has no effect and is left out. *)
Definition encode_S_FX (cfg : cmp_cfg) (enc : encoder_struct)
  : M (Z * encoder_struct) :=
  let data_to_encode := input_buf cfg in
  let cfg_exp_flag := set_golomb_par cfg GOLOMB_PAR_EXPOSURE_FLAGS in
  let enc_exp_flag :=
    set_log2_golomb_par enc (ilog_2 GOLOMB_PAR_EXPOSURE_FLAGS) in
  let* '(err, (enc, _)) :=
    for_loop (Z.to_nat (samples cfg)) 0
      (fun i '(enc, enc_exp_flag) =>
         let* s := load_S_FX data_to_encode i in
         let* '(err, enc_exp_flag) :=
           encode_normal (S_FX.EXPOSURE_FLAGS s) cfg_exp_flag
                         enc_exp_flag in
         if negb (err =? 0) then ret (err, (enc, enc_exp_flag))
         else
           let enc := set_cmp_size enc (cmp_size enc_exp_flag) in
           let enc :=
             set_log2_golomb_par enc (ilog_2 (golomb_par cfg)) in
           let* s := load_S_FX data_to_encode i in
           let* '(err, enc) := encode_value (S_FX.FX s) 32 cfg enc in
           if negb (err =? 0) then ret (err, (enc, enc_exp_flag))
           else
             let enc_exp_flag :=
               set_cmp_size enc_exp_flag (cmp_size enc) in
             ret (0, (enc, enc_exp_flag)))
      (enc, enc_exp_flag) in
  ret (err, enc).

End Encoders.

Definition encode_S_FX_EFX (cfg : cmp_cfg) (enc : encoder_struct)
  : M (Z * encoder_struct) :=
  let data_to_encode := input_buf cfg in
  for_loop (Z.to_nat (samples cfg)) 0
    (fun i enc =>
       and_then (let* s := load_S_FX_EFX data_to_encode i in
                 encode_value (S_FX_EFX.EXPOSURE_FLAGS s) 8 cfg enc)
       (fun enc =>
       and_then (let* s := load_S_FX_EFX data_to_encode i in
                 encode_value (S_FX_EFX.FX s) 32 cfg enc)
       (fun enc =>
       let* s := load_S_FX_EFX data_to_encode i in
       encode_value (S_FX_EFX.EFX s) 32 cfg enc)))
    enc.

Definition encode_S_FX_NCOB (cfg : cmp_cfg) (enc : encoder_struct)
  : M (Z * encoder_struct) :=
  let data_to_encode := input_buf cfg in
  for_loop (Z.to_nat (samples cfg)) 0
    (fun i enc =>
       and_then (let* s := load_S_FX_NCOB data_to_encode i in
                 encode_value (S_FX_NCOB.EXPOSURE_FLAGS s) 8 cfg enc)
       (fun enc =>
       and_then (let* s := load_S_FX_NCOB data_to_encode i in
                 encode_value (S_FX_NCOB.FX s) 32 cfg enc)
       (fun enc =>
       and_then (let* s := load_S_FX_NCOB data_to_encode i in
                 encode_value (S_FX_NCOB.NCOB_X s) 32 cfg enc)
       (fun enc =>
       let* s := load_S_FX_NCOB data_to_encode i in
       encode_value (S_FX_NCOB.NCOB_Y s) 32 cfg enc))))
    enc.

Definition encode_S_FX_EFX_NCOB_ECOB (cfg : cmp_cfg) (enc : encoder_struct)
  : M (Z * encoder_struct) :=
  let data_to_encode := input_buf cfg in
  let get := load_S_FX_EFX_NCOB_ECOB data_to_encode in
  for_loop (Z.to_nat (samples cfg)) 0
    (fun i enc =>
       and_then (let* s := get i in
                 encode_value (S_FX_EFX_NCOB_ECOB.EXPOSURE_FLAGS s) 8 cfg enc)
       (fun enc =>
       and_then (let* s := get i in
                 encode_value (S_FX_EFX_NCOB_ECOB.FX s) 32 cfg enc)
       (fun enc =>
       and_then (let* s := get i in
                 encode_value (S_FX_EFX_NCOB_ECOB.NCOB_X s) 32 cfg enc)
       (fun enc =>
       and_then (let* s := get i in
                 encode_value (S_FX_EFX_NCOB_ECOB.NCOB_Y s) 32 cfg enc)
       (fun enc =>
       and_then (let* s := get i in
                 encode_value (S_FX_EFX_NCOB_ECOB.EFX s) 32 cfg enc)
       (fun enc =>
       and_then (let* s := get i in
                 encode_value (S_FX_EFX_NCOB_ECOB.ECOB_X s) 32 cfg enc)
       (fun enc =>
       let* s := get i in
       encode_value (S_FX_EFX_NCOB_ECOB.ECOB_Y s) 32 cfg enc)))))))
    enc.

(** ** Pre-processing *)

(** Modelled from the spec: the rounding and subtraction helpers of the
    data-type module ([lossy_rounding_*], [de_lossy_rounding_S_FX],
    [sub_*]) are not part of the sources at hand; section 4.2 applies
    [round_fwd], [round_inv] and the wrapping subtraction to every field in
    the field's own width. *)
Definition lossy_rounding_16 (data_buf : ptr) (samples round : Z) : M Z :=
  run for_each (Z.to_nat samples) 0
        (fun i => let* v := load_u16 data_buf i in
                  store_cell data_buf i (U16 (u16 (round_fwd v round)))) in
  ret 0.

Definition lossy_rounding_32 (data_buf : ptr) (samples round : Z) : M Z :=
  run for_each (Z.to_nat samples) 0
        (fun i => let* v := load_u32 data_buf i in
                  store_cell data_buf i (U32 (u32 (round_fwd v round)))) in
  ret 0.

Definition round_S_FX (s : S_FX.t) (round : Z) : S_FX.t :=
  S_FX.mk (u8 (round_fwd (S_FX.EXPOSURE_FLAGS s) round))
          (u32 (round_fwd (S_FX.FX s) round)).

Definition de_round_S_FX (s : S_FX.t) (round : Z) : S_FX.t :=
  S_FX.mk (u8 (round_inv (S_FX.EXPOSURE_FLAGS s) round))
          (round_inv (S_FX.FX s) round).

Definition sub_S_FX (a b : S_FX.t) : S_FX.t :=
  S_FX.mk (u8 (S_FX.EXPOSURE_FLAGS a - S_FX.EXPOSURE_FLAGS b))
          (sub32 (S_FX.FX a) (S_FX.FX b)).

Definition round_S_FX_EFX (s : S_FX_EFX.t) (round : Z) : S_FX_EFX.t :=
  S_FX_EFX.mk (u8 (round_fwd (S_FX_EFX.EXPOSURE_FLAGS s) round))
              (u32 (round_fwd (S_FX_EFX.FX s) round))
              (u32 (round_fwd (S_FX_EFX.EFX s) round)).

Definition sub_S_FX_EFX (a b : S_FX_EFX.t) : S_FX_EFX.t :=
  S_FX_EFX.mk (u8 (S_FX_EFX.EXPOSURE_FLAGS a - S_FX_EFX.EXPOSURE_FLAGS b))
              (sub32 (S_FX_EFX.FX a) (S_FX_EFX.FX b))
              (sub32 (S_FX_EFX.EFX a) (S_FX_EFX.EFX b)).

Definition round_S_FX_NCOB (s : S_FX_NCOB.t) (round : Z) : S_FX_NCOB.t :=
  S_FX_NCOB.mk (u8 (round_fwd (S_FX_NCOB.EXPOSURE_FLAGS s) round))
               (u32 (round_fwd (S_FX_NCOB.FX s) round))
               (u32 (round_fwd (S_FX_NCOB.NCOB_X s) round))
               (u32 (round_fwd (S_FX_NCOB.NCOB_Y s) round)).

Definition sub_S_FX_NCOB (a b : S_FX_NCOB.t) : S_FX_NCOB.t :=
  S_FX_NCOB.mk (u8 (S_FX_NCOB.EXPOSURE_FLAGS a - S_FX_NCOB.EXPOSURE_FLAGS b))
               (sub32 (S_FX_NCOB.FX a) (S_FX_NCOB.FX b))
               (sub32 (S_FX_NCOB.NCOB_X a) (S_FX_NCOB.NCOB_X b))
               (sub32 (S_FX_NCOB.NCOB_Y a) (S_FX_NCOB.NCOB_Y b)).

Definition round_S_FX_EFX_NCOB_ECOB (s : S_FX_EFX_NCOB_ECOB.t) (round : Z)
  : S_FX_EFX_NCOB_ECOB.t :=
  S_FX_EFX_NCOB_ECOB.mk
    (u8 (round_fwd (S_FX_EFX_NCOB_ECOB.EXPOSURE_FLAGS s) round))
    (u32 (round_fwd (S_FX_EFX_NCOB_ECOB.FX s) round))
    (u32 (round_fwd (S_FX_EFX_NCOB_ECOB.NCOB_X s) round))
    (u32 (round_fwd (S_FX_EFX_NCOB_ECOB.NCOB_Y s) round))
    (u32 (round_fwd (S_FX_EFX_NCOB_ECOB.EFX s) round))
    (u32 (round_fwd (S_FX_EFX_NCOB_ECOB.ECOB_X s) round))
    (u32 (round_fwd (S_FX_EFX_NCOB_ECOB.ECOB_Y s) round)).

Definition sub_S_FX_EFX_NCOB_ECOB (a b : S_FX_EFX_NCOB_ECOB.t)
  : S_FX_EFX_NCOB_ECOB.t :=
  S_FX_EFX_NCOB_ECOB.mk
    (u8 (S_FX_EFX_NCOB_ECOB.EXPOSURE_FLAGS a
         - S_FX_EFX_NCOB_ECOB.EXPOSURE_FLAGS b))
    (sub32 (S_FX_EFX_NCOB_ECOB.FX a) (S_FX_EFX_NCOB_ECOB.FX b))
    (sub32 (S_FX_EFX_NCOB_ECOB.NCOB_X a) (S_FX_EFX_NCOB_ECOB.NCOB_X b))
    (sub32 (S_FX_EFX_NCOB_ECOB.NCOB_Y a) (S_FX_EFX_NCOB_ECOB.NCOB_Y b))
    (sub32 (S_FX_EFX_NCOB_ECOB.EFX a) (S_FX_EFX_NCOB_ECOB.EFX b))
    (sub32 (S_FX_EFX_NCOB_ECOB.ECOB_X a) (S_FX_EFX_NCOB_ECOB.ECOB_X b))
    (sub32 (S_FX_EFX_NCOB_ECOB.ECOB_Y a) (S_FX_EFX_NCOB_ECOB.ECOB_Y b)).

Definition lossy_rounding_S_FX (data : ptr) (samples round : Z) : M Z :=
  run for_each (Z.to_nat samples) 0
        (fun i => let* s := load_S_FX data i in
                  store_cell data i (C_S_FX (round_S_FX s round))) in
  ret 0.

Definition lossy_rounding_S_FX_EFX (data : ptr) (samples round : Z) : M Z :=
  run for_each (Z.to_nat samples) 0
        (fun i => let* s := load_S_FX_EFX data i in
                  store_cell data i (C_S_FX_EFX (round_S_FX_EFX s round))) in
  ret 0.

Definition lossy_rounding_S_FX_NCOB (data : ptr) (samples round : Z) : M Z :=
  run for_each (Z.to_nat samples) 0
        (fun i => let* s := load_S_FX_NCOB data i in
                  store_cell data i (C_S_FX_NCOB (round_S_FX_NCOB s round))) in
  ret 0.

Definition lossy_rounding_S_FX_EFX_NCOB_ECOB (data : ptr) (samples round : Z)
  : M Z :=
  run for_each (Z.to_nat samples) 0
        (fun i => let* s := load_S_FX_EFX_NCOB_ECOB data i in
                  store_cell data i
                    (C_S_FX_EFX_NCOB_ECOB
                       (round_S_FX_EFX_NCOB_ECOB s round))) in
  ret 0.

(** From here on the definitions follow icu_cmp.c again. *)

Definition diff_16 (data_buf : ptr) (samples round : Z) : M Z :=
  if samples =? 0 then ret 0
  else if is_null data_buf then ret (-1)
  else
    run lossy_rounding_16 data_buf samples round in
    run for_down (Z.to_nat (samples - 1))
          (fun i =>
             let* a := load_u16 data_buf i in
             let* b := load_u16 data_buf (i - 1) in
             (* possible underflow is intended *)
             store_cell data_buf i (U16 (u16 (a - b)))) in
    ret 0.

Definition diff_32 (data_buf : ptr) (samples round : Z) : M Z :=
  if samples =? 0 then ret 0
  else if is_null data_buf then ret (-1)
  else
    run lossy_rounding_32 data_buf samples round in
    run for_down (Z.to_nat (samples - 1))
          (fun i =>
             let* a := load_u32 data_buf i in
             let* b := load_u32 data_buf (i - 1) in
             store_cell data_buf i (U32 (sub32 a b))) in
    ret 0.

Definition diff_S_FX (data : ptr) (samples round : Z) : M Z :=
  if samples =? 0 then ret 0
  else if is_null data then ret (-1)
  else
    let* err := lossy_rounding_S_FX data samples round in
    if negb (err =? 0) then ret err
    else
      run for_down (Z.to_nat (samples - 1))
            (fun i =>
               let* a := load_S_FX data i in
               let* b := load_S_FX data (i - 1) in
               store_cell data i (C_S_FX (sub_S_FX a b))) in
      ret 0.

Definition diff_S_FX_EFX (data : ptr) (samples round : Z) : M Z :=
  if samples =? 0 then ret 0
  else if is_null data then ret (-1)
  else
    let* err := lossy_rounding_S_FX_EFX data samples round in
    if negb (err =? 0) then ret err
    else
      run for_down (Z.to_nat (samples - 1))
            (fun i =>
               let* a := load_S_FX_EFX data i in
               let* b := load_S_FX_EFX data (i - 1) in
               store_cell data i (C_S_FX_EFX (sub_S_FX_EFX a b))) in
      ret 0.

Definition diff_S_FX_NCOB (data : ptr) (samples round : Z) : M Z :=
  if samples =? 0 then ret 0
  else if is_null data then ret (-1)
  else
    let* err := lossy_rounding_S_FX_NCOB data samples round in
    if negb (err =? 0) then ret err
    else
      run for_down (Z.to_nat (samples - 1))
            (fun i =>
               let* a := load_S_FX_NCOB data i in
               let* b := load_S_FX_NCOB data (i - 1) in
               store_cell data i (C_S_FX_NCOB (sub_S_FX_NCOB a b))) in
      ret 0.

Definition diff_S_FX_EFX_NCOB_ECOB (data : ptr) (samples round : Z) : M Z :=
  if samples =? 0 then ret 0
  else if is_null data then ret (-1)
  else
    let* err := lossy_rounding_S_FX_EFX_NCOB_ECOB data samples round in
    if negb (err =? 0) then ret err
    else
      run for_down (Z.to_nat (samples - 1))
            (fun i =>
               let* a := load_S_FX_EFX_NCOB_ECOB data i in
               let* b := load_S_FX_EFX_NCOB_ECOB data (i - 1) in
               store_cell data i
                 (C_S_FX_EFX_NCOB_ECOB (sub_S_FX_EFX_NCOB_ECOB a b))) in
      ret 0.

(** ** Mapping stage *)

Definition map_to_pos_16 (data_buf : ptr) (samples : Z)
    (zero_mode_used : bool) : M Z :=
  if samples =? 0 then ret 0
  else if is_null data_buf then ret (-1)
  else
    run for_each (Z.to_nat samples) 0
          (fun i =>
             let* v := load_u16 data_buf i in
             run store_cell data_buf i
                   (U16 (map_to_pos_alg_16 (to_signed 16 v))) in
             if zero_mode_used then
               let* v := load_u16 data_buf i in
               store_cell data_buf i (U16 (u16 (v + 1)))
             else ret tt) in
    ret 0.

Definition map_to_pos_32 (data_buf : ptr) (samples : Z)
    (zero_mode_used : bool) : M Z :=
  if samples =? 0 then ret 0
  else if is_null data_buf then ret (-1)
  else
    run for_each (Z.to_nat samples) 0
          (fun i =>
             let* v := load_u32 data_buf i in
             run store_cell data_buf i
                   (U32 (map_to_pos_alg_32 (to_signed 32 v))) in
             if zero_mode_used then
               let* v := load_u32 data_buf i in
               store_cell data_buf i (U32 (add32 v 1))
             else ret tt) in
    ret 0.

(** The 32-bit fields of a structure go through [map_32]; the exposure
    flags are mapped but never incremented. *)
Definition map_32 (zero_mode_used : bool) (v : Z) : Z :=
  let u := map_to_pos_alg_32 (to_signed 32 v) in
  if zero_mode_used then add32 u 1 else u.

Definition map_8 (v : Z) : Z := map_to_pos_alg_8 (to_signed 8 v).

(** The assignments to the fields of [data_buf[i]] are gathered in one
    update of the cell. *)
Definition map_to_pos_S_FX (data_buf : ptr) (samples : Z)
    (zero_mode_used : bool) : M Z :=
  if samples =? 0 then ret 0
  else if is_null data_buf then ret (-1)
  else
    run for_each (Z.to_nat samples) 0
          (fun i =>
             let* s := load_S_FX data_buf i in
             store_cell data_buf i
               (C_S_FX (S_FX.mk (map_8 (S_FX.EXPOSURE_FLAGS s))
                                (map_32 zero_mode_used (S_FX.FX s))))) in
    ret 0.

Definition map_to_pos_S_FX_EFX (data_buf : ptr) (samples : Z)
    (zero_mode_used : bool) : M Z :=
  if samples =? 0 then ret 0
  else if is_null data_buf then ret (-1)
  else
    run for_each (Z.to_nat samples) 0
          (fun i =>
             let* s := load_S_FX_EFX data_buf i in
             store_cell data_buf i
               (C_S_FX_EFX
                  (S_FX_EFX.mk
                     (map_8 (S_FX_EFX.EXPOSURE_FLAGS s))
                     (map_32 zero_mode_used (S_FX_EFX.FX s))
                     (map_32 zero_mode_used (S_FX_EFX.EFX s))))) in
    ret 0.

Definition map_to_pos_S_FX_NCOB (data_buf : ptr) (samples : Z)
    (zero_mode_used : bool) : M Z :=
  if samples =? 0 then ret 0
  else if is_null data_buf then ret (-1)
  else
    run for_each (Z.to_nat samples) 0
          (fun i =>
             let* s := load_S_FX_NCOB data_buf i in
             store_cell data_buf i
               (C_S_FX_NCOB
                  (S_FX_NCOB.mk
                     (map_8 (S_FX_NCOB.EXPOSURE_FLAGS s))
                     (map_32 zero_mode_used (S_FX_NCOB.FX s))
                     (map_32 zero_mode_used (S_FX_NCOB.NCOB_X s))
                     (map_32 zero_mode_used (S_FX_NCOB.NCOB_Y s))))) in
    ret 0.

Definition map_to_pos_S_FX_EFX_NCOB_ECOB (data_buf : ptr) (samples : Z)
    (zero_mode_used : bool) : M Z :=
  if samples =? 0 then ret 0
  else if is_null data_buf then ret (-1)
  else
    run for_each (Z.to_nat samples) 0
          (fun i =>
             let* s := load_S_FX_EFX_NCOB_ECOB data_buf i in
             store_cell data_buf i
               (C_S_FX_EFX_NCOB_ECOB
                  (S_FX_EFX_NCOB_ECOB.mk
                     (map_8 (S_FX_EFX_NCOB_ECOB.EXPOSURE_FLAGS s))
                     (map_32 zero_mode_used (S_FX_EFX_NCOB_ECOB.FX s))
                     (map_32 zero_mode_used (S_FX_EFX_NCOB_ECOB.NCOB_X s))
                     (map_32 zero_mode_used (S_FX_EFX_NCOB_ECOB.NCOB_Y s))
                     (map_32 zero_mode_used (S_FX_EFX_NCOB_ECOB.EFX s))
                     (map_32 zero_mode_used (S_FX_EFX_NCOB_ECOB.ECOB_X s))
                     (map_32 zero_mode_used
                        (S_FX_EFX_NCOB_ECOB.ECOB_Y s))))) in
    ret 0.

Definition map_to_pos (cfg : cmp_cfg) : M Z :=
  if samples cfg =? 0 then ret 0
  else if is_null (input_buf cfg) then ret (-1)
  else
    let zero_mode_used := zero_escape_mech_is_used (cmp_mode_of cfg) in
    match cmp_mode_of cfg with
    | MODE_RAW | MODE_RAW_S_FX => ret 0
    | MODE_MODEL_ZERO | MODE_MODEL_MULTI | MODE_DIFF_ZERO | MODE_DIFF_MULTI =>
        map_to_pos_16 (input_buf cfg) (samples cfg) zero_mode_used
    | MODE_MODEL_ZERO_S_FX | MODE_MODEL_MULTI_S_FX
    | MODE_DIFF_ZERO_S_FX | MODE_DIFF_MULTI_S_FX =>
        map_to_pos_S_FX (input_buf cfg) (samples cfg) zero_mode_used
    | MODE_MODEL_ZERO_S_FX_EFX | MODE_MODEL_MULTI_S_FX_EFX
    | MODE_DIFF_ZERO_S_FX_EFX | MODE_DIFF_MULTI_S_FX_EFX =>
        map_to_pos_S_FX_EFX (input_buf cfg) (samples cfg) zero_mode_used
    | MODE_MODEL_ZERO_S_FX_NCOB | MODE_MODEL_MULTI_S_FX_NCOB
    | MODE_DIFF_ZERO_S_FX_NCOB | MODE_DIFF_MULTI_S_FX_NCOB =>
        map_to_pos_S_FX_NCOB (input_buf cfg) (samples cfg) zero_mode_used
    | MODE_MODEL_ZERO_S_FX_EFX_NCOB_ECOB | MODE_MODEL_MULTI_S_FX_EFX_NCOB_ECOB
    | MODE_DIFF_ZERO_S_FX_EFX_NCOB_ECOB | MODE_DIFF_MULTI_S_FX_EFX_NCOB_ECOB =>
        map_to_pos_S_FX_EFX_NCOB_ECOB (input_buf cfg) (samples cfg)
                                      zero_mode_used
    | MODE_MODEL_ZERO_32 | MODE_MODEL_MULTI_32
    | MODE_DIFF_ZERO_32 | MODE_DIFF_MULTI_32
    | MODE_MODEL_ZERO_F_FX | MODE_MODEL_MULTI_F_FX
    | MODE_DIFF_ZERO_F_FX | MODE_DIFF_MULTI_F_FX =>
        map_to_pos_32 (input_buf cfg) (samples cfg) zero_mode_used
    | MODE_UNKNOWN _ => ret (-1)
    end.

(** ** Model pre-processing, the pipeline and its validator *)

(** The whole buffer behind a pointer, for [memcpy]. *)
Definition load_buf (p : ptr) : M (list cell) :=
  fun h => match p with
           | None => None
           | Some a => match h !! a with
                       | Some b => Some (b, h)
                       | None => None
                       end
           end.

Definition store_buf (p : ptr) (b : list cell) : M unit :=
  fun h => match p with
           | None => None
           | Some a => if bool_decide (a < length h)%nat
                       then Some (tt, <[a := b]> h)
                       else None
           end.

Section Pipeline.

Context `{cmp_support}.

Definition model_16 (data_buf model_buf up_model_buf : ptr)
    (samples model_value round : Z) : M Z :=
  if samples =? 0 then ret 0
  else if is_null data_buf then ret (-1)
  else if is_null model_buf then ret (-1)
  else if model_value >? MAX_MODEL_VALUE then ret (-1)
  else
    let up_model_buf :=
      if is_null up_model_buf then model_buf else up_model_buf in
    run for_each (Z.to_nat samples) 0
          (fun i =>
             let* d := load_u16 data_buf i in
             let round_input := u16 (round_fwd d round) in
             let* m := load_u16 model_buf i in
             let round_model := u16 (round_fwd m round) in
             (* possible underflow is intended *)
             run store_cell data_buf i
                   (U16 (u16 (round_input - round_model))) in
             let* m := load_u16 model_buf i in
             store_cell up_model_buf i
               (U16 (u16 (cal_up_model (round_inv round_input round) m
                                       model_value)))) in
    ret 0.

Definition model_32 (data_buf model_buf : ptr)
    (samples model_value round : Z) : M Z :=
  if samples =? 0 then ret 0
  else if is_null data_buf then ret (-1)
  else if is_null model_buf then ret (-1)
  else if model_value >? MAX_MODEL_VALUE then ret (-1)
  else
    run for_each (Z.to_nat samples) 0
          (fun i =>
             let* d := load_u32 data_buf i in
             let round_input := round_fwd d round in
             let* m := load_u32 model_buf i in
             let round_model := round_fwd m round in
             run store_cell data_buf i
                   (U32 (sub32 round_input round_model)) in
             let* m := load_u32 model_buf i in
             store_cell model_buf i
               (U32 (u32 (cal_up_model (round_inv round_input round) m
                                       model_value)))) in
    ret 0.

Definition model_S_FX (data_buf model_buf up_model_buf : ptr)
    (samples model_value round : Z) : M Z :=
  if samples =? 0 then ret 0
  else if is_null data_buf then ret (-1)
  else if is_null model_buf then ret (-1)
  else if model_value >? MAX_MODEL_VALUE then ret (-1)
  else
    let up_model_buf :=
      if is_null up_model_buf then model_buf else up_model_buf in
    run for_each (Z.to_nat samples) 0
          (fun i =>
             let* round_data := load_S_FX data_buf i in
             let* round_model := load_S_FX model_buf i in
             let round_data := round_S_FX round_data round in
             let round_model := round_S_FX round_model round in
             run store_cell data_buf i
                   (C_S_FX (sub_S_FX round_data round_model)) in
             let round_data := de_round_S_FX round_data round in
             let* m := load_S_FX model_buf i in
             store_cell up_model_buf i
               (C_S_FX (cal_up_model_S_FX round_data m model_value))) in
    ret 0.

Definition pre_process (cfg : cmp_cfg) : M Z :=
  if samples cfg =? 0 then ret 0
  else if is_null (input_buf cfg) then ret (-1)
  else
    match cmp_mode_of cfg with
    | MODE_RAW | MODE_RAW_S_FX => ret 0
    | MODE_MODEL_ZERO | MODE_MODEL_MULTI =>
        model_16 (input_buf cfg) (model_buf cfg) (icu_new_model_buf cfg)
                 (samples cfg) (model_value cfg) (round cfg)
    | MODE_DIFF_ZERO | MODE_DIFF_MULTI =>
        diff_16 (input_buf cfg) (samples cfg) (round cfg)
    | MODE_MODEL_ZERO_S_FX | MODE_MODEL_MULTI_S_FX =>
        model_S_FX (input_buf cfg) (model_buf cfg) (icu_new_model_buf cfg)
                   (samples cfg) (model_value cfg) (round cfg)
    | MODE_DIFF_ZERO_S_FX | MODE_DIFF_MULTI_S_FX =>
        diff_S_FX (input_buf cfg) (samples cfg) (round cfg)
    | MODE_DIFF_ZERO_S_FX_EFX | MODE_DIFF_MULTI_S_FX_EFX =>
        diff_S_FX_EFX (input_buf cfg) (samples cfg) (round cfg)
    | MODE_DIFF_ZERO_S_FX_NCOB | MODE_DIFF_MULTI_S_FX_NCOB =>
        diff_S_FX_NCOB (input_buf cfg) (samples cfg) (round cfg)
    | MODE_DIFF_ZERO_S_FX_EFX_NCOB_ECOB
    | MODE_DIFF_MULTI_S_FX_EFX_NCOB_ECOB =>
        diff_S_FX_EFX_NCOB_ECOB (input_buf cfg) (samples cfg) (round cfg)
    | MODE_MODEL_ZERO_32 | MODE_MODEL_MULTI_32
    | MODE_MODEL_ZERO_F_FX | MODE_MODEL_MULTI_F_FX =>
        model_32 (input_buf cfg) (model_buf cfg) (samples cfg)
                 (model_value cfg) (round cfg)
    | MODE_DIFF_ZERO_32 | MODE_DIFF_MULTI_32
    | MODE_DIFF_ZERO_F_FX | MODE_DIFF_MULTI_F_FX =>
        diff_32 (input_buf cfg) (samples cfg) (round cfg)
    | _ => ret (-1)
    end.

End Pipeline.

Section Compressor.

Context `{cmp_support}.

(** [size_t] is taken wide enough for the byte count not to wrap.  A
    [memcpy] of no bytes changes nothing. *)
Definition encode_raw (cfg : cmp_cfg) (enc : encoder_struct)
  : M (Z * encoder_struct) :=
  if is_null (icu_output_buf cfg) then ret (-1, enc)
  else if is_null (input_buf cfg) then ret (-1, enc)
  else
    let cmp_size_in_bytes :=
      samples cfg * size_of_a_sample (cmp_mode_of cfg) in
    let enc := set_cmp_size enc (u32 (cmp_size_in_bytes * 8)) in
    if cmp_size_in_bytes >? buffer_length cfg * 2 then ret (-1, enc)
    else if cmp_size_in_bytes =? 0 then ret (0, enc)
    else
      let* dst := load_buf (icu_output_buf cfg) in
      let* src := load_buf (input_buf cfg) in
      run store_buf (icu_output_buf cfg)
            (memcpy_words dst src cmp_size_in_bytes) in
      ret (0, enc).

(** The byte swaps of the raw encoders ([cpu_to_be16s], [cpu_to_be32]) and
    of the padding code ([cpu_to_be32s] over the completed words) are
    compiled for little-endian hosts only.  The model is the big-endian
    build, in which these passes do not exist; what it says about the
    words of the output buffer holds of that build. *)
Definition encode_raw_16 (cfg : cmp_cfg) (enc : encoder_struct)
  : M (Z * encoder_struct) :=
  encode_raw cfg enc.

Definition encode_raw_S_FX (cfg : cmp_cfg) (enc : encoder_struct)
  : M (Z * encoder_struct) :=
  encode_raw cfg enc.

(** What [encode_data] does once the encoder of the mode has returned
    [err] and left [enc], in the big-endian build: after the padding a
    little-endian build goes on to swap the bytes of every completed word
    ([cpu_to_be32s]), which is not part of this definition. *)
Definition encode_data_finish (cfg : cmp_cfg) (info : cmp_info)
    (err : Z) (enc : encoder_struct) : M (Z * cmp_info) :=
  if err =? -2 then
    (* the icu_output_buf is to small to store the whole bitstream *)
    ret (err, raise_err info SMALL_BUFFER_ERR_BIT)
  else
    let info := set_info_cmp_size info (cmp_size enc) in
    (* pad the bitstream with zeros *)
    if negb (raw_mode_is_used (cmp_mode_of cfg))
       && negb (cmp_size enc =? 0) then
      let n_pad_bits :=
        to_signed 32 (sub32 32 (Z.land (cmp_size enc) 0x1f)) in
      if n_pad_bits <? 32 then
        let* r := put_n_bits32 0 (cmp_size enc) (u32 n_pad_bits)
                               (icu_output_buf cfg) (buffer_length cfg) in
        let n_bits := to_signed 32 r in
        if n_bits <=? 0 then
          ret (-2, set_info_cmp_size (raise_err info SMALL_BUFFER_ERR_BIT) 0)
        else ret (0, info)
      else ret (0, info)
    else ret (0, info).

Definition encode_data (cfg : cmp_cfg) (info : cmp_info)
  : M (Z * cmp_info) :=
  let enc := mk_enc (select_encoder (golomb_par cfg))
                    (ilog_2 (golomb_par cfg)) 0 in
  let finish m :=
    let* '(err, enc) := m in encode_data_finish cfg info err enc in
  match cmp_mode_of cfg with
  | MODE_RAW => finish (encode_raw_16 cfg enc)
  | MODE_MODEL_ZERO | MODE_MODEL_MULTI | MODE_DIFF_ZERO | MODE_DIFF_MULTI =>
      finish (encode_16 (input_buf cfg) cfg enc)
  | MODE_RAW_S_FX => finish (encode_raw_S_FX cfg enc)
  | MODE_MODEL_ZERO_S_FX | MODE_MODEL_MULTI_S_FX
  | MODE_DIFF_ZERO_S_FX | MODE_DIFF_MULTI_S_FX =>
      finish (encode_S_FX cfg enc)
  | MODE_MODEL_ZERO_S_FX_EFX | MODE_MODEL_MULTI_S_FX_EFX
  | MODE_DIFF_ZERO_S_FX_EFX | MODE_DIFF_MULTI_S_FX_EFX =>
      finish (encode_S_FX_EFX cfg enc)
  | MODE_MODEL_ZERO_S_FX_NCOB | MODE_MODEL_MULTI_S_FX_NCOB
  | MODE_DIFF_ZERO_S_FX_NCOB | MODE_DIFF_MULTI_S_FX_NCOB =>
      finish (encode_S_FX_NCOB cfg enc)
  | MODE_MODEL_ZERO_S_FX_EFX_NCOB_ECOB | MODE_MODEL_MULTI_S_FX_EFX_NCOB_ECOB
  | MODE_DIFF_ZERO_S_FX_EFX_NCOB_ECOB | MODE_DIFF_MULTI_S_FX_EFX_NCOB_ECOB =>
      finish (encode_S_FX_EFX_NCOB_ECOB cfg enc)
  | MODE_MODEL_ZERO_32 | MODE_MODEL_MULTI_32
  | MODE_DIFF_ZERO_32 | MODE_DIFF_MULTI_32
  | MODE_MODEL_ZERO_F_FX | MODE_MODEL_MULTI_F_FX
  | MODE_DIFF_ZERO_F_FX | MODE_DIFF_MULTI_F_FX =>
      finish (encode_32 cfg enc)
  | MODE_UNKNOWN _ => ret (-1, info)
  end.

(** [cfg] and [info] are present ([cfg] is not [NULL], and neither is
    [info], which the function fills in). *)
Definition set_info (cfg : cmp_cfg) (info : cmp_info) : Z * cmp_info :=
  if cmp_mode_value (cmp_mode_of cfg) >? UINT8_MAX then (-1, info)
  else if round cfg >? UINT8_MAX then (-1, info)
  else if model_value cfg >? UINT8_MAX then (-1, info)
  else
    (0, mk_info 0 (u8 (cmp_mode_value (cmp_mode_of cfg)))
                (u8 (model_value cfg)) (u8 (round cfg)) (spill cfg)
                (golomb_par cfg) (samples cfg) 0 0 0
                (rdcu_new_model_adr cfg) (rdcu_buffer_adr cfg)).

(** [cfg_invalid++] under a condition, and the same with an error bit. *)
Definition count_if (b : bool) (st : Z * cmp_info) : Z * cmp_info :=
  if b then (fst st + 1, snd st) else st.
Definition flag_if (b : bool) (bit : Z) (st : Z * cmp_info)
  : Z * cmp_info :=
  if b then (fst st + 1, raise_err (snd st) bit) else st.

(** The validator, called with a [cfg] and an [info] that are present;
    the state is the pair of [cfg_invalid] and [*info], warnings print
    only.  The adaptive checks are compiled out. *)
Definition icu_cmp_cfg_valid (cfg : cmp_cfg) (info : cmp_info)
  : Z * cmp_info :=
  let mode := cmp_mode_of cfg in
  let st := (0, set_cmp_err info 0) in
  let st := count_if (is_null (input_buf cfg)) st in
  let st := count_if (is_null (icu_output_buf cfg)) st in
  let st := count_if ((buffer_length cfg =? 0)
                      && negb (samples cfg =? 0)) st in
  let st := count_if (ptr_eqb (icu_output_buf cfg) (input_buf cfg)) st in
  let st :=
    if model_mode_is_used mode then
      let st := count_if (is_null (model_buf cfg)) st in
      let st := count_if (ptr_eqb (model_buf cfg) (input_buf cfg)) st in
      let st :=
        count_if (ptr_eqb (model_buf cfg) (icu_output_buf cfg)) st in
      let st :=
        count_if (ptr_eqb (icu_new_model_buf cfg) (input_buf cfg)) st in
      count_if (ptr_eqb (icu_new_model_buf cfg) (icu_output_buf cfg)) st
    else st in
  let st :=
    if raw_mode_is_used mode then
      count_if (samples cfg >? buffer_length cfg) st
    else st in
  let st :=
    flag_if (negb (diff_mode_is_used mode || model_mode_is_used mode
                   || raw_mode_is_used mode))
            CMP_MODE_ERR_BIT st in
  if raw_mode_is_used mode then (- fst st, snd st)
  else
    let st :=
      if model_mode_is_used mode then
        flag_if (model_value cfg >? MAX_MODEL_VALUE) MODEL_VALUE_ERR_BIT st
      else st in
    let st :=
      flag_if ((golomb_par cfg <? MIN_ICU_GOLOMB_PAR)
               || (golomb_par cfg >? MAX_ICU_GOLOMB_PAR))
              CMP_PAR_ERR_BIT st in
    let st := flag_if (spill cfg <? MIN_ICU_SPILL) CMP_PAR_ERR_BIT st in
    let st :=
      flag_if (spill cfg >? get_max_spill (golomb_par cfg) mode)
              CMP_PAR_ERR_BIT st in
    let st := count_if (round cfg >? MAX_ICU_ROUND) st in
    (- fst st, snd st).

Definition icu_compress_data (cfg : cmp_cfg) (info : cmp_info)
  : M (Z * cmp_info) :=
  let '(err, info) := set_info cfg info in
  if negb (err =? 0) then ret (err, info)
  else
    let '(err, info) := icu_cmp_cfg_valid cfg info in
    if negb (err =? 0) then ret (err, info)
    else
      let* err := pre_process cfg in
      if negb (err =? 0) then ret (err, info)
      else
        let* err := map_to_pos cfg in
        if negb (err =? 0) then ret (err, info)
        else
          let* '(err, info) := encode_data cfg info in
          if negb (err =? 0) then ret (err, info)
          else ret (0, info).

End Compressor.

(** ** The size bound of cmp_chunk.h *)

(** The constants of the entity header that cmp_chunk.h refers to and that
    are not part of the sources at hand. *)
Class cmp_entity_sizes := {
  NON_IMAGETTE_HEADER_SIZE : Z;
  CMP_COLLECTION_FILD_SIZE : Z;
  COLLECTION_HDR_SIZE : Z;
  CMP_ENTITY_MAX_SIZE : Z
}.

(** The macros are meant for evaluation at compile time.  [ROUND_UP_TO_4]
    is the value of the macro as long as the sum [x + 3] stays inside the
    type of its operand, with the division of C, which truncates. *)
Definition ROUND_UP_TO_4 (x : Z) : Z := Z.quot (x + 3) 4 * 4.

(** The macro on an operand of an unsigned type of [w] bits that is at least
    as wide as [int] ([uint32_t], [size_t]): the sum is taken in that type
    and wraps. *)
Definition ROUND_UP_TO_4_unsigned (w x : Z) : Z :=
  wrap w (Z.quot (wrap w (x + 3)) 4 * 4).

Section Chunk_bound.

Context `{cmp_entity_sizes}.

Definition COMPRESS_CHUNK_BOUND_UNSAFE (chunk_size num_col : Z) : Z :=
  ROUND_UP_TO_4 (NON_IMAGETTE_HEADER_SIZE
                 + num_col * CMP_COLLECTION_FILD_SIZE
                 + chunk_size).

Definition COMPRESS_CHUNK_BOUND (chunk_size num_col : Z) : Z :=
  if (num_col >? 0)
     && (num_col <=? Z.quot CMP_ENTITY_MAX_SIZE COLLECTION_HDR_SIZE)
     && (chunk_size >=? COLLECTION_HDR_SIZE * num_col)
     && (chunk_size <=? CMP_ENTITY_MAX_SIZE)
     && (COMPRESS_CHUNK_BOUND_UNSAFE chunk_size num_col
         <=? CMP_ENTITY_MAX_SIZE)
  then COMPRESS_CHUNK_BOUND_UNSAFE chunk_size num_col
  else 0.

End Chunk_bound.

(** ** Auxiliary definitions of the properties *)

(** The mapping of a field of [w] bits, for [w] one of 8, 16 and 32. *)
Definition map_to_pos_alg (w value_to_map : Z) : Z :=
  if w =? 8 then map_to_pos_alg_8 value_to_map
  else if w =? 16 then map_to_pos_alg_16 value_to_map
  else map_to_pos_alg_32 value_to_map.

(** Modelled from the spec: the decompressor is not part of the sources at
    hand; section 8 names the inverse [map_to_pos_inv] of the mapping.  Even
    codes stand for the residuals that are not negative, odd codes for the
    negative ones; the result is the residual as an unsigned [w]-bit value. *)
Definition map_to_pos_inv (w u : Z) : Z :=
  if Z.even u then u / 2 else 2 ^ w - (u + 1) / 2.

(** The step table of the multi escape mechanism, as section 4.4 gives it:
    row [j] holds the values up to [4 ^ (j + 1) - 1], the sixteenth row
    everything above.  [table_offset d] is the first row that holds [d]. *)
Definition multi_escape_rows : list Z :=
  [0x3; 0xF; 0x3F; 0xFF; 0x3FF; 0xFFF; 0x3FFF; 0xFFFF; 0x3FFFF; 0xFFFFF;
   0x3FFFFF; 0xFFFFFF; 0x3FFFFFF; 0xFFFFFFF; 0x3FFFFFFF].

Fixpoint first_row (rows : list Z) (d : Z) (j : Z) : Z :=
  match rows with
  | [] => j
  | t :: rows' => if d <=? t then j else first_row rows' d (j + 1)
  end.

Definition table_offset (d : Z) : Z := first_row multi_escape_rows d 0.

(** What the difference pre-processor is to leave in a buffer [xs] of
    [w]-bit values rounded by [k] bits: the rounded head, and for every
    later element the wrapped difference of its rounded value and the
    rounded value before it. *)
Definition residuals (w k : Z) (xs : list Z) : list Z :=
  imap (fun i x =>
          match i with
          | O => Z.shiftr x k
          | S j => (Z.shiftr x k - Z.shiftr (xs !!! j) k) mod 2 ^ w
          end) xs.

(** The buffer after the body [ws[i] = f(ws[i])] ran for [n] indices from
    [i] on, and after [ws[i] = g(ws[i], ws[i-1])] ran from [i] down to 1. *)
Fixpoint map_range (f : Z -> Z) (n i : nat) (ws : list Z) : list Z :=
  match n with
  | O => ws
  | S n' => map_range f n' (S i) (alter f i ws)
  end.

Fixpoint diff_down (g : Z -> Z -> Z) (i : nat) (ws : list Z) : list Z :=
  match i with
  | O => ws
  | S j => diff_down g j (<[S j := g (ws !!! S j) (ws !!! j)]> ws)
  end.

(** [m] neither reads nor writes the buffer at [p]: its outcome is the same
    whatever that buffer holds, and the buffer is as before afterwards. *)
Definition frames {A} (p : nat) (m : M A) : Prop :=
  (forall h b, m (<[p := b]> h)
               = (fun '(r, h') => (r, <[p := b]> h')) <$> m h) /\
  (forall h r h', m h = Some (r, h') -> h' !! p = h !! p).

(** The 32-bit model modes, the 16-bit model modes and the S_FX model
    modes. *)
Definition model_32_mode (m : cmp_mode) : bool :=
  match m with
  | MODE_MODEL_ZERO_32 | MODE_MODEL_MULTI_32
  | MODE_MODEL_ZERO_F_FX | MODE_MODEL_MULTI_F_FX => true
  | _ => false
  end.

Definition model_16_mode (m : cmp_mode) : bool :=
  match m with
  | MODE_MODEL_ZERO | MODE_MODEL_MULTI => true
  | _ => false
  end.

Definition model_S_FX_mode (m : cmp_mode) : bool :=
  match m with
  | MODE_MODEL_ZERO_S_FX | MODE_MODEL_MULTI_S_FX => true
  | _ => false
  end.

(** Residual and updated model of one sample in a model mode, as section
    4.2 words them: the rounded datum minus the rounded model, and
    [cal_up_model] of the datum rounded back, the model and the weight. *)
Definition model_residual_32 (round d m : Z) : Z :=
  sub32 (round_fwd d round) (round_fwd m round).

Definition model_residual_16 (round d m : Z) : Z :=
  u16 (u16 (round_fwd d round) - u16 (round_fwd m round)).

Definition model_residual_S_FX (round : Z) (d m : S_FX.t) : S_FX.t :=
  sub_S_FX (round_S_FX d round) (round_S_FX m round).

Section Updated_model.

Context `{cmp_support}.

Definition updated_model_32 (round model_value d m : Z) : Z :=
  u32 (cal_up_model (round_inv (round_fwd d round) round) m model_value).

Definition updated_model_16 (round model_value d m : Z) : Z :=
  u16 (cal_up_model (round_inv (u16 (round_fwd d round)) round) m
                    model_value).

Definition updated_model_S_FX (round model_value : Z) (d m : S_FX.t)
  : S_FX.t :=
  cal_up_model_S_FX (de_round_S_FX (round_S_FX d round) round) m
                    model_value.

End Updated_model.

(** ** A sample platform *)

(** Modelled from the spec: one choice of what cmp_support.h leaves to the
    implementation, for running the model on concrete inputs; the general
    properties hold for every choice.  The Golomb parameter fits in 16 bits
    (section 3), the largest spill keeps the longest codeword within 32 bits
    (section 4.4), the updated model is the blend of model and datum with
    weight [model_value] out of [MAX_MODEL_VALUE] (section 4.2), taken field
    by field on a structure.  The numbering of the modes and of the error
    bits and the sample sizes are arbitrary; the layout [memcpy] produces
    is not modelled, and the sample platform leaves the output words as
    they are. *)
Definition sample_mode_value (m : cmp_mode) : Z :=
  match m with
  | MODE_RAW => 0 | MODE_MODEL_ZERO => 1 | MODE_DIFF_ZERO => 2
  | MODE_MODEL_MULTI => 3 | MODE_DIFF_MULTI => 4
  | MODE_RAW_S_FX => 100
  | MODE_MODEL_ZERO_S_FX => 101 | MODE_DIFF_ZERO_S_FX => 102
  | MODE_MODEL_MULTI_S_FX => 103 | MODE_DIFF_MULTI_S_FX => 104
  | MODE_MODEL_ZERO_S_FX_EFX => 110 | MODE_DIFF_ZERO_S_FX_EFX => 111
  | MODE_MODEL_MULTI_S_FX_EFX => 112 | MODE_DIFF_MULTI_S_FX_EFX => 113
  | MODE_MODEL_ZERO_S_FX_NCOB => 120 | MODE_DIFF_ZERO_S_FX_NCOB => 121
  | MODE_MODEL_MULTI_S_FX_NCOB => 122 | MODE_DIFF_MULTI_S_FX_NCOB => 123
  | MODE_MODEL_ZERO_S_FX_EFX_NCOB_ECOB => 130
  | MODE_DIFF_ZERO_S_FX_EFX_NCOB_ECOB => 131
  | MODE_MODEL_MULTI_S_FX_EFX_NCOB_ECOB => 132
  | MODE_DIFF_MULTI_S_FX_EFX_NCOB_ECOB => 133
  | MODE_MODEL_ZERO_32 => 200 | MODE_DIFF_ZERO_32 => 201
  | MODE_MODEL_MULTI_32 => 202 | MODE_DIFF_MULTI_32 => 203
  | MODE_MODEL_ZERO_F_FX => 140 | MODE_DIFF_ZERO_F_FX => 141
  | MODE_MODEL_MULTI_F_FX => 142 | MODE_DIFF_MULTI_F_FX => 143
  | MODE_UNKNOWN v => v
  end.

Definition sample_size_of_a_sample (m : cmp_mode) : Z :=
  match m with
  | MODE_RAW | MODE_MODEL_ZERO | MODE_DIFF_ZERO
  | MODE_MODEL_MULTI | MODE_DIFF_MULTI => 2
  | MODE_RAW_S_FX | MODE_MODEL_ZERO_S_FX | MODE_DIFF_ZERO_S_FX
  | MODE_MODEL_MULTI_S_FX | MODE_DIFF_MULTI_S_FX => 5
  | MODE_MODEL_ZERO_S_FX_EFX | MODE_DIFF_ZERO_S_FX_EFX
  | MODE_MODEL_MULTI_S_FX_EFX | MODE_DIFF_MULTI_S_FX_EFX => 9
  | MODE_MODEL_ZERO_S_FX_NCOB | MODE_DIFF_ZERO_S_FX_NCOB
  | MODE_MODEL_MULTI_S_FX_NCOB | MODE_DIFF_MULTI_S_FX_NCOB => 13
  | MODE_MODEL_ZERO_S_FX_EFX_NCOB_ECOB | MODE_DIFF_ZERO_S_FX_EFX_NCOB_ECOB
  | MODE_MODEL_MULTI_S_FX_EFX_NCOB_ECOB
  | MODE_DIFF_MULTI_S_FX_EFX_NCOB_ECOB => 25
  | MODE_MODEL_ZERO_32 | MODE_DIFF_ZERO_32
  | MODE_MODEL_MULTI_32 | MODE_DIFF_MULTI_32
  | MODE_MODEL_ZERO_F_FX | MODE_DIFF_ZERO_F_FX
  | MODE_MODEL_MULTI_F_FX | MODE_DIFF_MULTI_F_FX => 4
  | MODE_UNKNOWN _ => 0
  end.

Definition sample_cal_up_model (data model model_value : Z) : Z :=
  (model_value * model + (MAX_MODEL_VALUE - model_value) * data)
  / MAX_MODEL_VALUE.

Definition sample_support : cmp_support := {|
  MAX_ICU_GOLOMB_PAR := 65535;
  MIN_ICU_SPILL := 2;
  get_max_spill := fun golomb_par _ =>
    if golomb_par =? 0 then 0
    else (32 - 1 - ilog_2 golomb_par) * golomb_par
         + (2 ^ (ilog_2 golomb_par + 1) - golomb_par) - 15 - 1;
  GOLOMB_PAR_EXPOSURE_FLAGS := 1;
  CMP_MODE_ERR_BIT := 0;
  MODEL_VALUE_ERR_BIT := 1;
  CMP_PAR_ERR_BIT := 2;
  SMALL_BUFFER_ERR_BIT := 5;
  cmp_mode_value := sample_mode_value;
  size_of_a_sample := sample_size_of_a_sample;
  cal_up_model := sample_cal_up_model;
  cal_up_model_S_FX := fun d m w =>
    S_FX.mk (u8 (sample_cal_up_model (S_FX.EXPOSURE_FLAGS d)
                                     (S_FX.EXPOSURE_FLAGS m) w))
            (u32 (sample_cal_up_model (S_FX.FX d) (S_FX.FX m) w));
  memcpy_words := fun dst _ _ => dst
|}.

(** ** The number of errors the validator counts *)

Section Error_count.

Context `{cmp_support}.

(** [cfg_invalid] at the end of [icu_cmp_cfg_valid], check by check. *)
Definition buffer_errors (cfg : cmp_cfg) : Z :=
  let mode := cmp_mode_of cfg in
  Z.b2z (is_null (input_buf cfg))
  + Z.b2z (is_null (icu_output_buf cfg))
  + Z.b2z ((buffer_length cfg =? 0) && negb (samples cfg =? 0))
  + Z.b2z (ptr_eqb (icu_output_buf cfg) (input_buf cfg))
  + (if model_mode_is_used mode then
       Z.b2z (is_null (model_buf cfg))
       + Z.b2z (ptr_eqb (model_buf cfg) (input_buf cfg))
       + Z.b2z (ptr_eqb (model_buf cfg) (icu_output_buf cfg))
       + Z.b2z (ptr_eqb (icu_new_model_buf cfg) (input_buf cfg))
       + Z.b2z (ptr_eqb (icu_new_model_buf cfg) (icu_output_buf cfg))
     else 0)
  + (if raw_mode_is_used mode then
       Z.b2z (samples cfg >? buffer_length cfg)
     else 0)
  + Z.b2z (negb (diff_mode_is_used mode || model_mode_is_used mode
                 || raw_mode_is_used mode)).

Definition parameter_errors (cfg : cmp_cfg) : Z :=
  let mode := cmp_mode_of cfg in
  (if model_mode_is_used mode then
     Z.b2z (model_value cfg >? MAX_MODEL_VALUE)
   else 0)
  + Z.b2z ((golomb_par cfg <? MIN_ICU_GOLOMB_PAR)
           || (golomb_par cfg >? MAX_ICU_GOLOMB_PAR))
  + Z.b2z (spill cfg <? MIN_ICU_SPILL)
  + Z.b2z (spill cfg >? get_max_spill (golomb_par cfg) mode)
  + Z.b2z (round cfg >? MAX_ICU_ROUND).

Definition cfg_invalid_count (cfg : cmp_cfg) : Z :=
  if raw_mode_is_used (cmp_mode_of cfg) then buffer_errors cfg
  else buffer_errors cfg + parameter_errors cfg.

End Error_count.

(** The loop body shared by the model pre-processors, over buffers whose
    cells are made by [mk] and read by [ld]: the datum becomes [F d m] and
    the updated model [G d m]. *)
Definition model_body {V : Type} (mk : V -> cell) (ld : ptr -> nat -> M V)
    (F G : V -> V -> V) (pd pm pu : nat) (i : nat) : M unit :=
  let* d := ld (Some pd) i in
  let* m := ld (Some pm) i in
  run store_cell (Some pd) i (mk (F d m)) in
  let* m' := ld (Some pm) i in
  store_cell (Some pu) i (mk (G d m')).

(** Bit [j] of the bitstream held in the 32-bit words [ws]; the stream
    starts at the most significant bit of the first word. *)
Definition stream_bit (ws : list Z) (j : Z) : bool :=
  Z.testbit (default 0 (ws !! Z.to_nat (j / 32))) (31 - j mod 32).

(** Every word holds a 32-bit value. *)
Definition words32 (ws : list Z) : Prop :=
  Forall (fun w => 0 <= w < 2 ^ 32) ws.

(** The model modes of the three larger sample structures: the validator
    and the encoder know them, [pre_process] has no case for them. *)
Definition model_mode_without_pre_process (m : cmp_mode) : bool :=
  match m with
  | MODE_MODEL_ZERO_S_FX_EFX | MODE_MODEL_MULTI_S_FX_EFX
  | MODE_MODEL_ZERO_S_FX_NCOB | MODE_MODEL_MULTI_S_FX_NCOB
  | MODE_MODEL_ZERO_S_FX_EFX_NCOB_ECOB
  | MODE_MODEL_MULTI_S_FX_EFX_NCOB_ECOB => true
  | _ => false
  end.

(** Bit [j] of a sequence of codewords, each a pair of its length and its
    value, laid out one after the other with the most significant bit
    first; [None] behind the last codeword. *)
Fixpoint emitted_bit (cws : list (Z * Z)) (j : Z) : option bool :=
  match cws with
  | [] => None
  | (len, cw) :: rest =>
      if j <? len then Some (Z.testbit cw (len - 1 - j))
      else emitted_bit rest (j - len)
  end.

Definition total_length (cws : list (Z * Z)) : Z :=
  foldr (fun c n => fst c + n) 0 cws.

(** A value that [encode_value] gives a normal codeword: below the spill
    threshold and, with the zero escape mechanism, not zero. *)
Definition is_normal_value (cfg : cmp_cfg) (v : Z) : Prop :=
  v < spill cfg /\
  (zero_escape_mech_is_used (cmp_mode_of cfg) = true -> v <> 0).

(** The stream [ws'] is the stream [ws] with the codewords [cws] laid out
    one after the other from bit [c] on; every other bit is as in [ws]. *)
Definition holds_codewords (ws : list Z) (c : Z) (cws : list (Z * Z))
    (ws' : list Z) : Prop :=
  length ws' = length ws /\
  forall j, 0 <= j < 32 * Z.of_nat (length ws) ->
    stream_bit ws' j
    = if j <? c then stream_bit ws j
      else match emitted_bit cws (j - c) with
           | Some b => b
           | None => stream_bit ws j
           end.

(** The four ways out of [put_n_bits32], in the order of its tests. *)
Inductive put_branch :=
| Small_buffer
| No_bits
| Too_many_bits
| Write_bits.

Definition put_n_bits32_branch (bitOffset nBits dest_len : Z) : put_branch :=
  if add32 bitOffset nBits >? mul32 (mul32 (add32 dest_len 1 / 2) 2) 16 then
    Small_buffer
  else if nBits =? 0 then No_bits
  else if nBits >? 32 then Too_many_bits
  else Write_bits.

(** What [encode_value] is to put into the bitstream for [v], with the
    encoder function [e] and the logarithm [L] of the encoder state: one
    codeword for a normal value; for an outlier the codeword of the escape
    symbol and the unencoded data behind it, as [encode_outlier_multi] and
    [encode_outlier_zero] compute them, and nothing in a mode without an
    escape mechanism, where [encode_outlier] gives up. *)
Definition emission (cfg : cmp_cfg) (e : encoder_ptr) (L bit_len v : Z)
  : list (Z * Z) :=
  let codeword s := call_encoder e s (golomb_par cfg) L in
  if (spill cfg <=? v)
     || (zero_escape_mech_is_used (cmp_mode_of cfg) && (v =? 0))
  then
    if multi_escape_mech_is_used (cmp_mode_of cfg) then
      let d := sub32 v (spill cfg) in
      let offset := cal_multi_offset d in
      [codeword (add32 (spill cfg) offset); ((offset + 1) * 2, d)]
    else if zero_escape_mech_is_used (cmp_mode_of cfg) then
      [codeword 0; (bit_len, v)]
    else []
  else [codeword v].

(** A value [encode_value] can encode in the mode of [cfg]: an outlier
    needs one of the two escape mechanisms. *)
Definition has_escape (cfg : cmp_cfg) (v : Z) : Prop :=
  spill cfg <= v \/
  (zero_escape_mech_is_used (cmp_mode_of cfg) = true /\ v = 0) ->
  multi_escape_mech_is_used (cmp_mode_of cfg) = true \/
  zero_escape_mech_is_used (cmp_mode_of cfg) = true.

(** Codewords of 1 to 32 bits, the lengths [put_n_bits32] writes. *)
Definition writable (cws : list (Z * Z)) : Prop :=
  Forall (fun c => 1 <= fst c <= 32) cws.

Section Sample_codewords.

Context `{cmp_support}.

Variables (cfg : cmp_cfg) (e : encoder_ptr).

(** The codewords of one sample of each structure, field by field.  Only
    [encode_S_FX] takes the exposure flags apart: they get a normal
    codeword under [GOLOMB_PAR_EXPOSURE_FLAGS], and [FX] is encoded with
    the logarithm of the configured parameter set anew. *)
Definition codewords_S_FX (s : S_FX.t) : list (Z * Z) :=
  [call_encoder e (S_FX.EXPOSURE_FLAGS s) GOLOMB_PAR_EXPOSURE_FLAGS
                (ilog_2 GOLOMB_PAR_EXPOSURE_FLAGS)]
  ++ emission cfg e (ilog_2 (golomb_par cfg)) 32 (S_FX.FX s).




End Sample_codewords.

(** * Properties *)

Ltac zlia := Z.to_euclidean_division_equations; lia.

(** ** The mapping is a bijection *)

Lemma even_true_mod (u : Z) : Z.even u = true -> u mod 2 = 0.
Proof.
  intros E. apply Z.even_spec in E. destruct E as [k ->].
  rewrite Z.mul_comm. apply Z.mod_mul. lia.
Qed.

Lemma even_false_mod (u : Z) : Z.even u = false -> u mod 2 = 1.
Proof.
  intros E. rewrite <- Z.negb_odd in E. apply negb_false_iff in E.
  apply Z.odd_spec in E. destruct E as [k ->].
  rewrite Z.add_comm, Z.mul_comm, Z.mod_add by lia. reflexivity.
Qed.

(** The fold at a width [w] with [2 ^ w = 2 * N]: non-negative residuals go
    to the even codes, negative ones to the odd codes. *)
Lemma map_to_pos_bijective_at (N x : Z) (f : Z -> Z) (w : Z) :
  2 ^ w = 2 * N -> 0 < N ->
  (forall s, f s = if s <? 0 then ((- s) * 2 - 1) mod 2 ^ w
                   else (s * 2) mod 2 ^ w) ->
  0 <= x < 2 ^ w ->
  let u := f (to_signed w x) in
  0 <= u < 2 ^ w /\ map_to_pos_inv w u = x /\
  0 <= map_to_pos_inv w x < 2 ^ w /\
  f (to_signed w (map_to_pos_inv w x)) = x.
Proof.
  intros HN HN0 Hf Hx.
  assert (Hh : 2 ^ (w - 1) = N).
  { assert (0 < w).
    { destruct (Z_lt_le_dec 0 w) as [|Hle]; [done|].
      destruct (Z.eq_dec w 0) as [->|]; [rewrite Z.pow_0_r in HN; lia|].
      rewrite Z.pow_neg_r in HN by lia. lia. }
    replace w with (Z.succ (w - 1)) in HN by lia.
    rewrite Z.pow_succ_r in HN by lia. lia. }
  cbv zeta. unfold to_signed, map_to_pos_inv. rewrite !Hf, Hh, HN.
  repeat split.
  - destruct (x <? N) eqn:E; destruct (_ <? 0) eqn:E2;
      apply Z.mod_pos_bound; lia.
  - destruct (x <? N) eqn:E; destruct (_ <? 0) eqn:E2;
      apply Z.mod_pos_bound; lia.
  - destruct (x <? N) eqn:E.
    + apply Z.ltb_lt in E. destruct (x <? 0) eqn:E2; [lia|].
      rewrite Z.mod_small by lia.
      rewrite Z.mul_comm, Z.even_mul. simpl.
      rewrite Z.mul_comm, Z.div_mul; lia.
    + apply Z.ltb_ge in E. destruct (x - 2 * N <? 0) eqn:E2; [|lia].
      rewrite Z.mod_small by lia.
      replace (- (x - 2 * N) * 2 - 1) with (1 + 2 * (2 * N - x - 1)) by lia.
      rewrite Z.even_add_mul_2. simpl.
      replace (1 + 2 * (2 * N - x - 1) + 1) with ((2 * N - x) * 2) by lia.
      rewrite Z.div_mul; lia.
  - destruct (Z.even x) eqn:E.
    + apply even_true_mod in E. zlia.
    + apply even_false_mod in E. zlia.
  - destruct (Z.even x) eqn:E.
    + apply even_true_mod in E. zlia.
    + apply even_false_mod in E. zlia.
  - destruct (Z.even x) eqn:E.
    + apply even_true_mod in E.
      assert ((x / 2 <? N) = true) as -> by (apply Z.ltb_lt; zlia).
      assert ((x / 2 <? 0) = false) as -> by (apply Z.ltb_ge; zlia).
      rewrite Z.mod_small by zlia. zlia.
    + apply even_false_mod in E.
      assert ((2 * N - (x + 1) / 2 <? N) = false) as ->
        by (apply Z.ltb_ge; zlia).
      assert ((2 * N - (x + 1) / 2 - 2 * N <? 0) = true) as ->
        by (apply Z.ltb_lt; zlia).
      rewrite Z.mod_small by zlia. zlia.
Qed.

(** C7: for the field widths 8, 16 and 32 the sign-to-unsigned mapping, taken
    on the unsigned [w]-bit values the buffers hold, stays in the [w]-bit
    range and has [map_to_pos_inv] as a two-sided inverse, so it is a
    bijection of that range. *)
Theorem map_to_pos_bijection (w x : Z) :
  w = 8 \/ w = 16 \/ w = 32 ->
  0 <= x < 2 ^ w ->
  let u := map_to_pos_alg w (to_signed w x) in
  0 <= u < 2 ^ w /\ map_to_pos_inv w u = x /\
  0 <= map_to_pos_inv w x < 2 ^ w /\
  map_to_pos_alg w (to_signed w (map_to_pos_inv w x)) = x.
Proof.
  intros Hw Hx.
  destruct Hw as [-> | [-> | ->]].
  - apply (map_to_pos_bijective_at 128 x (map_to_pos_alg 8) 8); done.
  - apply (map_to_pos_bijective_at 32768 x (map_to_pos_alg 16) 16); done.
  - apply (map_to_pos_bijective_at 2147483648 x (map_to_pos_alg 32) 32);
      done.
Qed.

Lemma map_to_pos_bijection_witness :
  (16 = 8 \/ 16 = 16 \/ 16 = 32) /\ 0 <= 65533 < 2 ^ 16 /\
  map_to_pos_inv 16 (map_to_pos_alg 16 (to_signed 16 65533)) = 65533.
Proof.
  assert (Hw : 16 = 8 \/ 16 = 16 \/ 16 = 32) by (right; left; reflexivity).
  assert (Hx : 0 <= 65533 < 2 ^ 16) by lia.
  split; [exact Hw | split; [exact Hx |]].
  exact (proj1 (proj2 (map_to_pos_bijection 16 65533 Hw Hx))).
Defined.

(** ** Reasoning about store computations *)

Lemma bind_Some {A B} (m : M A) (k : A -> M B) (h : store) (r : B * store) :
  bind m k h = Some r <->
  exists a h', m h = Some (a, h') /\ k a h' = Some r.
Proof.
  unfold bind. split.
  - destruct (m h) as [[a h'] |] eqn:E; [eauto | discriminate].
  - intros (a & h' & -> & Hk). exact Hk.
Qed.

Lemma bind_eq {A B} (m : M A) (k : A -> M B) (h h' : store) (a : A) :
  m h = Some (a, h') -> bind m k h = k a h'.
Proof. intros E. unfold bind. rewrite E. reflexivity. Qed.

Lemma bind_ret_l {A B} (a : A) (k : A -> M B) (h : store) :
  bind (ret a) k h = k a h.
Proof. reflexivity. Qed.

(** Inversion of a successful run, one [bind] at a time. *)
Ltac inv_bind H :=
  let a := fresh "a" in
  let h := fresh "h" in
  let H1 := fresh "Hrun" in
  apply bind_Some in H; destruct H as (a & h & H1 & H).

Lemma load_Some (a : nat) (i : nat) (h : store) (b : list cell) (c : cell) :
  h !! a = Some b -> b !! i = Some c -> load (Some a) i h = Some (c, h).
Proof. intros Hb Hc. unfold load. rewrite Hb, Hc. reflexivity. Qed.

Lemma store_cell_Some (a : nat) (i : nat) (h : store) (b : list cell)
    (c d : cell) :
  h !! a = Some b -> b !! i = Some c -> same_shape c d = true ->
  store_cell (Some a) i d h = Some (tt, <[a := <[i := d]> b]> h).
Proof.
  intros Hb Hc Hs. unfold store_cell.
  rewrite (bind_eq _ _ _ _ _ (load_Some a i h b c Hb Hc)), Hs.
  unfold poke. rewrite Hb.
  rewrite bool_decide_eq_true_2; [reflexivity |].
  apply lookup_lt_Some in Hc. exact Hc.
Qed.

(** A buffer of 32-bit words and one of 16-bit values. *)
Lemma lookup_U32 (ws : list Z) (i : nat) (w : Z) :
  ws !! i = Some w -> (U32 <$> ws) !! i = Some (U32 w).
Proof. intros Hw. rewrite list_lookup_fmap, Hw. reflexivity. Qed.

Lemma lookup_U16 (ws : list Z) (i : nat) (w : Z) :
  ws !! i = Some w -> (U16 <$> ws) !! i = Some (U16 w).
Proof. intros Hw. rewrite list_lookup_fmap, Hw. reflexivity. Qed.

Lemma load_u32_Some (a i : nat) (h : store) (ws : list Z) (w : Z) :
  h !! a = Some (U32 <$> ws) -> ws !! i = Some w ->
  load_u32 (Some a) i h = Some (w, h).
Proof.
  intros Hb Hw. unfold load_u32.
  rewrite (bind_eq _ _ _ _ _ (load_Some a i h _ _ Hb (lookup_U32 _ _ _ Hw))).
  reflexivity.
Qed.

Lemma load_u16_Some (a i : nat) (h : store) (ws : list Z) (w : Z) :
  h !! a = Some (U16 <$> ws) -> ws !! i = Some w ->
  load_u16 (Some a) i h = Some (w, h).
Proof.
  intros Hb Hw. unfold load_u16.
  rewrite (bind_eq _ _ _ _ _ (load_Some a i h _ _ Hb (lookup_U16 _ _ _ Hw))).
  reflexivity.
Qed.

Lemma store_u32_Some (a i : nat) (h : store) (ws : list Z) (v : Z) :
  h !! a = Some (U32 <$> ws) -> (i < length ws)%nat ->
  store_cell (Some a) i (U32 v) h
  = Some (tt, <[a := U32 <$> <[i := v]> ws]> h).
Proof.
  intros Hb Hi.
  destruct (lookup_lt_is_Some_2 ws i Hi) as [w Hw].
  rewrite (store_cell_Some a i h _ (U32 w) (U32 v) Hb
             (lookup_U32 _ _ _ Hw) eq_refl).
  rewrite list_fmap_insert. reflexivity.
Qed.

Lemma store_u16_Some (a i : nat) (h : store) (ws : list Z) (v : Z) :
  h !! a = Some (U16 <$> ws) -> (i < length ws)%nat ->
  store_cell (Some a) i (U16 v) h
  = Some (tt, <[a := U16 <$> <[i := v]> ws]> h).
Proof.
  intros Hb Hi.
  destruct (lookup_lt_is_Some_2 ws i Hi) as [w Hw].
  rewrite (store_cell_Some a i h _ (U16 w) (U16 v) Hb
             (lookup_U16 _ _ _ Hw) eq_refl).
  rewrite list_fmap_insert. reflexivity.
Qed.

(** The buffer at [a] after an update of the store at [a]. *)
Lemma lookup_store_eq (h : store) (a : nat) (b b' : list cell) :
  h !! a = Some b -> <[a := b']> h !! a = Some b'.
Proof.
  intros Hb. apply list_lookup_insert_eq. apply lookup_lt_Some in Hb. exact Hb.
Qed.

Lemma insert_store_twice (h : store) (a : nat) (b b' : list cell) :
  <[a := b']> (<[a := b]> h) = <[a := b']> h.
Proof. apply list_insert_insert_eq. Qed.

Lemma insert_alter_eq {V} (f : V -> V) (ws : list V) (i : nat) (w : V) :
  ws !! i = Some w -> <[i := f w]> ws = alter f i ws.
Proof.
  intros Hw. apply list_eq. intros j. rewrite list_lookup_alter.
  assert (Hi : (i < length ws)%nat) by (eapply lookup_lt_Some; exact Hw).
  destruct (decide (i = j)) as [<- |].
  - rewrite list_lookup_insert_eq by exact Hi. rewrite Hw. reflexivity.
  - rewrite list_lookup_insert_ne by done. reflexivity.
Qed.

Lemma is_null_Some (a : nat) : is_null (Some a) = false.
Proof. unfold is_null. apply bool_decide_eq_false_2. discriminate. Qed.

Lemma is_null_None : is_null None = true.
Proof. reflexivity. Qed.

(** ** 32-bit arithmetic *)

Lemma u32_small (x : Z) : 0 <= x < 2 ^ 32 -> u32 x = x.
Proof. intros Hx. unfold u32, wrap. apply Z.mod_small. exact Hx. Qed.

Lemma u32_range (x : Z) : 0 <= u32 x < 2 ^ 32.
Proof. unfold u32, wrap. apply Z.mod_pos_bound. lia. Qed.

Lemma add32_small (a b : Z) : 0 <= a + b < 2 ^ 32 -> add32 a b = a + b.
Proof. apply u32_small. Qed.

Lemma sub32_small (a b : Z) : 0 <= a - b < 2 ^ 32 -> sub32 a b = a - b.
Proof. apply u32_small. Qed.

Lemma mul32_small (a b : Z) : 0 <= a * b < 2 ^ 32 -> mul32 a b = a * b.
Proof. apply u32_small. Qed.

Lemma shl32_small (x n : Z) :
  0 <= n -> 0 <= x * 2 ^ n < 2 ^ 32 -> shl32 x n = x * 2 ^ n.
Proof.
  intros Hn Hx. unfold shl32. rewrite Z.shiftl_mul_pow2 by lia.
  apply u32_small. exact Hx.
Qed.

(** ** The multi-escape offset *)

Lemma cal_multi_offset_range (d : Z) : 0 <= cal_multi_offset d <= 15.
Proof.
  unfold cal_multi_offset.
  repeat (match goal with
          | |- context [if ?b then _ else _] => destruct b
          end); lia.
Qed.

(** ** The Golomb codeword *)

Lemma not_pow2_log2 (m : Z) :
  1 <= m < 2 ^ 32 -> is_a_pow_of_2 m = false ->
  1 <= Z.log2 m <= 31 /\ 2 ^ Z.log2 m < m < 2 ^ (Z.log2 m + 1).
Proof.
  intros Hm Hp.
  pose proof (Z.log2_spec m ltac:(lia)) as Hs.
  pose proof (Z.log2_nonneg m) as Hk.
  unfold is_a_pow_of_2 in Hp.
  assert (Hne : 2 ^ Z.log2 m <> m).
  { intros He. apply Z.eqb_eq in He. rewrite He in Hp.
    assert ((0 <? m) = true) as Hpos by (apply Z.ltb_lt; lia).
    rewrite Hpos in Hp. discriminate. }
  assert (Hk31 : Z.log2 m < 32).
  { apply Z.log2_lt_pow2; lia. }
  replace (Z.succ (Z.log2 m)) with (Z.log2 m + 1) in Hs by lia.
  assert (Hk1 : Z.log2 m <> 0).
  { intros He. rewrite He in *. simpl in *. lia. }
  repeat split; lia.
Qed.

(** C5, as the code has it: for a Golomb parameter [m] below [2 ^ 31] that
    is not a power of two (so that [log2_m <= 30] and the shift by
    [log2_m + 1] is one C defines) [select_encoder] chooses
    [Golomb_encoder], whose cutoff is
    [c = 2 ^ (log2_m + 1) - m] with [log2_m] the integer logarithm of [m]
    (so [0 < c < m]).  A value below the cutoff is its own codeword of
    [log2_m + 1] bits; any other value [u] lies in group
    [g = (u - c) / m], its codeword has [g + log2_m + 2] bits and, when
    these are at most 32, consists of [g] one bits followed by
    [c * 2 + (u - c) - g * m] in [log2_m + 2] bits. *)
Theorem Golomb_encoder_codeword (m u : Z) :
  1 <= m < 2 ^ 31 -> is_a_pow_of_2 m = false -> 0 <= u < 2 ^ 32 ->
  let log2_m := ilog_2 m in
  let c := 2 ^ (log2_m + 1) - m in
  let g := (u - c) / m in
  select_encoder m = Some Golomb_ptr /\
  1 <= log2_m <= 30 /\
  0 < c < m /\
  (u < c -> Golomb_encoder u m log2_m = (log2_m + 1, u)) /\
  (c <= u ->
   fst (Golomb_encoder u m log2_m) = g + log2_m + 2 /\
   (g + log2_m + 2 <= 32 ->
    0 <= c * 2 + (u - c) - g * m < 2 ^ (log2_m + 2) /\
    snd (Golomb_encoder u m log2_m) =
      (2 ^ g - 1) * 2 ^ (log2_m + 2) + (c * 2 + (u - c) - g * m))).
Proof.
  intros Hm31 Hp Hu. unfold ilog_2. cbv zeta.
  assert (Hm : 1 <= m < 2 ^ 32) by lia.
  destruct (not_pow2_log2 m Hm Hp) as [Hk [Hlo Hhi]].
  assert (Hk30 : Z.log2 m < 31) by (apply Z.log2_lt_pow2; lia).
  set (k := Z.log2 m) in *.
  assert (Hpow : 2 ^ (k + 1) = 2 * 2 ^ k).
  { rewrite Z.pow_add_r by lia. lia. }
  assert (Hpow2 : 2 ^ (k + 2) = 4 * 2 ^ k).
  { rewrite Z.pow_add_r by lia. lia. }
  assert (Hk32 : 2 ^ k < 2 ^ 32).
  { apply Z.pow_lt_mono_r; lia. }
  assert (Hlen0 : add32 k 1 = k + 1) by (apply add32_small; lia).
  assert (Hcut : sub32 (shl32 1 (add32 k 1)) m = 2 ^ (k + 1) - m).
  { rewrite Hlen0. unfold sub32, shl32, u32, wrap.
    rewrite Z.shiftl_1_l, Zminus_mod_idemp_l.
    apply Z.mod_small. lia. }
  split.
  { unfold select_encoder. rewrite Hp.
    destruct (m =? 0) eqn:E; [apply Z.eqb_eq in E; lia | reflexivity]. }
  split; [lia |].
  split; [lia |].
  unfold Golomb_encoder. rewrite Hcut, Hlen0.
  destruct (2 ^ (k + 1) - m =? 0) eqn:Ec; [apply Z.eqb_eq in Ec; lia |].
  split.
  { intros Hlt. apply Z.ltb_lt in Hlt. rewrite Hlt. reflexivity. }
  intros Hge. apply Z.ltb_ge in Hge as Hge'. rewrite Hge'.
  set (c := 2 ^ (k + 1) - m) in *.
  assert (Hsub : sub32 u c = u - c) by (apply sub32_small; lia).
  rewrite Hsub.
  set (g := (u - c) / m).
  assert (Hdm : u - c = m * g + (u - c) mod m) by (apply Z.div_mod; lia).
  pose proof (Z.mod_pos_bound (u - c) m ltac:(lia)) as Hrem.
  assert (Hg0 : 0 <= g) by (apply Z.div_pos; lia).
  assert (Hg : 3 * g < 2 ^ 32) by nia.
  cbn [fst snd]. split.
  { rewrite (add32_small (k + 1) g) by lia. rewrite add32_small by lia. lia. }
  intros Hlen.
  assert (Hgp : 2 ^ g * 2 ^ (k + 2) <= 2 ^ 32).
  { rewrite <- Z.pow_add_r by lia. apply Z.pow_le_mono_r; lia. }
  assert (Hg1 : 0 < 2 ^ g) by (apply Z.pow_pos_nonneg; lia).
  assert (Hp1 : 2 <= 2 ^ k).
  { change 2 with (2 ^ 1) at 1. apply Z.pow_le_mono_r; lia. }
  rewrite Hpow2 in Hgp.
  assert (Hg8 : 2 ^ g * 8 <= 2 ^ 32) by nia.
  assert (Hrem' : (u - c) mod m = u - c - g * m) by lia.
  rewrite Hpow2.
  split; [nia |].
  rewrite (add32_small (k + 1) 1) by lia.
  replace (k + 1 + 1) with (k + 2) by lia.
  rewrite (shl32_small 1 g) by lia.
  rewrite Z.mul_1_l, (sub32_small (2 ^ g) 1) by lia.
  rewrite (shl32_small (2 ^ g - 1) (k + 2)) by (rewrite ?Hpow2; nia).
  rewrite (shl32_small c 1) by (rewrite ?Z.pow_1_r; lia).
  rewrite Z.pow_1_r, Hpow2.
  rewrite (mul32_small g m) by nia.
  rewrite (add32_small _ (c * 2)) by nia.
  unfold sub32, add32, u32, wrap.
  rewrite Zminus_mod_idemp_l.
  rewrite Z.mod_small by nia. lia.
Qed.

Lemma Golomb_encoder_codeword_witness :
  (1 <= 3 < 2 ^ 31) /\ is_a_pow_of_2 3 = false /\ (0 <= 5 < 2 ^ 32) /\
  Golomb_encoder 5 3 (ilog_2 3) = (4, 11).
Proof.
  assert (Hm : 1 <= 3 < 2 ^ 31) by lia.
  assert (Hp : is_a_pow_of_2 3 = false) by reflexivity.
  assert (Hu : 0 <= 5 < 2 ^ 32) by lia.
  destruct (Golomb_encoder_codeword 3 5 Hm Hp Hu) as (_ & _ & _ & _ & Hhi).
  repeat split; try lia; reflexivity.
Defined.

(** The claim as worded puts the cutoff at [2 ^ (ceil(log2 m) + 1) - m];
    for [m = 3] that is 5, and the value 2 would be its own two-bit
    codeword.  The encoder returns the three-bit codeword 3. *)
Lemma Golomb_cutoff_counterexample :
  ~ (forall m u : Z,
       1 <= m < 2 ^ 31 -> is_a_pow_of_2 m = false -> 0 <= u < 2 ^ 32 ->
       let c0 := 2 ^ (Z.log2_up m + 1) - m in
       let c := if c0 =? 0 then m else c0 in
       u < c -> Golomb_encoder u m (ilog_2 m) = (ilog_2 m + 1, u)).
Proof.
  intros Hclaim.
  specialize (Hclaim 3 2 ltac:(lia) eq_refl ltac:(lia)).
  cbv zeta in Hclaim. specialize (Hclaim ltac:(vm_compute; reflexivity)).
  vm_compute in Hclaim. discriminate Hclaim.
Qed.

(** ** The bit packer *)

(** The store [h] with the words [ws] in the buffer at [a]. *)
Lemma and_assign_words (a i : nat) (h : store) (ws : list Z) (m : Z) :
  (a < length h)%nat -> (i < length ws)%nat ->
  and_assign (Some a) i m (<[a := U32 <$> ws]> h)
  = Some (tt, <[a := U32 <$> alter (fun w => Z.land w m) i ws]> h).
Proof.
  intros Ha Hi. unfold and_assign.
  destruct (lookup_lt_is_Some_2 ws i Hi) as [w Hw].
  assert (Hb : <[a := U32 <$> ws]> h !! a = Some (U32 <$> ws))
    by (apply list_lookup_insert_eq; exact Ha).
  rewrite (bind_eq _ _ _ _ _ (load_u32_Some a i _ ws w Hb Hw)).
  rewrite (store_u32_Some a i _ ws _ Hb Hi), insert_store_twice.
  do 4 f_equal. exact (insert_alter_eq (fun w => Z.land w m) ws i w Hw).
Qed.

Lemma or_assign_words (a i : nat) (h : store) (ws : list Z) (v : Z) :
  (a < length h)%nat -> (i < length ws)%nat ->
  or_assign (Some a) i v (<[a := U32 <$> ws]> h)
  = Some (tt, <[a := U32 <$> alter (fun w => Z.lor w v) i ws]> h).
Proof.
  intros Ha Hi. unfold or_assign.
  destruct (lookup_lt_is_Some_2 ws i Hi) as [w Hw].
  assert (Hb : <[a := U32 <$> ws]> h !! a = Some (U32 <$> ws))
    by (apply list_lookup_insert_eq; exact Ha).
  rewrite (bind_eq _ _ _ _ _ (load_u32_Some a i _ ws w Hb Hw)).
  rewrite (store_u32_Some a i _ ws _ Hb Hi), insert_store_twice.
  do 4 f_equal. exact (insert_alter_eq (fun w => Z.lor w v) ws i w Hw).
Qed.

(** Whatever [put_n_bits32_write] writes, it returns the bit count. *)
Lemma put_n_bits32_write_ret (value bitOffset nBits : Z) (destAddr : ptr)
    (h h' : store) (r : Z) :
  put_n_bits32_write value bitOffset nBits destAddr h = Some (r, h') ->
  r = nBits.
Proof.
  unfold put_n_bits32_write. intros Hrun.
  destruct (_ <=? 32); repeat inv_bind Hrun;
    unfold ret in Hrun; congruence.
Qed.

Lemma bind_and_assign_words {B} (a i : nat) (h : store) (ws : list Z)
    (m : Z) (k : unit -> M B) :
  (a < length h)%nat -> (i < length ws)%nat ->
  bind (and_assign (Some a) i m) k (<[a := U32 <$> ws]> h)
  = k tt (<[a := U32 <$> alter (fun w => Z.land w m) i ws]> h).
Proof.
  intros Ha Hi. apply bind_eq. apply and_assign_words; assumption.
Qed.

Lemma bind_or_assign_words {B} (a i : nat) (h : store) (ws : list Z)
    (v : Z) (k : unit -> M B) :
  (a < length h)%nat -> (i < length ws)%nat ->
  bind (or_assign (Some a) i v) k (<[a := U32 <$> ws]> h)
  = k tt (<[a := U32 <$> alter (fun w => Z.lor w v) i ws]> h).
Proof.
  intros Ha Hi. apply bind_eq. apply or_assign_words; assumption.
Qed.

(** On a buffer of words that holds the bits, the write goes through. *)
Lemma put_n_bits32_write_words (value bitOffset nBits : Z) (a : nat)
    (h : store) (ws : list Z) :
  (a < length h)%nat ->
  0 <= bitOffset -> 1 <= nBits <= 32 ->
  bitOffset + nBits <= 32 * Z.of_nat (length ws) ->
  exists ws', length ws' = length ws /\
    put_n_bits32_write value bitOffset nBits (Some a)
                       (<[a := U32 <$> ws]> h)
    = Some (nBits, <[a := U32 <$> ws']> h).
Proof.
  intros Ha Hoff Hn Hfit.
  unfold put_n_bits32_write, shr32.
  change 0x1f with (Z.ones 5). rewrite Z.land_ones by lia.
  rewrite Z.shiftr_div_pow2 by lia. change (2 ^ 5) with 32.
  pose proof (Z.mod_pos_bound bitOffset 32 ltac:(lia)) as Hm.
  pose proof (Z.div_mod bitOffset 32 ltac:(lia)) as Hd.
  assert (Hq : 0 <= bitOffset / 32) by (apply Z.div_pos; lia).
  rewrite (add32_small (bitOffset mod 32) nBits) by lia.
  set (i := Z.to_nat (bitOffset / 32)).
  assert (Hi : (i < length ws)%nat) by (unfold i; lia).
  destruct (bitOffset mod 32 + nBits <=? 32) eqn:E.
  - rewrite bind_and_assign_words by assumption.
    rewrite bind_or_assign_words
      by (rewrite ?length_alter; assumption).
    eexists. split; [| reflexivity]. rewrite !length_alter. reflexivity.
  - apply Z.leb_gt in E.
    assert (Hi' : (S i < length ws)%nat) by (unfold i; lia).
    rewrite bind_and_assign_words by assumption.
    rewrite bind_or_assign_words
      by (rewrite ?length_alter; assumption).
    rewrite bind_and_assign_words
      by (rewrite ?length_alter; assumption).
    rewrite bind_or_assign_words
      by (rewrite ?length_alter; assumption).
    eexists. split; [| reflexivity]. rewrite !length_alter. reflexivity.
Qed.

Lemma put_n_bits32_write_total (value bitOffset nBits : Z) (a : nat)
    (h : store) (ws : list Z) :
  h !! a = Some (U32 <$> ws) ->
  0 <= bitOffset -> 1 <= nBits <= 32 ->
  bitOffset + nBits <= 32 * Z.of_nat (length ws) ->
  exists ws', length ws' = length ws /\
    put_n_bits32_write value bitOffset nBits (Some a) h
    = Some (nBits, <[a := U32 <$> ws']> h).
Proof.
  intros Hb Hoff Hn Hfit.
  assert (Ha : (a < length h)%nat) by (apply lookup_lt_Some in Hb; exact Hb).
  destruct (put_n_bits32_write_words value bitOffset nBits a h ws
              Ha Hoff Hn Hfit) as (ws' & Hl & Hrun).
  rewrite (list_insert_id h a _ Hb) in Hrun. eauto.
Qed.

(** C6, as the code has it: the capacity check comes first.  With the bit
    count [bitOffset + nBits] and the capacity
    [(dest_len + 1) / 2 * 2 * 16] inside the 32-bit range, [put_n_bits32]
    returns the small-buffer value [-2U] exactly when the bit count exceeds
    the capacity, and then it writes nothing; within the capacity it returns
    0 and writes nothing for a length of 0 or above 32, and it returns the
    length for a length from 1 to 32, which it does on every buffer of words
    that covers the capacity. *)
Theorem put_n_bits32_result (value bitOffset nBits : Z) (destAddr : ptr)
    (dest_len : Z) (h : store) :
  0 <= bitOffset -> 0 <= nBits -> 0 <= dest_len ->
  bitOffset + nBits < 2 ^ 32 ->
  (dest_len + 1) / 2 * 2 * 16 < 2 ^ 32 ->
  let capacity := (dest_len + 1) / 2 * 2 * 16 in
  let res := put_n_bits32 value bitOffset nBits destAddr dest_len h in
  (capacity < bitOffset + nBits -> res = Some (neg2U, h)) /\
  (bitOffset + nBits <= capacity -> nBits = 0 \/ 32 < nBits ->
   res = Some (0, h)) /\
  (bitOffset + nBits <= capacity -> 1 <= nBits <= 32 ->
   (forall r h', res = Some (r, h') -> r = nBits) /\
   (forall a ws, destAddr = Some a -> h !! a = Some (U32 <$> ws) ->
                 capacity <= 32 * Z.of_nat (length ws) ->
                 exists ws', length ws' = length ws /\
                             res = Some (nBits, <[a := U32 <$> ws']> h))) /\
  (forall r h', res = Some (r, h') ->
                (r = neg2U <-> capacity < bitOffset + nBits)).
Proof.
  intros Hoff Hn Hlen Hsum Hcap. cbv zeta.
  assert (Hq : 0 <= (dest_len + 1) / 2) by (apply Z.div_pos; lia).
  assert (Hc : mul32 (mul32 (add32 dest_len 1 / 2) 2) 16
               = (dest_len + 1) / 2 * 2 * 16).
  { assert (Hl : dest_len + 1 < 2 ^ 32) by zlia.
    rewrite (add32_small dest_len 1) by lia.
    rewrite (mul32_small _ 2) by lia.
    apply mul32_small. lia. }
  unfold put_n_bits32.
  rewrite (add32_small bitOffset nBits) by lia. rewrite Hc.
  set (capacity := (dest_len + 1) / 2 * 2 * 16) in *.
  destruct (Z.gtb_spec (bitOffset + nBits) capacity) as [E | E].
  - split; [intros _; reflexivity |].
    split; [intros Hle; lia |].
    split; [intros Hle; lia |].
    intros r h' Hr. unfold ret in Hr. inversion Hr.
    split; intros _; [exact E | reflexivity].
  - split; [intros Hgt; lia |].
    split; [| split].
    + intros _ [-> | Hbig]; [reflexivity |].
      destruct (nBits =? 0); [reflexivity |].
      destruct (Z.gtb_spec nBits 32); [reflexivity | lia].
    + intros _ Hr.
      destruct (Z.eqb_spec nBits 0); [lia |].
      destruct (Z.gtb_spec nBits 32); [lia |].
      split.
      * intros r h'. apply put_n_bits32_write_ret.
      * intros a ws -> Hb Hws.
        apply put_n_bits32_write_total; [exact Hb | lia | lia | lia].
    + intros r h' Hr. split; [| intros Hgt; lia].
      intros ->. exfalso.
      destruct (Z.eqb_spec nBits 0);
        [unfold ret in Hr; inversion Hr |].
      destruct (Z.gtb_spec nBits 32);
        [unfold ret in Hr; inversion Hr |].
      apply put_n_bits32_write_ret in Hr. unfold neg2U in Hr. lia.
Qed.

Lemma put_n_bits32_result_witness :
  0 <= 30 /\ 0 <= 3 /\ 0 <= 4 /\ 30 + 3 < 2 ^ 32 /\
  (4 + 1) / 2 * 2 * 16 < 2 ^ 32 /\
  (forall r h', put_n_bits32 5 30 3 (Some 0%nat) 4 [[U32 0; U32 0]]
                = Some (r, h') -> r = 3).
Proof.
  assert (H1 : 0 <= 30) by lia. assert (H2 : 0 <= 3) by lia.
  assert (H3 : 0 <= 4) by lia. assert (H4 : 30 + 3 < 2 ^ 32) by lia.
  assert (H5 : (4 + 1) / 2 * 2 * 16 < 2 ^ 32) by (vm_compute; reflexivity).
  do 5 (split; [assumption |]).
  destruct (put_n_bits32_result 5 30 3 (Some 0%nat) 4 [[U32 0; U32 0]]
              H1 H2 H3 H4 H5) as (_ & _ & Hok & _).
  apply Hok; [vm_compute; discriminate | lia].
Defined.

(** The claim as worded has [put_n_bits32] return 0 for every length of 0
    or above 32; with a bit offset behind the capacity the capacity check
    wins and the call returns [-2U]. *)
Lemma put_n_bits32_no_op_counterexample :
  ~ (forall (value bitOffset nBits : Z) (destAddr : ptr) (dest_len : Z)
            (h : store),
       0 <= bitOffset -> 0 <= nBits -> 0 <= dest_len ->
       bitOffset + nBits < 2 ^ 32 ->
       (dest_len + 1) / 2 * 2 * 16 < 2 ^ 32 ->
       nBits = 0 \/ 32 < nBits ->
       put_n_bits32 value bitOffset nBits destAddr dest_len h = Some (0, h)).
Proof.
  intros Hclaim.
  specialize (Hclaim 0 64 0 None 2 [] ltac:(lia) ltac:(lia) ltac:(lia)
                ltac:(lia) ltac:(vm_compute; reflexivity)
                ltac:(left; reflexivity)).
  vm_compute in Hclaim. discriminate Hclaim.
Qed.

(** ** The multi escape mechanism *)

Lemma cal_multi_offset_table (d : Z) : cal_multi_offset d = table_offset d.
Proof.
  unfold cal_multi_offset, table_offset, multi_escape_rows, first_row.
  repeat (match goal with
          | |- context [if ?b then _ else _] => destruct b
          end; try reflexivity).
Qed.

Lemma multi_escape_rows_pow4 :
  multi_escape_rows
  = (fun j => 4 ^ (Z.of_nat j + 1) - 1) <$> seq 0 15.
Proof. reflexivity. Qed.

Lemma multi_not_zero (m : cmp_mode) :
  multi_escape_mech_is_used m = true -> zero_escape_mech_is_used m = false.
Proof. destruct m; simpl; congruence. Qed.

(** ** Loops over a buffer of scalars *)

Lemma map_range_length f n i ws : length (map_range f n i ws) = length ws.
Proof.
  revert i ws. induction n as [| n IH]; intros i ws; simpl; [reflexivity |].
  rewrite IH, length_alter. reflexivity.
Qed.

Lemma map_range_lookup f n i ws j :
  map_range f n i ws !! j
  = if bool_decide (i <= j < i + n)%nat then f <$> ws !! j else ws !! j.
Proof.
  revert i ws. induction n as [| n IH]; intros i ws; simpl.
  - rewrite bool_decide_eq_false_2 by lia. reflexivity.
  - rewrite IH. rewrite list_lookup_alter.
    destruct (decide (i = j)) as [-> |].
    + rewrite bool_decide_eq_false_2 by lia.
      rewrite bool_decide_eq_true_2 by lia. reflexivity.
    + repeat case_bool_decide; try lia; reflexivity.
Qed.

Lemma map_range_all f ws : map_range f (length ws) 0 ws = f <$> ws.
Proof.
  apply list_eq. intros j. rewrite map_range_lookup, list_lookup_fmap.
  case_bool_decide as Hj; [reflexivity |].
  rewrite (lookup_ge_None_2 ws j) by lia. reflexivity.
Qed.

Lemma diff_down_length g i ws : length (diff_down g i ws) = length ws.
Proof.
  revert ws. induction i as [| i IH]; intros ws; simpl; [reflexivity |].
  rewrite IH, length_insert. reflexivity.
Qed.

Lemma diff_down_lookup g i ws j :
  (i < length ws)%nat ->
  diff_down g i ws !! j
  = match j with
    | O => ws !! 0%nat
    | S j' => if bool_decide (j <= i)%nat
              then Some (g (ws !!! j) (ws !!! j'))
              else ws !! j
    end.
Proof.
  revert ws. induction i as [| i IH]; intros ws Hi; simpl.
  - destruct j; [reflexivity |].
    rewrite bool_decide_eq_false_2 by lia. reflexivity.
  - rewrite IH by (rewrite length_insert; lia).
    destruct j as [| j'].
    + rewrite list_lookup_insert_ne by lia. reflexivity.
    + destruct (decide (S j' = S i)) as [Heq | Hne].
      * inversion Heq; subst j'.
        rewrite bool_decide_eq_false_2 by lia.
        rewrite bool_decide_eq_true_2 by lia.
        rewrite list_lookup_insert_eq by lia. reflexivity.
      * rewrite list_lookup_insert_ne by lia.
        case_bool_decide; case_bool_decide; try lia; [| reflexivity].
        rewrite !list_lookup_total_insert_ne by lia. reflexivity.
Qed.

Section Typed_buffer.

(** A buffer whose cells are made by [mk] and read by [ld]. *)
Variables (mk : Z -> cell) (ld : ptr -> nat -> M Z).
Hypothesis ld_Some : forall a i h ws w,
  h !! a = Some (mk <$> ws) -> ws !! i = Some w ->
  ld (Some a) i h = Some (w, h).
Hypothesis mk_shape : forall v w, same_shape (mk v) (mk w) = true.

Lemma ld_words a i h ws w :
  (a < length h)%nat -> ws !! i = Some w ->
  ld (Some a) i (<[a := mk <$> ws]> h)
  = Some (w, <[a := mk <$> ws]> h).
Proof.
  intros Ha Hw. apply (ld_Some a i _ ws w); [| exact Hw].
  apply list_lookup_insert_eq. exact Ha.
Qed.

Lemma st_words a i h ws v :
  (a < length h)%nat -> (i < length ws)%nat ->
  store_cell (Some a) i (mk v) (<[a := mk <$> ws]> h)
  = Some (tt, <[a := mk <$> <[i := v]> ws]> h).
Proof.
  intros Ha Hi.
  destruct (lookup_lt_is_Some_2 ws i Hi) as [w Hw].
  rewrite (store_cell_Some a i _ (mk <$> ws) (mk w) (mk v)).
  - rewrite insert_store_twice, list_fmap_insert. reflexivity.
  - apply list_lookup_insert_eq. exact Ha.
  - rewrite list_lookup_fmap, Hw. reflexivity.
  - apply mk_shape.
Qed.

Lemma for_each_map_range (f : Z -> Z) a h n i ws :
  (a < length h)%nat -> (i + n <= length ws)%nat ->
  for_each n i
    (fun i => let* v := ld (Some a) i in store_cell (Some a) i (mk (f v)))
    (<[a := mk <$> ws]> h)
  = Some (tt, <[a := mk <$> map_range f n i ws]> h).
Proof.
  intros Ha. revert i ws. induction n as [| n IH]; intros i ws Hn; simpl.
  - reflexivity.
  - destruct (lookup_lt_is_Some_2 ws i ltac:(lia)) as [w Hw].
    unfold bind at 1. unfold bind at 1.
    rewrite (ld_words a i h ws w Ha Hw).
    rewrite (st_words a i h ws (f w) Ha ltac:(lia)).
    rewrite IH by (rewrite length_insert; lia).
    rewrite (insert_alter_eq f ws i w Hw). reflexivity.
Qed.

Lemma for_down_diff_down (g : Z -> Z -> Z) a h i ws :
  (a < length h)%nat -> (i < length ws)%nat ->
  for_down i
    (fun i => let* x := ld (Some a) i in
              let* y := ld (Some a) (i - 1) in
              store_cell (Some a) i (mk (g x y)))
    (<[a := mk <$> ws]> h)
  = Some (tt, <[a := mk <$> diff_down g i ws]> h).
Proof.
  intros Ha. revert ws. induction i as [| i IH]; intros ws Hi; simpl.
  - reflexivity.
  - destruct (lookup_lt_is_Some_2 ws (S i) ltac:(lia)) as [x Hx].
    destruct (lookup_lt_is_Some_2 ws i ltac:(lia)) as [y Hy].
    unfold bind at 1. unfold bind at 1.
    rewrite (ld_words a (S i) h ws x Ha Hx).
    unfold bind at 1.
    replace (i - 0)%nat with i by lia.
    rewrite (ld_words a i h ws y Ha Hy).
    rewrite (st_words a (S i) h ws (g x y) Ha ltac:(lia)).
    rewrite IH by (rewrite length_insert; lia).
    pose proof (list_lookup_total_correct ws (S i) x Hx) as Hx'.
    pose proof (list_lookup_total_correct ws i y Hy) as Hy'.
    rewrite Hx', Hy'. reflexivity.
Qed.

End Typed_buffer.

(** ** The difference pre-processor *)

Lemma shiftr_range (x k N : Z) :
  0 <= k -> 0 <= x < N -> 0 <= Z.shiftr x k < N.
Proof.
  intros Hk Hx. rewrite Z.shiftr_div_pow2 by lia.
  assert (Hp : 0 < 2 ^ k) by (apply Z.pow_pos_nonneg; lia).
  split; [apply Z.div_pos; lia |].
  apply Z.le_lt_trans with x; [| lia].
  apply Z.div_le_upper_bound; nia.
Qed.

(** Rounding every element and differencing from the tail give the
    residuals. *)
Lemma diff_down_residuals (w k : Z) (f : Z -> Z) (xs : list Z) :
  (1 <= length xs)%nat ->
  (forall x, x ∈ xs -> f x = Z.shiftr x k) ->
  diff_down (fun a b => (a - b) mod 2 ^ w) (length xs - 1) (f <$> xs)
  = residuals w k xs.
Proof.
  intros Hlen Hf. apply list_eq. intros j.
  rewrite diff_down_lookup by (rewrite length_fmap; lia).
  unfold residuals. rewrite list_lookup_imap.
  destruct j as [| j'].
  - rewrite list_lookup_fmap.
    destruct (xs !! 0%nat) as [x |] eqn:E; [| reflexivity].
    simpl. rewrite Hf by (eapply list_elem_of_lookup_2; exact E).
    reflexivity.
  - destruct (xs !! S j') as [x |] eqn:E.
    + assert (Hj : (S j' < length xs)%nat) by (eapply lookup_lt_Some; exact E).
      rewrite bool_decide_eq_true_2 by lia. simpl.
      destruct (lookup_lt_is_Some_2 xs j' ltac:(lia)) as [y Hy].
      assert (Hfm : forall i, (i < length xs)%nat ->
                              (f <$> xs) !!! i = f (xs !!! i))
        by (intros i Hi; apply list_lookup_total_fmap; exact Hi).
      rewrite !Hfm by lia.
      pose proof (list_lookup_total_correct xs (S j') x E) as Hx'.
      pose proof (list_lookup_total_correct xs j' y Hy) as Hy'.
      rewrite Hx', Hy'.
      rewrite !Hf by (eapply list_elem_of_lookup_2; eassumption).
      reflexivity.
    + assert (Hj : (length xs <= S j')%nat)
        by (apply lookup_ge_None_1; exact E).
      rewrite bool_decide_eq_false_2 by lia.
      rewrite list_lookup_fmap, E. reflexivity.
Qed.

Lemma lossy_rounding_16_words (a : nat) (h : store) (xs : list Z) (k : Z) :
  (a < length h)%nat ->
  lossy_rounding_16 (Some a) (Z.of_nat (length xs)) k (<[a := U16 <$> xs]> h)
  = Some (0, <[a := U16 <$> ((fun v => u16 (round_fwd v k)) <$> xs)]> h).
Proof.
  intros Ha. unfold lossy_rounding_16. rewrite Nat2Z.id.
  rewrite (bind_eq _ _ _ _ _
             (for_each_map_range U16 load_u16 load_u16_Some
                ltac:(reflexivity) (fun v => u16 (round_fwd v k)) a h
                (length xs) 0 xs Ha ltac:(lia))).
  rewrite map_range_all. reflexivity.
Qed.

Lemma lossy_rounding_32_words (a : nat) (h : store) (xs : list Z) (k : Z) :
  (a < length h)%nat ->
  lossy_rounding_32 (Some a) (Z.of_nat (length xs)) k (<[a := U32 <$> xs]> h)
  = Some (0, <[a := U32 <$> ((fun v => u32 (round_fwd v k)) <$> xs)]> h).
Proof.
  intros Ha. unfold lossy_rounding_32. rewrite Nat2Z.id.
  rewrite (bind_eq _ _ _ _ _
             (for_each_map_range U32 load_u32 load_u32_Some
                ltac:(reflexivity) (fun v => u32 (round_fwd v k)) a h
                (length xs) 0 xs Ha ltac:(lia))).
  rewrite map_range_all. reflexivity.
Qed.

(** C3: on a buffer of at least one 16-bit (32-bit) value [diff_16]
    ([diff_32]) succeeds and leaves the residuals: the head rounded, and
    every later element replaced by the difference, wrapped to the width,
    of its rounded value and the rounded value of the element before it as
    it was on entry. *)
Theorem diff_leaves_residuals (h : store) (a : nat) (xs : list Z) (k : Z) :
  (1 <= length xs)%nat -> 0 <= k ->
  (h !! a = Some (U16 <$> xs) -> Forall (fun x => 0 <= x < 2 ^ 16) xs ->
   diff_16 (Some a) (Z.of_nat (length xs)) k h
   = Some (0, <[a := U16 <$> residuals 16 k xs]> h)) /\
  (h !! a = Some (U32 <$> xs) -> Forall (fun x => 0 <= x < 2 ^ 32) xs ->
   diff_32 (Some a) (Z.of_nat (length xs)) k h
   = Some (0, <[a := U32 <$> residuals 32 k xs]> h)) /\
  (forall w x0, xs !! 0%nat = Some x0 ->
                residuals w k xs !! 0%nat = Some (Z.shiftr x0 k)) /\
  (forall w i x y, xs !! S i = Some x -> xs !! i = Some y ->
                   residuals w k xs !! S i
                   = Some ((Z.shiftr x k - Z.shiftr y k) mod 2 ^ w)).
Proof.
  intros Hlen Hk.
  assert (Hn : (Z.of_nat (length xs) =? 0) = false) by (apply Z.eqb_neq; lia).
  assert (Hn1 : Z.to_nat (Z.of_nat (length xs) - 1) = (length xs - 1)%nat)
    by lia.
  split; [| split; [| split]].
  - intros Hb Hxs.
    assert (Ha : (a < length h)%nat)
      by (apply lookup_lt_Some in Hb; exact Hb).
    unfold diff_16. rewrite Hn, is_null_Some, Hn1.
    rewrite <- (list_insert_id h a _ Hb) at 1.
    rewrite (bind_eq _ _ _ _ _ (lossy_rounding_16_words a h xs k Ha)).
    rewrite (bind_eq _ _ _ _ _
               (for_down_diff_down U16 load_u16 load_u16_Some
                  ltac:(reflexivity) (fun x y => u16 (x - y)) a h
                  (length xs - 1) ((fun v => u16 (round_fwd v k)) <$> xs)
                  Ha ltac:(rewrite length_fmap; lia))).
    unfold ret. do 4 f_equal.
    apply (diff_down_residuals 16 k); [exact Hlen |].
    intros x Hx. rewrite Forall_forall in Hxs. specialize (Hxs x Hx).
    unfold u16, wrap, round_fwd, shr32. apply Z.mod_small.
    apply shiftr_range; lia.
  - intros Hb Hxs.
    assert (Ha : (a < length h)%nat)
      by (apply lookup_lt_Some in Hb; exact Hb).
    unfold diff_32. rewrite Hn, is_null_Some, Hn1.
    rewrite <- (list_insert_id h a _ Hb) at 1.
    rewrite (bind_eq _ _ _ _ _ (lossy_rounding_32_words a h xs k Ha)).
    rewrite (bind_eq _ _ _ _ _
               (for_down_diff_down U32 load_u32 load_u32_Some
                  ltac:(reflexivity) sub32 a h
                  (length xs - 1) ((fun v => u32 (round_fwd v k)) <$> xs)
                  Ha ltac:(rewrite length_fmap; lia))).
    unfold ret. do 4 f_equal.
    apply (diff_down_residuals 32 k); [exact Hlen |].
    intros x Hx. rewrite Forall_forall in Hxs. specialize (Hxs x Hx).
    unfold u32, wrap, round_fwd, shr32. apply Z.mod_small.
    apply shiftr_range; lia.
  - intros w x0 E. unfold residuals. rewrite list_lookup_imap, E. reflexivity.
  - intros w i x y Ex Ey. unfold residuals.
    rewrite list_lookup_imap, Ex. simpl.
    pose proof (list_lookup_total_correct xs i y Ey) as Hy'.
    rewrite Hy'. reflexivity.
Qed.

Lemma diff_leaves_residuals_witness :
  let h : store := [U16 <$> [10; 12; 9; 9]] in
  (1 <= length [10; 12; 9; 9])%nat /\ 0 <= 0 /\
  diff_16 (Some 0%nat) 4 0 h = Some (0, [U16 <$> [10; 2; 65533; 0]]).
Proof.
  intros h.
  assert (Hl : (1 <= length [10; 12; 9; 9])%nat) by (simpl; lia).
  assert (Hk : 0 <= 0) by lia.
  split; [exact Hl | split; [exact Hk |]].
  destruct (diff_leaves_residuals h 0 [10; 12; 9; 9] 0 Hl Hk) as (H16 & _).
  apply H16; [reflexivity |].
  repeat constructor; lia.
Defined.

(** ** Computations that leave a buffer alone *)

Lemma frames_ret {A} (p : nat) (a : A) : frames p (ret a).
Proof. split; [reflexivity |]. intros h r h' E. inversion E. reflexivity. Qed.

Lemma frames_fault {A} (p : nat) : frames p (@fault A).
Proof. split; [reflexivity |]. intros h r h' E. inversion E. Qed.

Lemma frames_bind {A B} (p : nat) (m : M A) (k : A -> M B) :
  frames p m -> (forall a, frames p (k a)) -> frames p (bind m k).
Proof.
  intros [Hm1 Hm2] Hk. split.
  - intros h b. unfold bind. rewrite Hm1.
    destruct (m h) as [[a h'] |]; [| reflexivity]. simpl.
    apply (Hk a).
  - intros h r h' E. inv_bind E.
    rewrite (proj2 (Hk a) _ _ _ E). eapply Hm2. exact Hrun.
Qed.

Lemma frames_load (p : nat) (q : ptr) (i : nat) :
  q <> Some p -> frames p (load q i).
Proof.
  intros Hq. split.
  - intros h b. unfold load. destruct q as [a |]; [| reflexivity].
    rewrite list_lookup_insert_ne by congruence.
    destruct (h !! a) as [buf |]; [| reflexivity].
    destruct (buf !! i); reflexivity.
  - intros h r h' E. unfold load in E.
    destruct q as [a |]; [| discriminate].
    destruct (h !! a) as [buf |]; [| discriminate].
    destruct (buf !! i); inversion E. reflexivity.
Qed.

Lemma frames_poke (p : nat) (q : ptr) (i : nat) (c : cell) :
  q <> Some p -> frames p (poke q i c).
Proof.
  intros Hq. split.
  - intros h b. unfold poke. destruct q as [a |]; [| reflexivity].
    rewrite list_lookup_insert_ne by congruence.
    destruct (h !! a) as [buf |]; [| reflexivity].
    case_bool_decide; [| reflexivity]. simpl.
    rewrite list_insert_insert_ne by congruence. reflexivity.
  - intros h r h' E. unfold poke in E.
    destruct q as [a |]; [| discriminate].
    destruct (h !! a) as [buf |]; [| discriminate].
    case_bool_decide; inversion E.
    apply list_lookup_insert_ne. congruence.
Qed.

Lemma frames_store_cell (p : nat) (q : ptr) (i : nat) (c : cell) :
  q <> Some p -> frames p (store_cell q i c).
Proof.
  intros Hq. unfold store_cell. apply frames_bind.
  - apply frames_load. exact Hq.
  - intros old. destruct (same_shape old c);
      [apply frames_poke; exact Hq | apply frames_fault].
Qed.

Lemma frames_load_u32 (p : nat) (q : ptr) (i : nat) :
  q <> Some p -> frames p (load_u32 q i).
Proof.
  intros Hq. unfold load_u32. apply frames_bind.
  - apply frames_load. exact Hq.
  - intros c. destruct c; first [apply frames_ret | apply frames_fault].
Qed.

Lemma frames_for_each (p : nat) (n i : nat) (body : nat -> M unit) :
  (forall j, frames p (body j)) -> frames p (for_each n i body).
Proof.
  intros Hb. revert i. induction n as [| n IH]; intros i; simpl.
  - apply frames_ret.
  - apply frames_bind; [apply Hb | intros _; apply IH].
Qed.

Lemma frames_model_32 `{cmp_support} (p : nat) (data_buf model_buf : ptr)
    (samples model_value round : Z) :
  data_buf <> Some p -> model_buf <> Some p ->
  frames p (model_32 data_buf model_buf samples model_value round).
Proof.
  intros Hd Hm. unfold model_32.
  repeat (match goal with
          | |- frames _ (if ?b then _ else _) => destruct b
          end; try apply frames_ret).
  apply frames_bind; [| intros _; apply frames_ret].
  apply frames_for_each. intros j.
  apply frames_bind; [apply frames_load_u32; exact Hd | intros d].
  apply frames_bind; [apply frames_load_u32; exact Hm | intros m].
  apply frames_bind; [apply frames_store_cell; exact Hd | intros _].
  apply frames_bind; [apply frames_load_u32; exact Hm | intros m'].
  apply frames_store_cell; exact Hm.
Qed.

(** ** Loops with an invariant *)

Lemma for_each_inv (I : nat -> store -> Prop) (n i : nat)
    (body : nat -> M unit) (h : store) :
  I i h ->
  (forall j h0, (i <= j < i + n)%nat -> I j h0 ->
                exists h1, body j h0 = Some (tt, h1) /\ I (S j) h1) ->
  exists h', for_each n i body h = Some (tt, h') /\ I (i + n)%nat h'.
Proof.
  revert i h. induction n as [| n IH]; intros i h Hi Hstep; simpl.
  - exists h. rewrite Nat.add_0_r. split; [reflexivity | exact Hi].
  - destruct (Hstep i h ltac:(lia) Hi) as (h1 & Hb & Hi1).
    destruct (IH (S i) h1 Hi1) as (h' & Hrun & Hi').
    { intros j h0 Hj. apply Hstep. lia. }
    exists h'. split.
    + unfold bind. rewrite Hb. exact Hrun.
    + replace (i + S n)%nat with (S i + n)%nat by lia. exact Hi'.
Qed.

Lemma take_drop_step {V} (A xs : list V) (j : nat) (v : V) :
  A !! j = Some v -> (j < length xs)%nat ->
  <[j := v]> (take j A ++ drop j xs) = take (S j) A ++ drop (S j) xs.
Proof.
  intros HA Hj.
  assert (HjA : (j < length A)%nat) by (eapply lookup_lt_Some; exact HA).
  destruct (lookup_lt_is_Some_2 xs j Hj) as [x Hx].
  rewrite (drop_S xs x j Hx).
  rewrite insert_app_r_alt by (rewrite length_take; lia).
  rewrite length_take, Nat.min_l by lia.
  replace (j - j)%nat with 0%nat by lia. simpl.
  rewrite (take_S_r A j v HA), <- app_assoc. reflexivity.
Qed.

Lemma take_drop_lookup {V} (A xs : list V) (j : nat) :
  (j <= length A)%nat -> (take j A ++ drop j xs) !! j = xs !! j.
Proof.
  intros Hj. rewrite lookup_app_r by (rewrite length_take; lia).
  rewrite length_take, Nat.min_l by lia.
  replace (j - j)%nat with 0%nat by lia.
  rewrite lookup_drop. f_equal. lia.
Qed.

Section Model_loop.

(** Buffers whose cells are made by [mk] and read by [ld], and the loop
    body shared by the model pre-processors: the datum becomes [F d m] and
    the updated model [G d m]. *)
Context {V : Type}.
Variables (mk : V -> cell) (ld : ptr -> nat -> M V).
Hypothesis ld_Some : forall a i h ws w,
  h !! a = Some (mk <$> ws) -> ws !! i = Some w ->
  ld (Some a) i h = Some (w, h).
Hypothesis mk_shape : forall v w, same_shape (mk v) (mk w) = true.
Variables (F G : V -> V -> V).

Lemma st_Some a i h ws v :
  h !! a = Some (mk <$> ws) -> (i < length ws)%nat ->
  store_cell (Some a) i (mk v) h
  = Some (tt, <[a := mk <$> <[i := v]> ws]> h).
Proof.
  intros Hb Hi.
  destruct (lookup_lt_is_Some_2 ws i Hi) as [w Hw].
  rewrite (store_cell_Some a i h (mk <$> ws) (mk w) (mk v) Hb).
  - rewrite list_fmap_insert. reflexivity.
  - rewrite list_lookup_fmap, Hw. reflexivity.
  - apply mk_shape.
Qed.

Lemma model_loop_in_place (pd pm : nat) (h : store) (xs ms : list V) :
  pd <> pm ->
  h !! pd = Some (mk <$> xs) -> h !! pm = Some (mk <$> ms) ->
  length ms = length xs ->
  exists h',
    for_each (length xs) 0 (model_body mk ld F G pd pm pm) h = Some (tt, h') /\
    h' !! pd = Some (mk <$> zip_with F xs ms) /\
    h' !! pm = Some (mk <$> zip_with G xs ms) /\
    length h' = length h /\
    (forall q, q <> pd -> q <> pm -> h' !! q = h !! q).
Proof.
  intros Hne Hd Hm Hlen.
  set (A := zip_with F xs ms). set (B := zip_with G xs ms).
  assert (HlA : length A = length xs)
    by (unfold A; rewrite length_zip_with; lia).
  assert (HlB : length B = length xs)
    by (unfold B; rewrite length_zip_with; lia).
  pose (I := fun (j : nat) (h' : store) =>
               length h' = length h /\
               (forall q, q <> pd -> q <> pm -> h' !! q = h !! q) /\
               h' !! pd = Some (mk <$> (take j A ++ drop j xs)) /\
               h' !! pm = Some (mk <$> (take j B ++ drop j ms))).
  destruct (for_each_inv I (length xs) 0 (model_body mk ld F G pd pm pm) h)
    as (h' & Hrun & Hl' & Hq' & Hd' & Hm').
  { unfold I. simpl. rewrite !drop_0. auto. }
  { intros j h0 Hj (Hl0 & Hq0 & Hd0 & Hm0).
    destruct (lookup_lt_is_Some_2 xs j ltac:(lia)) as [x Hx].
    destruct (lookup_lt_is_Some_2 ms j ltac:(lia)) as [m Hmj].
    assert (HA : A !! j = Some (F x m))
      by (unfold A; rewrite lookup_zip_with, Hx, Hmj; reflexivity).
    assert (HB : B !! j = Some (G x m))
      by (unfold B; rewrite lookup_zip_with, Hx, Hmj; reflexivity).
    unfold model_body.
    rewrite (bind_eq _ _ _ _ _
               (ld_Some pd j h0 _ x Hd0
                  ltac:(rewrite take_drop_lookup by lia; exact Hx))).
    rewrite (bind_eq _ _ _ _ _
               (ld_Some pm j h0 _ m Hm0
                  ltac:(rewrite take_drop_lookup by lia; exact Hmj))).
    rewrite (bind_eq _ _ _ _ _
               (st_Some pd j h0 _ (F x m) Hd0
                  ltac:(rewrite length_app, length_take, length_drop;
                        lia))).
    rewrite take_drop_step by (done || lia).
    set (h1 := <[pd := _]> h0).
    assert (Hm1 : h1 !! pm = Some (mk <$> (take j B ++ drop j ms))).
    { unfold h1. rewrite list_lookup_insert_ne by done. exact Hm0. }
    rewrite (bind_eq _ _ _ _ _
               (ld_Some pm j h1 _ m Hm1
                  ltac:(rewrite take_drop_lookup by lia; exact Hmj))).
    rewrite (st_Some pm j h1 _ (G x m) Hm1
               ltac:(rewrite length_app, length_take, length_drop; lia)).
    rewrite take_drop_step by (done || lia).
    eexists. split; [reflexivity |]. unfold I, h1.
    rewrite !length_insert. split; [exact Hl0 |]. split; [| split].
    - intros q Hq1 Hq2. rewrite !list_lookup_insert_ne by done.
      apply Hq0; done.
    - rewrite list_lookup_insert_ne by done.
      apply list_lookup_insert_eq.
      apply lookup_lt_Some in Hd0. exact Hd0.
    - apply list_lookup_insert_eq. rewrite length_insert.
      apply lookup_lt_Some in Hm0. exact Hm0. }
  exists h'. split; [exact Hrun |]. simpl in Hd', Hm'.
  rewrite <- HlA in Hd' at 1. rewrite <- HlB in Hm' at 1.
  rewrite firstn_all in Hd', Hm'.
  rewrite drop_ge, app_nil_r in Hd' by lia.
  rewrite drop_ge, app_nil_r in Hm' by lia.
  auto.
Qed.

Lemma model_loop_separate (pd pm pu : nat) (h : store)
    (xs ms us : list V) :
  pd <> pm -> pu <> pd -> pu <> pm ->
  h !! pd = Some (mk <$> xs) -> h !! pm = Some (mk <$> ms) ->
  h !! pu = Some (mk <$> us) ->
  length ms = length xs -> length us = length xs ->
  exists h',
    for_each (length xs) 0 (model_body mk ld F G pd pm pu) h = Some (tt, h') /\
    h' !! pd = Some (mk <$> zip_with F xs ms) /\
    h' !! pm = Some (mk <$> ms) /\
    h' !! pu = Some (mk <$> zip_with G xs ms) /\
    length h' = length h /\
    (forall q, q <> pd -> q <> pu -> h' !! q = h !! q).
Proof.
  intros Hne Hud Hum Hd Hm Hu Hlen Hlenu.
  set (A := zip_with F xs ms). set (B := zip_with G xs ms).
  assert (HlA : length A = length xs)
    by (unfold A; rewrite length_zip_with; lia).
  assert (HlB : length B = length xs)
    by (unfold B; rewrite length_zip_with; lia).
  pose (I := fun (j : nat) (h' : store) =>
               length h' = length h /\
               (forall q, q <> pd -> q <> pu -> h' !! q = h !! q) /\
               h' !! pd = Some (mk <$> (take j A ++ drop j xs)) /\
               h' !! pu = Some (mk <$> (take j B ++ drop j us))).
  destruct (for_each_inv I (length xs) 0 (model_body mk ld F G pd pm pu) h)
    as (h' & Hrun & Hl' & Hq' & Hd' & Hu').
  { unfold I. simpl. rewrite !drop_0. auto. }
  { intros j h0 Hj (Hl0 & Hq0 & Hd0 & Hu0).
    destruct (lookup_lt_is_Some_2 xs j ltac:(lia)) as [x Hx].
    destruct (lookup_lt_is_Some_2 ms j ltac:(lia)) as [m Hmj].
    assert (Hm0 : h0 !! pm = Some (mk <$> ms))
      by (rewrite Hq0 by done; exact Hm).
    assert (HA : A !! j = Some (F x m))
      by (unfold A; rewrite lookup_zip_with, Hx, Hmj; reflexivity).
    assert (HB : B !! j = Some (G x m))
      by (unfold B; rewrite lookup_zip_with, Hx, Hmj; reflexivity).
    unfold model_body.
    rewrite (bind_eq _ _ _ _ _
               (ld_Some pd j h0 _ x Hd0
                  ltac:(rewrite take_drop_lookup by lia; exact Hx))).
    rewrite (bind_eq _ _ _ _ _ (ld_Some pm j h0 _ m Hm0 Hmj)).
    rewrite (bind_eq _ _ _ _ _
               (st_Some pd j h0 _ (F x m) Hd0
                  ltac:(rewrite length_app, length_take, length_drop;
                        lia))).
    rewrite take_drop_step by (done || lia).
    set (h1 := <[pd := _]> h0).
    assert (Hm1 : h1 !! pm = Some (mk <$> ms)).
    { unfold h1. rewrite list_lookup_insert_ne by done. exact Hm0. }
    assert (Hu1 : h1 !! pu = Some (mk <$> (take j B ++ drop j us))).
    { unfold h1. rewrite list_lookup_insert_ne by done. exact Hu0. }
    rewrite (bind_eq _ _ _ _ _ (ld_Some pm j h1 _ m Hm1 Hmj)).
    rewrite (st_Some pu j h1 _ (G x m) Hu1
               ltac:(rewrite length_app, length_take, length_drop; lia)).
    rewrite take_drop_step by (done || lia).
    eexists. split; [reflexivity |]. unfold I, h1.
    rewrite !length_insert. split; [exact Hl0 |]. split; [| split].
    - intros q Hq1 Hq2. rewrite !list_lookup_insert_ne by done.
      apply Hq0; done.
    - rewrite list_lookup_insert_ne by done.
      apply list_lookup_insert_eq.
      apply lookup_lt_Some in Hd0. exact Hd0.
    - apply list_lookup_insert_eq. rewrite length_insert.
      apply lookup_lt_Some in Hu0. exact Hu0. }
  exists h'. split; [exact Hrun |]. simpl in Hd', Hu'.
  rewrite <- HlA in Hd' at 1. rewrite <- HlB in Hu' at 1.
  rewrite firstn_all in Hd', Hu'.
  rewrite drop_ge, app_nil_r in Hd' by lia.
  rewrite drop_ge, app_nil_r in Hu' by lia.
  split; [exact Hd' |]. split; [| auto].
  rewrite Hq' by done. exact Hm.
Qed.

End Model_loop.

(** ** Model pre-processing and the updated-model buffer *)

Lemma load_S_FX_Some (a i : nat) (h : store) (ws : list S_FX.t)
    (w : S_FX.t) :
  h !! a = Some (C_S_FX <$> ws) -> ws !! i = Some w ->
  load_S_FX (Some a) i h = Some (w, h).
Proof.
  intros Hb Hw. unfold load_S_FX.
  rewrite (bind_eq _ _ _ _ _
             (load_Some a i h _ (C_S_FX w) Hb
                ltac:(rewrite list_lookup_fmap, Hw; reflexivity))).
  reflexivity.
Qed.

Section Model_modes.

Context `{cmp_support}.

Lemma model_32_in_place (pd pm : nat) (h : store) (xs ms : list Z)
    (model_value round : Z) :
  pd <> pm ->
  h !! pd = Some (U32 <$> xs) -> h !! pm = Some (U32 <$> ms) ->
  length ms = length xs -> (1 <= length xs)%nat ->
  model_value <= MAX_MODEL_VALUE ->
  exists h',
    model_32 (Some pd) (Some pm) (Z.of_nat (length xs)) model_value round h
    = Some (0, h') /\
    h' !! pd = Some (U32 <$> zip_with (model_residual_32 round) xs ms) /\
    h' !! pm
    = Some (U32 <$> zip_with (updated_model_32 round model_value) xs ms) /\
    (forall q, q <> pd -> q <> pm -> h' !! q = h !! q).
Proof.
  intros Hne Hd Hm Hlen Hn Hmv.
  destruct (model_loop_in_place U32 load_u32 load_u32_Some
              ltac:(reflexivity) (model_residual_32 round)
              (updated_model_32 round model_value) pd pm h xs ms
              Hne Hd Hm Hlen) as (h' & Hrun & Hd' & Hm' & _ & Hq').
  exists h'. unfold model_32.
  assert ((Z.of_nat (length xs) =? 0) = false) as ->
    by (apply Z.eqb_neq; lia).
  rewrite !is_null_Some.
  assert ((model_value >? MAX_MODEL_VALUE) = false) as ->.
  { destruct (Z.gtb_spec model_value MAX_MODEL_VALUE); [lia | reflexivity]. }
  rewrite Nat2Z.id.
  split; [| auto].
  exact (bind_eq _ _ _ _ _ Hrun).
Qed.

Lemma model_16_separate (pd pm pu : nat) (h : store) (xs ms us : list Z)
    (model_value round : Z) :
  pd <> pm -> pu <> pd -> pu <> pm ->
  h !! pd = Some (U16 <$> xs) -> h !! pm = Some (U16 <$> ms) ->
  h !! pu = Some (U16 <$> us) ->
  length ms = length xs -> length us = length xs ->
  (1 <= length xs)%nat -> model_value <= MAX_MODEL_VALUE ->
  exists h',
    model_16 (Some pd) (Some pm) (Some pu) (Z.of_nat (length xs))
             model_value round h
    = Some (0, h') /\
    h' !! pd = Some (U16 <$> zip_with (model_residual_16 round) xs ms) /\
    h' !! pm = Some (U16 <$> ms) /\
    h' !! pu
    = Some (U16 <$> zip_with (updated_model_16 round model_value) xs ms).
Proof.
  intros Hne Hud Hum Hd Hm Hu Hlen Hlenu Hn Hmv.
  destruct (model_loop_separate U16 load_u16 load_u16_Some
              ltac:(reflexivity) (model_residual_16 round)
              (updated_model_16 round model_value) pd pm pu h xs ms us
              Hne Hud Hum Hd Hm Hu Hlen Hlenu)
    as (h' & Hrun & Hd' & Hm' & Hu' & _).
  exists h'. unfold model_16.
  assert ((Z.of_nat (length xs) =? 0) = false) as ->
    by (apply Z.eqb_neq; lia).
  rewrite !is_null_Some.
  assert ((model_value >? MAX_MODEL_VALUE) = false) as ->.
  { destruct (Z.gtb_spec model_value MAX_MODEL_VALUE); [lia | reflexivity]. }
  rewrite Nat2Z.id.
  split; [| auto].
  exact (bind_eq _ _ _ _ _ Hrun).
Qed.

Lemma model_S_FX_separate (pd pm pu : nat) (h : store)
    (xs ms us : list S_FX.t) (model_value round : Z) :
  pd <> pm -> pu <> pd -> pu <> pm ->
  h !! pd = Some (C_S_FX <$> xs) -> h !! pm = Some (C_S_FX <$> ms) ->
  h !! pu = Some (C_S_FX <$> us) ->
  length ms = length xs -> length us = length xs ->
  (1 <= length xs)%nat -> model_value <= MAX_MODEL_VALUE ->
  exists h',
    model_S_FX (Some pd) (Some pm) (Some pu) (Z.of_nat (length xs))
               model_value round h
    = Some (0, h') /\
    h' !! pd
    = Some (C_S_FX <$> zip_with (model_residual_S_FX round) xs ms) /\
    h' !! pm = Some (C_S_FX <$> ms) /\
    h' !! pu
    = Some (C_S_FX
              <$> zip_with (updated_model_S_FX round model_value) xs ms).
Proof.
  intros Hne Hud Hum Hd Hm Hu Hlen Hlenu Hn Hmv.
  destruct (model_loop_separate C_S_FX load_S_FX load_S_FX_Some
              ltac:(reflexivity) (model_residual_S_FX round)
              (updated_model_S_FX round model_value) pd pm pu h xs ms us
              Hne Hud Hum Hd Hm Hu Hlen Hlenu)
    as (h' & Hrun & Hd' & Hm' & Hu' & _).
  exists h'. unfold model_S_FX.
  assert ((Z.of_nat (length xs) =? 0) = false) as ->
    by (apply Z.eqb_neq; lia).
  rewrite !is_null_Some.
  assert ((model_value >? MAX_MODEL_VALUE) = false) as ->.
  { destruct (Z.gtb_spec model_value MAX_MODEL_VALUE); [lia | reflexivity]. }
  rewrite Nat2Z.id.
  split; [| auto].
  exact (bind_eq _ _ _ _ _ Hrun).
Qed.

End Model_modes.

Lemma frames_pre_process_model_32 `{cmp_support} (cfg : cmp_cfg) (pn : nat) :
  model_32_mode (cmp_mode_of cfg) = true ->
  input_buf cfg <> Some pn -> model_buf cfg <> Some pn ->
  frames pn (pre_process cfg).
Proof.
  intros Hmode Hd Hm. unfold pre_process.
  destruct (samples cfg =? 0); [apply frames_ret |].
  destruct (is_null (input_buf cfg)); [apply frames_ret |].
  destruct (cmp_mode_of cfg); try discriminate Hmode;
    apply frames_model_32; assumption.
Qed.

(** C9: in the four 32-bit model modes [pre_process] leaves the residuals in
    the input buffer and writes the updated model over the model buffer,
    whatever [icu_new_model_buf] is; any other buffer, and so a separate
    [icu_new_model_buf], is neither read nor written.  In the 16-bit and
    the S_FX model modes a separate [icu_new_model_buf] receives the updated
    model and the model buffer stays as it was. *)
Theorem pre_process_model_32_in_place `{cmp_support} (cfg : cmp_cfg)
    (h : store) (pd pm : nat) (xs ms : list Z) :
  model_32_mode (cmp_mode_of cfg) = true ->
  input_buf cfg = Some pd -> model_buf cfg = Some pm -> pd <> pm ->
  h !! pd = Some (U32 <$> xs) -> h !! pm = Some (U32 <$> ms) ->
  samples cfg = Z.of_nat (length xs) -> length ms = length xs ->
  (1 <= length xs)%nat -> model_value cfg <= MAX_MODEL_VALUE ->
  (exists h',
     pre_process cfg h = Some (0, h') /\
     h' !! pd
     = Some (U32 <$> zip_with (model_residual_32 (round cfg)) xs ms) /\
     h' !! pm
     = Some (U32 <$> zip_with (updated_model_32 (round cfg) (model_value cfg))
                              xs ms) /\
     (forall q, q <> pd -> q <> pm -> h' !! q = h !! q)) /\
  (forall pn, pn <> pd -> pn <> pm -> frames pn (pre_process cfg)) /\
  (forall (cfg16 : cmp_cfg) (h16 : store) (pu : nat) (xs16 ms16 us16 : list Z),
     model_16_mode (cmp_mode_of cfg16) = true ->
     input_buf cfg16 = Some pd -> model_buf cfg16 = Some pm ->
     icu_new_model_buf cfg16 = Some pu -> pu <> pd -> pu <> pm ->
     h16 !! pd = Some (U16 <$> xs16) -> h16 !! pm = Some (U16 <$> ms16) ->
     h16 !! pu = Some (U16 <$> us16) ->
     samples cfg16 = Z.of_nat (length xs16) ->
     length ms16 = length xs16 -> length us16 = length xs16 ->
     (1 <= length xs16)%nat -> model_value cfg16 <= MAX_MODEL_VALUE ->
     exists h',
       pre_process cfg16 h16 = Some (0, h') /\
       h' !! pm = Some (U16 <$> ms16) /\
       h' !! pu
       = Some (U16 <$> zip_with (updated_model_16 (round cfg16)
                                                  (model_value cfg16))
                                xs16 ms16)) /\
  (forall (cfgS : cmp_cfg) (hS : store) (pu : nat)
          (xsS msS usS : list S_FX.t),
     model_S_FX_mode (cmp_mode_of cfgS) = true ->
     input_buf cfgS = Some pd -> model_buf cfgS = Some pm ->
     icu_new_model_buf cfgS = Some pu -> pu <> pd -> pu <> pm ->
     hS !! pd = Some (C_S_FX <$> xsS) -> hS !! pm = Some (C_S_FX <$> msS) ->
     hS !! pu = Some (C_S_FX <$> usS) ->
     samples cfgS = Z.of_nat (length xsS) ->
     length msS = length xsS -> length usS = length xsS ->
     (1 <= length xsS)%nat -> model_value cfgS <= MAX_MODEL_VALUE ->
     exists h',
       pre_process cfgS hS = Some (0, h') /\
       hS !! pm = h' !! pm /\
       h' !! pu
       = Some (C_S_FX <$> zip_with (updated_model_S_FX (round cfgS)
                                                       (model_value cfgS))
                                   xsS msS)).
Proof.
  intros Hmode Hin Hmod Hne Hd Hm Hs Hlen Hn Hmv.
  split; [| split; [| split]].
  - destruct (model_32_in_place pd pm h xs ms (model_value cfg) (round cfg)
                Hne Hd Hm Hlen Hn Hmv) as (h' & Hrun & Hres).
    exists h'. split; [| exact Hres].
    unfold pre_process. rewrite Hs, Hin, Hmod, is_null_Some.
    assert ((Z.of_nat (length xs) =? 0) = false) as ->
      by (apply Z.eqb_neq; lia).
    destruct (cmp_mode_of cfg); try discriminate Hmode; exact Hrun.
  - intros pn Hpd Hpm. apply frames_pre_process_model_32;
      [exact Hmode | rewrite Hin; congruence | rewrite Hmod; congruence].
  - intros cfg16 h16 pu xs16 ms16 us16 Hmode16 Hin16 Hmod16 Hup16 Hud Hum
           Hd16 Hm16 Hu16 Hs16 Hlm Hlu Hn16 Hmv16.
    destruct (model_16_separate pd pm pu h16 xs16 ms16 us16
                (model_value cfg16) (round cfg16)
                Hne Hud Hum Hd16 Hm16 Hu16 Hlm Hlu Hn16 Hmv16)
      as (h' & Hrun & _ & Hm' & Hu').
    exists h'. split; [| split; assumption].
    unfold pre_process. rewrite Hs16, Hin16, Hmod16, Hup16, is_null_Some.
    assert ((Z.of_nat (length xs16) =? 0) = false) as ->
      by (apply Z.eqb_neq; lia).
    destruct (cmp_mode_of cfg16); try discriminate Hmode16; exact Hrun.
  - intros cfgS hS pu xsS msS usS HmodeS HinS HmodS HupS Hud Hum
           HdS HmS HuS HsS Hlm Hlu HnS HmvS.
    destruct (model_S_FX_separate pd pm pu hS xsS msS usS
                (model_value cfgS) (round cfgS)
                Hne Hud Hum HdS HmS HuS Hlm Hlu HnS HmvS)
      as (h' & Hrun & _ & Hm' & Hu').
    exists h'. split; [| split; [congruence | assumption]].
    unfold pre_process. rewrite HsS, HinS, HmodS, HupS, is_null_Some.
    assert ((Z.of_nat (length xsS) =? 0) = false) as ->
      by (apply Z.eqb_neq; lia).
    destruct (cmp_mode_of cfgS); try discriminate HmodeS; exact Hrun.
Qed.

Lemma pre_process_model_32_in_place_witness :
  let cfg := mk_cfg MODE_MODEL_MULTI_32 4 16 8 0 2 4
                    (Some 0%nat) (Some 1%nat) (Some 2%nat) (Some 3%nat) 0 0 in
  let h : store := [U32 <$> [100; 7]; U32 <$> [95; 9]; U32 <$> [1; 2];
                    U32 <$> [0; 0]] in
  exists h',
    @pre_process sample_support cfg h = Some (0, h') /\
    h' !! 1%nat = Some (U32 <$> [97; 8]) /\
    h' !! 2%nat = Some (U32 <$> [1; 2]).
Proof.
  intros cfg h.
  assert (H1 : model_32_mode (cmp_mode_of cfg) = true) by reflexivity.
  assert (H2 : input_buf cfg = Some 0%nat) by reflexivity.
  assert (H3 : model_buf cfg = Some 1%nat) by reflexivity.
  assert (H4 : 0%nat <> 1%nat) by lia.
  assert (H5 : h !! 0%nat = Some (U32 <$> [100; 7])) by reflexivity.
  assert (H6 : h !! 1%nat = Some (U32 <$> [95; 9])) by reflexivity.
  assert (H7 : samples cfg = Z.of_nat (length [100; 7])) by reflexivity.
  assert (H8 : length [95; 9] = length [100; 7]) by reflexivity.
  assert (H9 : (1 <= length [100; 7])%nat) by (simpl; lia).
  assert (H10 : model_value cfg <= MAX_MODEL_VALUE)
    by (vm_compute; discriminate).
  destruct (@pre_process_model_32_in_place sample_support cfg h 0 1
              [100; 7] [95; 9] H1 H2 H3 H4 H5 H6 H7 H8 H9 H10)
    as ((h' & Hrun & _ & Hm & Hq) & _).
  exists h'. split; [exact Hrun |]. split; [exact Hm |].
  rewrite Hq by lia. reflexivity.
Defined.

(** ** The validator and a configuration without samples *)

Section Validator.

Context `{cmp_support}.

Lemma fst_count_if (b : bool) (st : Z * cmp_info) :
  fst (count_if b st) = fst st + Z.b2z b.
Proof. destruct b; simpl; lia. Qed.

Lemma fst_flag_if (b : bool) (bit : Z) (st : Z * cmp_info) :
  fst (flag_if b bit st) = fst st + Z.b2z b.
Proof. destruct b; simpl; lia. Qed.

(** The validator returns the negated number of failed checks, whatever
    [info] holds. *)
Lemma icu_cmp_cfg_valid_fst (cfg : cmp_cfg) (info : cmp_info) :
  fst (icu_cmp_cfg_valid cfg info) = - cfg_invalid_count cfg.
Proof.
  unfold icu_cmp_cfg_valid, cfg_invalid_count, buffer_errors,
    parameter_errors.
  cbv zeta.
  destruct (model_mode_is_used (cmp_mode_of cfg));
    destruct (raw_mode_is_used (cmp_mode_of cfg));
    cbn [fst snd];
    repeat (rewrite fst_flag_if || rewrite fst_count_if);
    cbn [fst]; lia.
Qed.

Lemma b2z_range (b : bool) : 0 <= Z.b2z b <= 1.
Proof. destruct b; simpl; lia. Qed.

Lemma accepted_mode_known (cfg : cmp_cfg) :
  cfg_invalid_count cfg = 0 ->
  (diff_mode_is_used (cmp_mode_of cfg)
   || model_mode_is_used (cmp_mode_of cfg)
   || raw_mode_is_used (cmp_mode_of cfg)) = true.
Proof.
  unfold cfg_invalid_count, buffer_errors, parameter_errors. cbv zeta.
  intros Hc.
  destruct (diff_mode_is_used (cmp_mode_of cfg)
            || model_mode_is_used (cmp_mode_of cfg)
            || raw_mode_is_used (cmp_mode_of cfg)); [reflexivity |].
  exfalso. cbn [negb Z.b2z] in Hc.
  repeat match goal with
         | H : context [Z.b2z ?b] |- _ =>
             pose proof (b2z_range b); generalize dependent (Z.b2z b);
             intros
         end.
  destruct (raw_mode_is_used _), (model_mode_is_used _); lia.
Qed.

(** With no samples every encoder returns at once and leaves [cmp_size]
    at zero. *)
Lemma encode_data_no_samples (cfg : cmp_cfg) (info : cmp_info)
    (h : store) :
  samples cfg = 0 ->
  (diff_mode_is_used (cmp_mode_of cfg)
   || model_mode_is_used (cmp_mode_of cfg)
   || raw_mode_is_used (cmp_mode_of cfg)) = true ->
  encode_data cfg info h = Some ((0, set_info_cmp_size info 0), h).
Proof.
  intros Hs Hmode. unfold encode_data.
  destruct (cmp_mode_of cfg) eqn:Em; try discriminate Hmode;
    unfold encode_raw_16, encode_raw_S_FX, encode_raw, encode_16,
      encode_32, encode_S_FX, encode_S_FX_EFX, encode_S_FX_NCOB,
      encode_S_FX_EFX_NCOB_ECOB;
    rewrite ?Hs, ?Z.mul_0_l; cbn [Z.to_nat for_loop Z.eqb Z.mul];
    repeat (match goal with
            | |- context [if is_null ?p then _ else _] =>
                destruct (is_null p)
            | |- context [if 0 >? ?x then _ else _] =>
                destruct (0 >? x)
            end);
    unfold bind, ret, encode_data_finish; cbn;
    rewrite ?Em; reflexivity.
Qed.

End Validator.

(** C8, as the code has it: [icu_compress_data] first lets [set_info]
    reject a mode, a round or a model value above [UINT8_MAX].  For a
    configuration that passes these range checks, that the validator
    accepts and that has no samples, [icu_compress_data] returns 0, leaves
    the buffers alone and reports a compressed size of 0.  Setting
    [samples] to 0 never adds to the errors the validator counts. *)
Theorem icu_compress_data_no_samples `{cmp_support} (cfg : cmp_cfg)
    (info : cmp_info) (h : store) :
  fst (icu_cmp_cfg_valid cfg info) = 0 -> samples cfg = 0 ->
  cmp_mode_value (cmp_mode_of cfg) <= UINT8_MAX ->
  round cfg <= UINT8_MAX -> model_value cfg <= UINT8_MAX ->
  (exists info',
     icu_compress_data cfg info h = Some ((0, info'), h) /\
     info_cmp_size info' = 0) /\
  (forall (cfg0 : cmp_cfg) (info0 : cmp_info),
     0 <= buffer_length cfg0 ->
     fst (icu_cmp_cfg_valid cfg0 info0)
     <= fst (icu_cmp_cfg_valid (set_samples cfg0 0) info0) <= 0).
Proof.
  intros Hvalid Hs Hmode Hround Hmv. split.
  - rewrite icu_cmp_cfg_valid_fst in Hvalid.
    assert (Hcount : cfg_invalid_count cfg = 0) by lia.
    pose proof (accepted_mode_known cfg Hcount) as Hknown.
    unfold icu_compress_data, set_info.
    assert ((cmp_mode_value (cmp_mode_of cfg) >? UINT8_MAX) = false) as ->
      by (destruct (Z.gtb_spec (cmp_mode_value (cmp_mode_of cfg)) UINT8_MAX);
          [lia | reflexivity]).
    assert ((round cfg >? UINT8_MAX) = false) as ->
      by (destruct (Z.gtb_spec (round cfg) UINT8_MAX); [lia | reflexivity]).
    assert ((model_value cfg >? UINT8_MAX) = false) as ->
      by (destruct (Z.gtb_spec (model_value cfg) UINT8_MAX);
          [lia | reflexivity]).
    cbn [Z.eqb negb].
    match goal with
    | |- context [icu_cmp_cfg_valid cfg ?i] =>
        pose proof (icu_cmp_cfg_valid_fst cfg i) as Hfst;
        destruct (icu_cmp_cfg_valid cfg i) as [err info2]
    end.
    cbn [fst] in Hfst. rewrite Hcount in Hfst. subst err.
    change (- 0) with 0. cbn [Z.eqb negb].
    unfold pre_process, map_to_pos. rewrite Hs. cbn [Z.eqb].
    unfold bind, ret. cbn [Z.eqb negb].
    rewrite (encode_data_no_samples cfg info2 h Hs Hknown).
    cbn [Z.eqb negb].
    exists (set_info_cmp_size info2 0). split; reflexivity.
  - intros cfg0 info0 Hbuf. rewrite !icu_cmp_cfg_valid_fst.
    unfold cfg_invalid_count, buffer_errors, parameter_errors.
    cbn [set_samples cmp_mode_of golomb_par spill model_value round samples
         buffer_length input_buf model_buf icu_new_model_buf icu_output_buf].
    assert ((0 >? buffer_length cfg0) = false) as ->
      by (destruct (Z.gtb_spec 0 (buffer_length cfg0)); [lia | reflexivity]).
    cbn [Z.eqb negb]. rewrite andb_false_r.
    change (Z.b2z false) with 0.
    repeat match goal with
           | |- context [Z.b2z ?b] =>
               pose proof (b2z_range b); generalize dependent (Z.b2z b);
               intros
           end.
    destruct (raw_mode_is_used _), (model_mode_is_used _); lia.
Qed.

Lemma icu_compress_data_no_samples_witness :
  let cfg := mk_cfg MODE_DIFF_ZERO 4 8 0 0 0 0 (Some 0%nat) None None
                    (Some 1%nat) 0 0 in
  let info := mk_info 1 2 3 4 5 6 7 8 9 10 11 12 in
  let h : store := [[U16 5]; [U32 7]] in
  exists info',
    @icu_compress_data sample_support cfg info h = Some ((0, info'), h) /\
    info_cmp_size info' = 0.
Proof.
  intros cfg info h.
  refine (proj1 (@icu_compress_data_no_samples sample_support cfg info h
                   _ _ _ _ _)).
  - reflexivity.
  - reflexivity.
  - vm_compute. discriminate.
  - vm_compute. discriminate.
  - vm_compute. discriminate.
Defined.

(** The claim as worded asks for success whenever the validator accepts a
    configuration without samples.  The validator does not look at [round]
    in a raw mode, and [set_info] turns down a [round] of 256 before the
    validator is asked: the call returns -1 and [info] is as it was. *)
Lemma icu_compress_data_no_samples_counterexample :
  ~ (exists S : cmp_support,
       forall (cfg : cmp_cfg) (info : cmp_info) (h : store),
         fst (@icu_cmp_cfg_valid S cfg info) = 0 -> samples cfg = 0 ->
         exists info',
           @icu_compress_data S cfg info h = Some ((0, info'), h) /\
           info_cmp_size info' = 0).
Proof.
  intros [S Hclaim].
  specialize (Hclaim (mk_cfg MODE_RAW 0 0 0 256 0 0 (Some 0%nat) None None
                             (Some 1%nat) 0 0)
                     (mk_info 0 0 0 0 0 0 0 77 0 0 0 0) []
                     eq_refl eq_refl).
  destruct Hclaim as (info' & Hrun & _).
  unfold icu_compress_data, set_info in Hrun. cbn [cmp_mode_of round] in Hrun.
  destruct (cmp_mode_value MODE_RAW >? UINT8_MAX);
    cbn in Hrun; unfold ret in Hrun; discriminate Hrun.
Qed.

(** * Further properties of the code *)

(** ** The chunk size bound *)

Lemma ROUND_UP_TO_4_bounds (x : Z) :
  0 <= x -> ROUND_UP_TO_4 x mod 4 = 0 /\ x <= ROUND_UP_TO_4 x < x + 4.
Proof.
  intros Hx. unfold ROUND_UP_TO_4.
  rewrite Z.quot_div_nonneg by lia. zlia.
Qed.

(** X1: on an operand [x] of an unsigned type of [w >= 32] bits
    [ROUND_UP_TO_4] gives the least multiple of four that is not below
    [x] as long as [x + 3] fits the type; for the operands within three of
    the largest value of the type the sum wraps and the macro gives 0. *)
Theorem ROUND_UP_TO_4_least_multiple (w x : Z) :
  32 <= w -> 0 <= x < 2 ^ w ->
  let r := ROUND_UP_TO_4_unsigned w x in
  (x + 3 < 2 ^ w ->
   r = ROUND_UP_TO_4 x /\ r mod 4 = 0 /\ x <= r < x + 4 /\
   (forall y, y mod 4 = 0 -> x <= y -> r <= y)) /\
  (2 ^ w <= x + 3 -> r = 0).
Proof.
  intros Hw Hx. cbv zeta. unfold ROUND_UP_TO_4_unsigned, ROUND_UP_TO_4, wrap.
  assert (Hp : 2 ^ 32 <= 2 ^ w) by (apply Z.pow_le_mono_r; lia).
  split.
  - intros Hfit. rewrite (Z.mod_small (x + 3)) by lia.
    rewrite Z.quot_div_nonneg by lia.
    assert (Hr : 0 <= (x + 3) / 4 * 4 <= x + 3) by zlia.
    rewrite (Z.mod_small ((x + 3) / 4 * 4)) by lia.
    repeat split; try zlia.
    intros y Hy Hxy. zlia.
  - intros Hover.
    assert (Hm : (x + 3) mod 2 ^ w = x + 3 - 2 ^ w).
    { symmetry. apply Z.mod_unique with (q := 1); [left |]; lia. }
    rewrite Hm, Z.quot_div_nonneg by lia.
    assert (Hq : (x + 3 - 2 ^ w) / 4 = 0) by (apply Z.div_small; lia).
    rewrite Hq. apply Z.mod_0_l. lia.
Qed.

Lemma ROUND_UP_TO_4_least_multiple_witness :
  32 <= 32 /\ 0 <= 13 < 2 ^ 32 /\ 0 <= 0xfffffffe < 2 ^ 32 /\
  ROUND_UP_TO_4_unsigned 32 13 = 16 /\
  ROUND_UP_TO_4_unsigned 32 13 mod 4 = 0 /\
  ROUND_UP_TO_4_unsigned 32 0xfffffffe = 0.
Proof.
  assert (Hw : 32 <= 32) by lia.
  assert (Hx : 0 <= 13 < 2 ^ 32) by lia.
  assert (Hy : 0 <= 0xfffffffe < 2 ^ 32) by lia.
  do 3 (split; [assumption |]).
  destruct (ROUND_UP_TO_4_least_multiple 32 13 Hw Hx) as [Hfit _].
  destruct (ROUND_UP_TO_4_least_multiple 32 0xfffffffe Hw Hy) as [_ Hwrap].
  split; [reflexivity |].
  split; [exact (proj1 (proj2 (Hfit ltac:(lia)))) |].
  apply Hwrap. lia.
Defined.

(** X2: with header sizes that are not negative, [COMPRESS_CHUNK_BOUND] is 0
    as soon as the number of collections is not positive, the chunk is
    smaller than its collection headers or larger than the largest entity;
    any other result is a multiple of four that covers the header, the
    collection fields and the chunk and does not exceed the largest
    entity. *)
Theorem COMPRESS_CHUNK_BOUND_range `{cmp_entity_sizes}
    (chunk_size num_col : Z) :
  0 <= NON_IMAGETTE_HEADER_SIZE -> 0 <= CMP_COLLECTION_FILD_SIZE ->
  0 <= COLLECTION_HDR_SIZE ->
  let b := COMPRESS_CHUNK_BOUND chunk_size num_col in
  (num_col <= 0 \/ chunk_size < COLLECTION_HDR_SIZE * num_col
   \/ CMP_ENTITY_MAX_SIZE < chunk_size -> b = 0) /\
  (b <> 0 ->
   b mod 4 = 0 /\
   NON_IMAGETTE_HEADER_SIZE + num_col * CMP_COLLECTION_FILD_SIZE + chunk_size
   <= b <= CMP_ENTITY_MAX_SIZE /\
   b < NON_IMAGETTE_HEADER_SIZE + num_col * CMP_COLLECTION_FILD_SIZE
       + chunk_size + 4).
Proof.
  intros Hh Hf Hc. cbv zeta. unfold COMPRESS_CHUNK_BOUND.
  destruct (Z.gtb_spec num_col 0) as [Hn | Hn];
    [| split; [reflexivity | intros Hb; contradiction Hb; reflexivity]].
  destruct (num_col <=? _); cbn [andb];
    [| split; [reflexivity | intros Hb; contradiction Hb; reflexivity]].
  destruct (Z.geb_spec chunk_size (COLLECTION_HDR_SIZE * num_col))
    as [Hcs | Hcs]; cbn [andb];
    [| split; [reflexivity | intros Hb; contradiction Hb; reflexivity]].
  destruct (Z.leb_spec chunk_size CMP_ENTITY_MAX_SIZE) as [Hmax | Hmax];
    cbn [andb];
    [| split; [reflexivity | intros Hb; contradiction Hb; reflexivity]].
  destruct (Z.leb_spec (COMPRESS_CHUNK_BOUND_UNSAFE chunk_size num_col)
              CMP_ENTITY_MAX_SIZE) as [Hb | Hb];
    [| split; [reflexivity | intros Hb'; contradiction Hb'; reflexivity]].
  split; [intros [? | [? | ?]]; nia |].
  intros _. unfold COMPRESS_CHUNK_BOUND_UNSAFE in *.
  assert (Hx : 0 <= NON_IMAGETTE_HEADER_SIZE
                    + num_col * CMP_COLLECTION_FILD_SIZE + chunk_size) by nia.
  destruct (ROUND_UP_TO_4_bounds _ Hx) as (Hm & Hr).
  repeat split; lia.
Qed.

Lemma COMPRESS_CHUNK_BOUND_range_witness :
  let S := Build_cmp_entity_sizes 32 2 12 16777215 in
  0 <= @NON_IMAGETTE_HEADER_SIZE S /\
  0 <= @CMP_COLLECTION_FILD_SIZE S /\ 0 <= @COLLECTION_HDR_SIZE S /\
  @COMPRESS_CHUNK_BOUND S 1000 3 = 1040 /\
  @COMPRESS_CHUNK_BOUND S 1000 3 mod 4 = 0.
Proof.
  intros S.
  assert (H1 : 0 <= @NON_IMAGETTE_HEADER_SIZE S) by (simpl; lia).
  assert (H2 : 0 <= @CMP_COLLECTION_FILD_SIZE S) by (simpl; lia).
  assert (H3 : 0 <= @COLLECTION_HDR_SIZE S) by (simpl; lia).
  do 3 (split; [assumption |]). split; [reflexivity |].
  refine (proj1 (proj2 (@COMPRESS_CHUNK_BOUND_range S 1000 3 H1 H2 H3) _)).
  vm_compute. discriminate.
Defined.

(** ** Rice codewords and the raw bits of the multi escape mechanism *)

Lemma lor_disjoint_add (a r n : Z) :
  0 <= n -> 0 <= r < 2 ^ n -> Z.lor (a * 2 ^ n) r = a * 2 ^ n + r.
Proof.
  intros Hn Hr.
  assert (Hland : Z.land (a * 2 ^ n) r = 0).
  { apply Z.bits_inj'. intros i Hi. rewrite Z.land_spec, Z.bits_0.
    destruct (Z_lt_le_dec i n) as [Hlt | Hge].
    - rewrite Z.mul_pow2_bits_low by lia. reflexivity.
    - rewrite andb_comm.
      destruct (Z.eq_dec r 0) as [-> | Hr0];
        [rewrite Z.bits_0; reflexivity |].
      assert (Hni : 2 ^ n <= 2 ^ i) by (apply Z.pow_le_mono_r; lia).
      rewrite Z.bits_above_log2; [reflexivity | lia |].
      apply Z.log2_lt_pow2; lia. }
  pose proof (Z.add_lor_land (a * 2 ^ n) r) as Hadd.
  lia.
Qed.

Lemma land_pow2_minus_1 (u k : Z) :
  0 <= k -> Z.land u (2 ^ k - 1) = u mod 2 ^ k.
Proof.
  intros Hk. rewrite <- Z.land_ones by lia.
  rewrite Z.ones_equiv. reflexivity.
Qed.

(** The Rice codeword of a value with quotient [q = u / 2 ^ k], as long as
    it fits in 32 bits. *)
Lemma Rice_encoder_formula (u k : Z) :
  0 <= k -> 0 <= u < 2 ^ 32 -> u / 2 ^ k + k + 1 <= 32 ->
  Rice_encoder u (2 ^ k) k
  = (u / 2 ^ k + k + 1,
     (2 ^ (u / 2 ^ k) - 1) * 2 ^ (k + 1) + u mod 2 ^ k).
Proof.
  intros Hk Hu Hlen.
  assert (Hpk : 0 < 2 ^ k) by (apply Z.pow_pos_nonneg; lia).
  set (q := u / 2 ^ k) in *.
  assert (Hq : 0 <= q) by (apply Z.div_pos; lia).
  assert (Hpq : 0 < 2 ^ q) by (apply Z.pow_pos_nonneg; lia).
  assert (Hqk : 2 ^ q * 2 ^ (k + 1) <= 2 ^ 32).
  { rewrite <- Z.pow_add_r by lia. apply Z.pow_le_mono_r; lia. }
  assert (Hk1 : 2 ^ (k + 1) = 2 * 2 ^ k)
    by (rewrite Z.pow_add_r by lia; lia).
  unfold Rice_encoder, shr32.
  rewrite Z.shiftr_div_pow2 by lia. fold q.
  rewrite (add32_small k 1) by lia.
  rewrite (shl32_small 1 q) by lia. rewrite Z.mul_1_l.
  rewrite (sub32_small (2 ^ q) 1) by nia.
  rewrite (sub32_small (2 ^ k) 1) by nia.
  rewrite (shl32_small (2 ^ q - 1) (k + 1)) by nia.
  rewrite land_pow2_minus_1 by lia.
  pose proof (Z.mod_pos_bound u (2 ^ k) Hpk) as Hr.
  rewrite lor_disjoint_add by lia.
  rewrite add32_small by lia.
  f_equal. lia.
Qed.

(** X3: for a Golomb parameter [m = 2 ^ k] [select_encoder] chooses the Rice
    encoder; for a value [u] with quotient [q = u / m] whose codeword fits in
    32 bits the encoder returns the length [q + k + 1] and the codeword made
    of [q] one bits, a zero bit and the remainder [u mod m] in [k] bits. *)
Theorem Rice_encoder_codeword (u k : Z) :
  0 <= k <= 31 -> 0 <= u < 2 ^ 32 -> u / 2 ^ k + k + 1 <= 32 ->
  let m := 2 ^ k in
  let q := u / m in
  select_encoder m = Some Rice_ptr /\
  fst (Rice_encoder u m (ilog_2 m)) = q + k + 1 /\
  snd (Rice_encoder u m (ilog_2 m))
  = (2 ^ q - 1) * 2 ^ (k + 1) + u mod m /\
  0 <= snd (Rice_encoder u m (ilog_2 m)) < 2 ^ (q + k + 1) /\
  Z.testbit (snd (Rice_encoder u m (ilog_2 m))) k = false.
Proof.
  intros Hk Hu Hlen. cbv zeta.
  assert (Hpk : 0 < 2 ^ k) by (apply Z.pow_pos_nonneg; lia).
  assert (Hlog : ilog_2 (2 ^ k) = k) by (apply Z.log2_pow2; lia).
  rewrite Hlog, Rice_encoder_formula by lia. cbn [fst snd].
  set (q := u / 2 ^ k) in *.
  assert (Hq : 0 <= q) by (apply Z.div_pos; lia).
  assert (Hpq : 0 < 2 ^ q) by (apply Z.pow_pos_nonneg; lia).
  pose proof (Z.mod_pos_bound u (2 ^ k) Hpk) as Hr.
  assert (Hk1 : 2 ^ (k + 1) = 2 * 2 ^ k)
    by (rewrite Z.pow_add_r by lia; lia).
  assert (Hqk : 2 ^ (q + k + 1) = 2 ^ q * 2 ^ (k + 1)).
  { rewrite <- Z.pow_add_r by lia. f_equal; lia. }
  split.
  { unfold select_encoder, is_a_pow_of_2.
    destruct (Z.eqb_spec (2 ^ k) 0); [lia |].
    fold (ilog_2 (2 ^ k)). rewrite Hlog.
    assert ((0 <? 2 ^ k) = true) as -> by (apply Z.ltb_lt; lia).
    rewrite Z.eqb_refl. reflexivity. }
  split; [reflexivity |]. split; [reflexivity |].
  split; [nia |].
  rewrite Z.testbit_eqb by lia.
  replace ((2 ^ q - 1) * 2 ^ (k + 1) + u mod 2 ^ k)
    with (u mod 2 ^ k + (2 * (2 ^ q - 1)) * 2 ^ k) by lia.
  rewrite Z.div_add by lia. rewrite Z.div_small by lia.
  rewrite Z.add_0_l, Z.mul_comm, Z.mod_mul by lia. reflexivity.
Qed.

Lemma Rice_encoder_codeword_witness :
  0 <= 2 <= 31 /\ 0 <= 13 < 2 ^ 32 /\ 13 / 2 ^ 2 + 2 + 1 <= 32 /\
  Rice_encoder 13 4 (ilog_2 4) = (6, 57).
Proof.
  assert (Hk : 0 <= 2 <= 31) by lia.
  assert (Hu : 0 <= 13 < 2 ^ 32) by lia.
  assert (Hl : 13 / 2 ^ 2 + 2 + 1 <= 32) by (vm_compute; discriminate).
  do 3 (split; [assumption |]).
  destruct (Rice_encoder_codeword 13 2 Hk Hu Hl) as (_ & Hf & Hs & _).
  change (2 ^ 2) with 4 in Hf, Hs.
  rewrite (surjective_pairing (Rice_encoder 13 4 (ilog_2 4))), Hf, Hs.
  reflexivity.
Defined.

(** X4: Rice codewords that fit in 32 bits tell the values apart: two
    different values never have the same length and the same codeword. *)
Theorem Rice_encoder_injective (u u' k : Z) :
  0 <= k -> 0 <= u < 2 ^ 32 -> 0 <= u' < 2 ^ 32 ->
  u / 2 ^ k + k + 1 <= 32 -> u' / 2 ^ k + k + 1 <= 32 ->
  u <> u' ->
  Rice_encoder u (2 ^ k) k <> Rice_encoder u' (2 ^ k) k.
Proof.
  intros Hk Hu Hu' Hl Hl' Hne Heq. apply Hne.
  rewrite !Rice_encoder_formula in Heq by lia.
  inversion Heq as [[Hq Hcw]].
  assert (Hpk : 0 < 2 ^ k) by (apply Z.pow_pos_nonneg; lia).
  assert (Hqq : u / 2 ^ k = u' / 2 ^ k) by lia.
  rewrite Hqq in Hcw.
  assert (Hr : u mod 2 ^ k = u' mod 2 ^ k) by lia.
  rewrite (Z.div_mod u (2 ^ k)), (Z.div_mod u' (2 ^ k)) by lia.
  rewrite Hqq, Hr. reflexivity.
Qed.

Lemma Rice_encoder_injective_witness :
  0 <= 2 /\ 0 <= 13 < 2 ^ 32 /\ 0 <= 14 < 2 ^ 32 /\
  13 / 2 ^ 2 + 2 + 1 <= 32 /\ 14 / 2 ^ 2 + 2 + 1 <= 32 /\ 13 <> 14 /\
  Rice_encoder 13 (2 ^ 2) 2 <> Rice_encoder 14 (2 ^ 2) 2.
Proof.
  assert (Hk : 0 <= 2) by lia.
  assert (Hu : 0 <= 13 < 2 ^ 32) by lia.
  assert (Hu' : 0 <= 14 < 2 ^ 32) by lia.
  assert (Hl : 13 / 2 ^ 2 + 2 + 1 <= 32) by (vm_compute; discriminate).
  assert (Hl' : 14 / 2 ^ 2 + 2 + 1 <= 32) by (vm_compute; discriminate).
  assert (Hne : 13 <> 14) by lia.
  do 6 (split; [assumption |]).
  exact (Rice_encoder_injective 13 14 2 Hk Hu Hu' Hl Hl' Hne).
Defined.

(** The Golomb codeword for a parameter [m] with integer logarithm [k],
    power of two or not, as long as it fits in 32 bits. *)
Lemma Golomb_encoder_formula (u m k : Z) :
  0 <= k <= 31 -> 2 ^ k <= m < 2 ^ (k + 1) -> 0 <= u < 2 ^ 32 ->
  let c := 2 ^ (k + 1) - m in
  let g := (u - c) / m in
  0 < c <= m /\
  (u < c -> Golomb_encoder u m k = (k + 1, u)) /\
  (c <= u -> g + k + 2 <= 32 ->
   0 <= g /\ 0 <= u - c - g * m < m /\
   Golomb_encoder u m k
   = (g + k + 2, (2 ^ g - 1) * 2 ^ (k + 2) + (c * 2 + (u - c - g * m)))).
Proof.
  intros Hk Hm Hu. cbv zeta.
  assert (Hpow : 2 ^ (k + 1) = 2 * 2 ^ k)
    by (rewrite Z.pow_add_r by lia; lia).
  assert (Hpow2 : 2 ^ (k + 2) = 4 * 2 ^ k)
    by (rewrite Z.pow_add_r by lia; lia).
  assert (Hp1 : 1 <= 2 ^ k) by (pose proof (Z.pow_pos_nonneg 2 k); lia).
  assert (Hk32 : 2 ^ k < 2 ^ 32) by (apply Z.pow_lt_mono_r; lia).
  assert (Hlen0 : add32 k 1 = k + 1) by (apply add32_small; lia).
  assert (Hcut : sub32 (shl32 1 (add32 k 1)) m = 2 ^ (k + 1) - m).
  { rewrite Hlen0. unfold sub32, shl32, u32, wrap.
    rewrite Z.shiftl_1_l, Zminus_mod_idemp_l.
    apply Z.mod_small. lia. }
  split; [lia |].
  unfold Golomb_encoder. rewrite Hcut, Hlen0.
  destruct (Z.eqb_spec (2 ^ (k + 1) - m) 0) as [Hc0 | _]; [lia |].
  set (c := 2 ^ (k + 1) - m) in *.
  split.
  { intros Hlt. apply Z.ltb_lt in Hlt. rewrite Hlt. reflexivity. }
  intros Hge Hlen. apply Z.ltb_ge in Hge as Hge'. rewrite Hge'.
  rewrite (sub32_small u c) by lia.
  set (g := (u - c) / m) in *.
  assert (Hdm : u - c = m * g + (u - c) mod m) by (apply Z.div_mod; lia).
  pose proof (Z.mod_pos_bound (u - c) m ltac:(lia)) as Hrem.
  assert (Hg0 : 0 <= g) by (apply Z.div_pos; lia).
  assert (Hgp : 2 ^ g * 2 ^ (k + 2) <= 2 ^ 32).
  { rewrite <- Z.pow_add_r by lia. apply Z.pow_le_mono_r; lia. }
  assert (Hg1 : 0 < 2 ^ g) by (apply Z.pow_pos_nonneg; lia).
  rewrite Hpow2 in Hgp.
  assert (Hg8 : 2 ^ g * 4 <= 2 ^ 32) by nia.
  split; [exact Hg0 |]. split; [lia |].
  rewrite (add32_small (k + 1) g) by lia.
  rewrite (add32_small (k + 1 + g) 1) by lia.
  rewrite (add32_small (k + 1) 1) by lia.
  replace (k + 1 + 1) with (k + 2) by lia.
  rewrite (shl32_small 1 g) by lia.
  rewrite Z.mul_1_l, (sub32_small (2 ^ g) 1) by lia.
  set (P := 2 ^ g) in *. set (K := 2 ^ k) in *.
  assert (HPK : 0 <= (P - 1) * (4 * K) <= P * (4 * K) - 4 * K) by nia.
  assert (Hgm : 0 <= g * m <= u - c) by nia.
  rewrite (shl32_small (P - 1) (k + 2)) by (rewrite ?Hpow2; lia).
  rewrite (shl32_small c 1) by (rewrite ?Z.pow_1_r; lia).
  rewrite Z.pow_1_r, Hpow2.
  rewrite (mul32_small g m) by lia.
  rewrite (add32_small _ (c * 2)) by lia.
  unfold sub32, add32, u32, wrap.
  rewrite Zminus_mod_idemp_l.
  rewrite Z.mod_small by lia. f_equal; lia.
Qed.

(** X5: on a power of two the Golomb encoder gives the Rice codeword, for
    every value whose codeword fits in 32 bits; its branch for a cutoff of
    zero is not needed for that. *)
Theorem Golomb_encoder_pow2_is_Rice (u k : Z) :
  0 <= k <= 31 -> 0 <= u < 2 ^ 32 -> u / 2 ^ k + k + 1 <= 32 ->
  Golomb_encoder u (2 ^ k) k = Rice_encoder u (2 ^ k) k.
Proof.
  intros Hk Hu Hlen.
  assert (Hpk : 0 < 2 ^ k) by (apply Z.pow_pos_nonneg; lia).
  assert (Hpow : 2 ^ (k + 1) = 2 * 2 ^ k)
    by (rewrite Z.pow_add_r by lia; lia).
  assert (Hpow2 : 2 ^ (k + 2) = 4 * 2 ^ k)
    by (rewrite Z.pow_add_r by lia; lia).
  rewrite Rice_encoder_formula by lia.
  destruct (Golomb_encoder_formula u (2 ^ k) k Hk ltac:(lia) Hu)
    as (_ & Hlow & Hhigh).
  replace (2 ^ (k + 1) - 2 ^ k) with (2 ^ k) in Hlow, Hhigh by lia.
  destruct (Z_lt_le_dec u (2 ^ k)) as [Hlt | Hge].
  - rewrite (Hlow Hlt), Z.div_small, Z.mod_small by lia.
    f_equal; lia.
  - assert (Hq : (u - 2 ^ k) / 2 ^ k = u / 2 ^ k - 1).
    { replace (u - 2 ^ k) with (u + (-1) * 2 ^ k) by lia.
      rewrite Z.div_add by lia. lia. }
    rewrite Hq in Hhigh.
    assert (Hq1 : 1 <= u / 2 ^ k)
      by (apply Z.div_le_lower_bound; lia).
    destruct (Hhigh Hge ltac:(lia)) as (_ & _ & ->).
    set (q := u / 2 ^ k) in *.
    assert (Hpq : 2 ^ q = 2 * 2 ^ (q - 1)).
    { replace q with (1 + (q - 1)) at 1 by lia.
      rewrite Z.pow_add_r by lia. lia. }
    assert (Hmod : u mod 2 ^ k = u - q * 2 ^ k)
      by (unfold q; rewrite Z.mod_eq by lia; lia).
    f_equal; [lia |].
    rewrite Hpow, Hpow2, Hpq, Hmod. lia.
Qed.

Lemma Golomb_encoder_pow2_is_Rice_witness :
  0 <= 2 <= 31 /\ 0 <= 13 < 2 ^ 32 /\ 13 / 2 ^ 2 + 2 + 1 <= 32 /\
  Golomb_encoder 13 (2 ^ 2) 2 = Rice_encoder 13 (2 ^ 2) 2.
Proof.
  assert (Hk : 0 <= 2 <= 31) by lia.
  assert (Hu : 0 <= 13 < 2 ^ 32) by lia.
  assert (Hl : 13 / 2 ^ 2 + 2 + 1 <= 32) by (vm_compute; discriminate).
  do 3 (split; [assumption |]).
  exact (Golomb_encoder_pow2_is_Rice 13 2 Hk Hu Hl).
Defined.

(** X6: Golomb codewords that fit in 32 bits tell the values apart as
    well, for a parameter [m] with integer logarithm [k]. *)
Theorem Golomb_encoder_injective (u u' m k : Z) :
  0 <= k <= 31 -> 2 ^ k <= m < 2 ^ (k + 1) ->
  0 <= u < 2 ^ 32 -> 0 <= u' < 2 ^ 32 ->
  (u - (2 ^ (k + 1) - m)) / m + k + 2 <= 32 ->
  (u' - (2 ^ (k + 1) - m)) / m + k + 2 <= 32 ->
  u <> u' ->
  Golomb_encoder u m k <> Golomb_encoder u' m k.
Proof.
  intros Hk Hm Hu Hu' Hl Hl' Hne Heq. apply Hne.
  destruct (Golomb_encoder_formula u m k Hk Hm Hu) as (Hc & Hlow & Hhigh).
  destruct (Golomb_encoder_formula u' m k Hk Hm Hu') as (_ & Hlow' & Hhigh').
  set (c := 2 ^ (k + 1) - m) in *.
  assert (Hp : 0 < 2 ^ (k + 2)) by (apply Z.pow_pos_nonneg; lia).
  assert (Hpow2 : 2 ^ (k + 2) = 2 * 2 ^ (k + 1))
    by (replace (k + 2) with (1 + (k + 1)) by lia;
        rewrite Z.pow_add_r by lia; lia).
  destruct (Z_lt_le_dec u c) as [Hlt | Hge];
    destruct (Z_lt_le_dec u' c) as [Hlt' | Hge'].
  - rewrite (Hlow Hlt), (Hlow' Hlt') in Heq. congruence.
  - destruct (Hhigh' Hge' Hl') as (Hg' & _ & E').
    rewrite (Hlow Hlt), E' in Heq. inversion Heq. lia.
  - destruct (Hhigh Hge Hl) as (Hg & _ & E).
    rewrite E, (Hlow' Hlt') in Heq. inversion Heq. lia.
  - destruct (Hhigh Hge Hl) as (Hg & Hr & E).
    destruct (Hhigh' Hge' Hl') as (Hg' & Hr' & E').
    rewrite E, E' in Heq. inversion Heq as [[Hgg Hcw]].
    assert (Hgeq : (u - c) / m = (u' - c) / m) by lia.
    rewrite Hgeq in *. lia.
Qed.

Lemma Golomb_encoder_injective_witness :
  0 <= 1 <= 31 /\ 2 ^ 1 <= 3 < 2 ^ (1 + 1) /\
  Golomb_encoder 2 3 1 <> Golomb_encoder 5 3 1.
Proof.
  assert (Hk : 0 <= 1 <= 31) by lia.
  assert (Hm : 2 ^ 1 <= 3 < 2 ^ (1 + 1)) by lia.
  do 2 (split; [assumption |]).
  apply (Golomb_encoder_injective 2 5 3 1 Hk Hm); try lia;
    vm_compute; discriminate.
Defined.

Lemma log2_half (d j : Z) :
  0 <= j -> 2 ^ (2 * j) <= d < 2 ^ (2 * j + 2) -> Z.log2 d / 2 = j.
Proof.
  intros Hj [Hlo Hhi].
  assert (Hd : 0 < d) by (pose proof (Z.pow_pos_nonneg 2 (2 * j)); lia).
  apply (Z.log2_le_pow2 d (2 * j) Hd) in Hlo.
  apply (Z.log2_lt_pow2 d (2 * j + 2) Hd) in Hhi.
  zlia.
Qed.

(** X7: the offset of the multi escape mechanism is half the integer
    logarithm of the unencoded data, rounded down.  The [(offset + 1) * 2]
    bits written for the data therefore hold all of it, and two bits less
    would not. *)
Theorem cal_multi_offset_log2 (d : Z) :
  0 <= d < 2 ^ 32 ->
  cal_multi_offset d = Z.log2 d / 2 /\
  d < 2 ^ ((cal_multi_offset d + 1) * 2) /\
  (0 < cal_multi_offset d -> 2 ^ (cal_multi_offset d * 2) <= d).
Proof.
  intros Hd.
  assert (Hlog : cal_multi_offset d = Z.log2 d / 2).
  { destruct (Z.eq_dec d 0) as [-> | Hnz]; [reflexivity |].
    unfold cal_multi_offset.
    repeat (match goal with
            | |- context [?a <=? ?b] => destruct (Z.leb_spec a b)
            end);
      symmetry; apply log2_half; lia. }
  assert (Hr := cal_multi_offset_range d).
  destruct (Z.eq_dec d 0) as [-> | Hnz].
  { split; [reflexivity |]. split; [reflexivity |]. cbn. lia. }
  assert (Hpos : 0 < d) by lia.
  pose proof (Z.log2_nonneg d) as Hl0.
  split; [exact Hlog |]. rewrite Hlog. split.
  - apply Z.log2_lt_pow2; [lia | zlia].
  - intros _. apply Z.log2_le_pow2; [lia | zlia].
Qed.

Lemma cal_multi_offset_log2_witness :
  0 <= 1000 < 2 ^ 32 /\
  cal_multi_offset 1000 = 4 /\ 1000 < 2 ^ 10 /\ 2 ^ 8 <= 1000.
Proof.
  assert (Hd : 0 <= 1000 < 2 ^ 32) by lia.
  destruct (cal_multi_offset_log2 1000 Hd) as (H1 & H2 & H3).
  split; [exact Hd |]. split; [reflexivity |].
  split; [exact H2 | apply H3; reflexivity].
Defined.

(** X19: the Rice codewords that fit in 32 bits form a prefix code: the
    codeword of one value is the beginning of the codeword of another
    value in no case, so that the end of a codeword can be read off the
    bitstream. *)
Theorem Rice_encoder_prefix_free (u u' k : Z) :
  0 <= k -> 0 <= u < 2 ^ 32 -> 0 <= u' < 2 ^ 32 ->
  u / 2 ^ k + k + 1 <= 32 -> u' / 2 ^ k + k + 1 <= 32 ->
  let c := Rice_encoder u (2 ^ k) k in
  let c' := Rice_encoder u' (2 ^ k) k in
  u <> u' -> fst c <= fst c' -> snd c' / 2 ^ (fst c' - fst c) <> snd c.
Proof.
  intros Hk Hu Hu' Hl Hl'. cbv zeta. intros Hdiff Hfst Hsnd.
  apply Hdiff. revert Hfst Hsnd.
  rewrite !Rice_encoder_formula by lia. cbn [fst snd].
  assert (HK : 0 < 2 ^ k) by (apply Z.pow_pos_nonneg; lia).
  assert (Hq : 0 <= u / 2 ^ k) by (apply Z.div_pos; lia).
  assert (Hq' : 0 <= u' / 2 ^ k) by (apply Z.div_pos; lia).
  pose proof (Z.mod_pos_bound u (2 ^ k) HK) as Hr.
  pose proof (Z.mod_pos_bound u' (2 ^ k) HK) as Hr'.
  pose proof (Z.div_mod u (2 ^ k) ltac:(lia)) as Hdu.
  pose proof (Z.div_mod u' (2 ^ k) ltac:(lia)) as Hdu'.
  set (q := u / 2 ^ k) in *. set (q' := u' / 2 ^ k) in *.
  set (r := u mod 2 ^ k) in *. set (r' := u' mod 2 ^ k) in *.
  assert (HK1 : 2 ^ (k + 1) = 2 * 2 ^ k)
    by (rewrite Z.pow_add_r by lia; lia).
  rewrite HK1. set (K := 2 ^ k) in *.
  intros Hle Hpre.
  destruct (Z.eq_dec q q') as [Heq | Hne].
  - rewrite Heq in Hpre.
    replace (q' + k + 1 - (q' + k + 1)) with 0 in Hpre by lia.
    rewrite Z.div_1_r in Hpre. nia.
  - exfalso.
    replace (q' + k + 1 - (q + k + 1)) with (q' - q) in Hpre by lia.
    assert (HD : 2 <= 2 ^ (q' - q)).
    { change 2 with (2 ^ 1) at 1. apply Z.pow_le_mono_r; lia. }
    assert (HP : 0 < 2 ^ q) by (apply Z.pow_pos_nonneg; lia).
    assert (HP' : 2 ^ q' = 2 ^ q * 2 ^ (q' - q))
      by (rewrite <- Z.pow_add_r by lia; f_equal; lia).
    set (P := 2 ^ q) in *. set (D := 2 ^ (q' - q)) in *.
    assert (Hlow : 2 * P * K - K
                   <= ((2 ^ q' - 1) * (2 * K) + r') / D).
    { apply Z.div_le_lower_bound; [lia |]. rewrite HP'. nia. }
    nia.
Qed.

Lemma Rice_encoder_prefix_free_witness :
  fst (Rice_encoder 2 (2 ^ 2) 2) <= fst (Rice_encoder 13 (2 ^ 2) 2) /\
  snd (Rice_encoder 13 (2 ^ 2) 2)
  / 2 ^ (fst (Rice_encoder 13 (2 ^ 2) 2) - fst (Rice_encoder 2 (2 ^ 2) 2))
  <> snd (Rice_encoder 2 (2 ^ 2) 2).
Proof.
  assert (Hk : 0 <= 2) by lia.
  assert (Hu : 0 <= 2 < 2 ^ 32) by lia.
  assert (Hu' : 0 <= 13 < 2 ^ 32) by lia.
  assert (Hl : 2 / 2 ^ 2 + 2 + 1 <= 32) by (vm_compute; discriminate).
  assert (Hl' : 13 / 2 ^ 2 + 2 + 1 <= 32) by (vm_compute; discriminate).
  assert (Hne : 2 <> 13) by lia.
  assert (Hle : fst (Rice_encoder 2 (2 ^ 2) 2)
                <= fst (Rice_encoder 13 (2 ^ 2) 2))
    by (vm_compute; discriminate).
  split; [exact Hle |].
  exact (Rice_encoder_prefix_free 2 13 2 Hk Hu Hu' Hl Hl' Hne Hle).
Defined.

(** ** The bit packer, bit by bit *)

Lemma u32_bit (x t : Z) : Z.testbit (u32 x) t = (t <? 32) && Z.testbit x t.
Proof. unfold u32, wrap. apply Z.testbit_mod_pow2. lia. Qed.

Lemma shl32_bit (x s t : Z) :
  0 <= t -> Z.testbit (shl32 x s) t = (t <? 32) && Z.testbit x (t - s).
Proof.
  intros Ht. unfold shl32. rewrite u32_bit, Z.shiftl_spec by lia.
  reflexivity.
Qed.

Lemma not32_bit (m t : Z) :
  0 <= m < 2 ^ 32 -> 0 <= t < 32 ->
  Z.testbit (not32 m) t = negb (Z.testbit m t).
Proof.
  intros Hm Ht.
  assert (E : not32 m = Z.lnot m mod 2 ^ 32).
  { unfold not32, Z.lnot. change 0xffffffff with (2 ^ 32 - 1).
    unfold Z.pred. apply Z.mod_unique with (q := -1); [left |]; lia. }
  rewrite E, Z.mod_pow2_bits_low, Z.lnot_spec by lia. reflexivity.
Qed.

Lemma high_bit_false (x t : Z) :
  0 <= x < 2 ^ 32 -> 32 <= t -> Z.testbit x t = false.
Proof.
  intros Hx Ht. rewrite <- (Z.mod_small x (2 ^ 32)) by lia.
  apply Z.mod_pow2_bits_high. lia.
Qed.

Lemma range_of_bits (x : Z) :
  0 <= x -> (forall t, 32 <= t -> Z.testbit x t = false) -> x < 2 ^ 32.
Proof.
  intros Hx Hhigh.
  assert (E : x mod 2 ^ 32 = x).
  { apply Z.bits_inj'. intros t Ht. rewrite Z.testbit_mod_pow2 by lia.
    destruct (Z.ltb_spec t 32); [reflexivity |].
    rewrite Hhigh by lia. reflexivity. }
  rewrite <- E. apply Z.mod_pos_bound. lia.
Qed.

(** A word after [w &= ~mask; w |= v]. *)
Lemma merge_range (w m v : Z) :
  0 <= w < 2 ^ 32 -> 0 <= v < 2 ^ 32 ->
  0 <= Z.lor (Z.land w m) v < 2 ^ 32.
Proof.
  intros Hw Hv.
  assert (H0 : 0 <= Z.lor (Z.land w m) v).
  { apply Z.lor_nonneg. split; [apply Z.land_nonneg |]; lia. }
  split; [exact H0 |]. apply range_of_bits; [exact H0 |].
  intros t Ht. rewrite Z.lor_spec, Z.land_spec.
  rewrite (high_bit_false w t), (high_bit_false v t) by lia.
  reflexivity.
Qed.

Lemma merge_bit (w m v t : Z) :
  0 <= m < 2 ^ 32 -> 0 <= t < 32 ->
  Z.testbit (Z.lor (Z.land w (not32 m)) v) t
  = (Z.testbit w t && negb (Z.testbit m t)) || Z.testbit v t.
Proof.
  intros Hm Ht. rewrite Z.lor_spec, Z.land_spec, not32_bit by lia.
  reflexivity.
Qed.

Lemma ones_shr32 (s : Z) :
  0 <= s <= 32 -> shr32 0xffffffff s = Z.ones (32 - s).
Proof.
  intros Hs. unfold shr32. change 0xffffffff with (Z.ones 32).
  apply Z.bits_inj'. intros t Ht.
  rewrite Z.shiftr_spec, !Z.testbit_ones_nonneg by lia.
  destruct (Z.ltb_spec (t + s) 32), (Z.ltb_spec t (32 - s)); lia.
Qed.

Lemma shl32_range (x s : Z) : 0 <= shl32 x s < 2 ^ 32.
Proof. unfold shl32. apply u32_range. Qed.

(** The word written when the bits end inside the word they start in. *)
Lemma single_word_bits (w value b n t : Z) :
  0 <= b -> 1 <= n -> b + n <= 32 -> 0 <= t < 32 ->
  let mask0 := shr32 0xffffffff (sub32 32 n) in
  let mask := shl32 mask0 (sub32 (sub32 32 n) b) in
  Z.testbit (Z.lor (Z.land w (not32 mask))
                   (shl32 (Z.land value mask0) (sub32 32 (b + n)))) t
  = if (32 - b - n <=? t) && (t <? 32 - b)
    then Z.testbit value (t - (32 - b - n)) else Z.testbit w t.
Proof.
  intros Hb Hn Hfit Ht. cbv zeta.
  rewrite (sub32_small 32 n), (sub32_small (32 - n) b),
    (sub32_small 32 (b + n)) by lia.
  rewrite ones_shr32 by lia. replace (32 - (32 - n)) with n by lia.
  rewrite merge_bit by (try apply shl32_range; lia).
  rewrite !shl32_bit, Z.land_spec by lia.
  replace (32 - (b + n)) with (32 - n - b) by lia.
  rewrite Z.testbit_ones by lia.
  replace (32 - b - n) with (32 - n - b) by lia.
  destruct (Z.ltb_spec t 32); [| lia].
  destruct (Z.leb_spec 0 (t - (32 - n - b)));
    destruct (Z.ltb_spec (t - (32 - n - b)) n);
    destruct (Z.leb_spec (32 - n - b) t);
    destruct (Z.ltb_spec t (32 - b)); try lia; cbn;
    rewrite ?andb_true_r, ?andb_false_r, ?orb_false_r; try reflexivity;
    destruct (Z.testbit w t); reflexivity.
Qed.

(** The two words written when the bits run over a word boundary. *)
Lemma first_word_bits (w value b n t : Z) :
  0 <= b < 32 -> n <= 32 -> 32 < b + n -> 0 <= t < 32 ->
  let mask0 := shr32 0xffffffff (sub32 32 n) in
  let n2 := sub32 (b + n) 32 in
  Z.testbit (Z.lor (Z.land w (not32 (shr32 0xffffffff b)))
                   (shr32 (Z.land value mask0) n2)) t
  = if t <? 32 - b then Z.testbit value (t + (b + n - 32))
    else Z.testbit w t.
Proof.
  intros Hb Hn Hover Ht. cbv zeta.
  rewrite (sub32_small 32 n), (sub32_small (b + n) 32) by lia.
  rewrite !ones_shr32 by lia. replace (32 - (32 - n)) with n by lia.
  assert (Hones : 0 <= Z.ones (32 - b) < 2 ^ 32).
  { rewrite Z.ones_equiv. pose proof (Z.pow_pos_nonneg 2 (32 - b)).
    assert (2 ^ (32 - b) <= 2 ^ 32) by (apply Z.pow_le_mono_r; lia).
    lia. }
  rewrite merge_bit by lia.
  unfold shr32. rewrite Z.shiftr_spec, Z.land_spec by lia.
  rewrite !Z.testbit_ones_nonneg by lia.
  destruct (Z.ltb_spec t (32 - b));
    destruct (Z.ltb_spec (t + (b + n - 32)) n); try lia; cbn;
    rewrite ?andb_true_r, ?andb_false_r, ?orb_false_r; try reflexivity;
    destruct (Z.testbit w t); reflexivity.
Qed.

Lemma second_word_bits (w value b n t : Z) :
  0 <= b < 32 -> n <= 32 -> 32 < b + n -> 0 <= t < 32 ->
  let mask0 := shr32 0xffffffff (sub32 32 n) in
  let n2 := sub32 (b + n) 32 in
  Z.testbit (Z.lor (Z.land w
                      (not32 (shl32 0xffffffff (sub32 (sub32 64 b) n))))
                   (shl32 (Z.land value mask0) (sub32 32 n2))) t
  = if 64 - b - n <=? t then Z.testbit value (t - (64 - b - n))
    else Z.testbit w t.
Proof.
  intros Hb Hn Hover Ht. cbv zeta.
  rewrite (sub32_small 32 n), (sub32_small (b + n) 32),
    (sub32_small 64 b), (sub32_small (64 - b) n),
    (sub32_small 32 (b + n - 32)) by lia.
  rewrite ones_shr32 by lia. replace (32 - (32 - n)) with n by lia.
  rewrite merge_bit by (try apply shl32_range; lia).
  rewrite !shl32_bit, Z.land_spec by lia.
  change 0xffffffff with (Z.ones 32).
  replace (32 - (b + n - 32)) with (64 - b - n) by lia.
  rewrite !Z.testbit_ones by lia.
  destruct (Z.ltb_spec t 32); [| lia].
  destruct (Z.leb_spec 0 (t - (64 - b - n)));
    destruct (Z.ltb_spec (t - (64 - b - n)) 32);
    destruct (Z.ltb_spec (t - (64 - b - n)) n);
    destruct (Z.leb_spec (64 - b - n) t); try lia; cbn;
    rewrite ?andb_true_r, ?andb_false_r, ?orb_false_r; try reflexivity;
    destruct (Z.testbit w t); reflexivity.
Qed.

Lemma stream_bit_alter (f : Z -> Z) (i : nat) (ws : list Z) (j : Z) :
  stream_bit (alter f i ws) j
  = if decide (i = Z.to_nat (j / 32))
    then Z.testbit (default 0 (f <$> ws !! i)) (31 - j mod 32)
    else stream_bit ws j.
Proof.
  unfold stream_bit. rewrite list_lookup_alter.
  destruct (decide _); reflexivity.
Qed.

Lemma alter_and_or (m v : Z) (i : nat) (ws : list Z) :
  alter (fun w => Z.lor w v) i (alter (fun w => Z.land w m) i ws)
  = alter (fun w => Z.lor (Z.land w m) v) i ws.
Proof. apply list_alter_alter_eq. Qed.

Lemma words32_merge (m v : Z) (i : nat) (ws : list Z) :
  0 <= v < 2 ^ 32 -> words32 ws ->
  words32 (alter (fun w => Z.lor (Z.land w m) v) i ws).
Proof.
  intros Hv Hws. apply Forall_alter; [exact Hws |].
  intros w _ Hw. apply merge_range; assumption.
Qed.

Lemma land_ones_range (x n : Z) :
  0 <= n <= 32 -> 0 <= Z.land x (Z.ones n) < 2 ^ 32.
Proof.
  intros Hn. rewrite Z.land_ones by lia.
  pose proof (Z.mod_pos_bound x (2 ^ n) ltac:(apply Z.pow_pos_nonneg; lia)).
  assert (2 ^ n <= 2 ^ 32) by (apply Z.pow_le_mono_r; lia). lia.
Qed.

Lemma shr32_range (x s : Z) :
  0 <= s -> 0 <= x < 2 ^ 32 -> 0 <= shr32 x s < 2 ^ 32.
Proof.
  intros Hs Hx. unfold shr32. rewrite Z.shiftr_div_pow2 by lia.
  pose proof (Z.pow_pos_nonneg 2 s ltac:(lia) Hs) as Hp.
  split; [apply Z.div_pos; lia |].
  apply Z.le_lt_trans with x; [| lia].
  apply Z.div_le_upper_bound; nia.
Qed.

(** What the write does to the bitstream of a buffer of words. *)
Lemma put_n_bits32_write_stream (value bitOffset nBits : Z) (a : nat)
    (h : store) (ws : list Z) :
  (a < length h)%nat ->
  0 <= bitOffset -> 1 <= nBits <= 32 ->
  bitOffset + nBits <= 32 * Z.of_nat (length ws) ->
  exists ws', length ws' = length ws /\
    put_n_bits32_write value bitOffset nBits (Some a)
                       (<[a := U32 <$> ws]> h)
    = Some (nBits, <[a := U32 <$> ws']> h) /\
    (forall j, 0 <= j < 32 * Z.of_nat (length ws) ->
       stream_bit ws' j
       = if (bitOffset <=? j) && (j <? bitOffset + nBits)
         then Z.testbit value (bitOffset + nBits - 1 - j)
         else stream_bit ws j) /\
    (words32 ws -> words32 ws').
Proof.
  intros Ha Hoff Hn Hfit.
  unfold put_n_bits32_write.
  change (shr32 bitOffset 5) with (Z.shiftr bitOffset 5).
  change 0x1f with (Z.ones 5). rewrite Z.land_ones by lia.
  rewrite Z.shiftr_div_pow2 by lia. change (2 ^ 5) with 32.
  pose proof (Z.mod_pos_bound bitOffset 32 ltac:(lia)) as Hm.
  pose proof (Z.div_mod bitOffset 32 ltac:(lia)) as Hd.
  assert (Hq : 0 <= bitOffset / 32) by (apply Z.div_pos; lia).
  rewrite (add32_small (bitOffset mod 32) nBits) by lia.
  set (b := bitOffset mod 32) in *.
  set (i := Z.to_nat (bitOffset / 32)).
  assert (Hi : (i < length ws)%nat) by (unfold i; lia).
  assert (Hmask0 : shr32 0xffffffff (sub32 32 nBits) = Z.ones nBits).
  { rewrite (sub32_small 32 nBits), ones_shr32 by lia. f_equal. lia. }
  destruct (b + nBits <=? 32) eqn:E.
  - apply Z.leb_le in E.
    rewrite bind_and_assign_words by assumption.
    rewrite bind_or_assign_words
      by (rewrite ?length_alter; assumption).
    rewrite alter_and_or.
    refine (ex_intro _ _ (conj _ (conj eq_refl (conj _ _)))).
    + apply length_alter.
    + intros j Hj. rewrite stream_bit_alter.
      pose proof (Z.mod_pos_bound j 32 ltac:(lia)) as Hjm.
      pose proof (Z.div_mod j 32 ltac:(lia)) as Hjd.
      assert (Hjq : 0 <= j / 32) by (apply Z.div_pos; lia).
      destruct (lookup_lt_is_Some_2 ws i Hi) as [w Hw].
      destruct (decide (i = Z.to_nat (j / 32))) as [Hij | Hij].
      * rewrite Hw. cbn [fmap option_fmap option_map default from_option]; unfold id.
        pose proof (single_word_bits w value b nBits (31 - j mod 32)
                      ltac:(lia) ltac:(lia) E ltac:(lia)) as Hbit.
        cbv zeta in Hbit. rewrite Hbit.
        assert (Hq' : j / 32 = bitOffset / 32) by (unfold i in Hij; lia).
        unfold stream_bit. rewrite <- Hij, Hw. cbn [default from_option]; unfold id.
        destruct (Z.leb_spec (32 - b - nBits) (31 - j mod 32));
          destruct (Z.ltb_spec (31 - j mod 32) (32 - b));
          destruct (Z.leb_spec bitOffset j);
          destruct (Z.ltb_spec j (bitOffset + nBits));
          try lia; cbn [andb]; try reflexivity.
        f_equal. lia.
      * assert (Hq' : j / 32 <> bitOffset / 32) by (unfold i in Hij; lia).
        destruct (Z.leb_spec bitOffset j);
          destruct (Z.ltb_spec j (bitOffset + nBits));
          cbn [andb]; try reflexivity.
        exfalso. apply Hq'. nia.
    + apply words32_merge. apply shl32_range.
  - apply Z.leb_gt in E.
    assert (Hi' : (S i < length ws)%nat) by (unfold i; lia).
    rewrite bind_and_assign_words by assumption.
    rewrite bind_or_assign_words
      by (rewrite ?length_alter; assumption).
    rewrite bind_and_assign_words
      by (rewrite ?length_alter; assumption).
    rewrite bind_or_assign_words
      by (rewrite ?length_alter; assumption).
    rewrite !alter_and_or.
    refine (ex_intro _ _ (conj _ (conj eq_refl (conj _ _)))).
    + rewrite !length_alter. reflexivity.
    + intros j Hj. rewrite !stream_bit_alter.
      pose proof (Z.mod_pos_bound j 32 ltac:(lia)) as Hjm.
      pose proof (Z.div_mod j 32 ltac:(lia)) as Hjd.
      assert (Hjq : 0 <= j / 32) by (apply Z.div_pos; lia).
      destruct (lookup_lt_is_Some_2 ws i Hi) as [w Hw].
      destruct (lookup_lt_is_Some_2 ws (S i) Hi') as [w' Hw'].
      destruct (decide (S i = Z.to_nat (j / 32))) as [Hij' | Hij'].
      * rewrite list_lookup_alter_ne by lia. rewrite Hw'.
        cbn [fmap option_fmap option_map default from_option]; unfold id.
        pose proof (second_word_bits w' value b nBits (31 - j mod 32)
                      ltac:(lia) ltac:(lia) E ltac:(lia)) as Hbit.
        cbv zeta in Hbit. rewrite Hbit.
        assert (Hq' : j / 32 = bitOffset / 32 + 1)
          by (unfold i in Hij'; lia).
        unfold stream_bit. rewrite <- Hij', Hw'. cbn [default from_option]; unfold id.
        destruct (Z.leb_spec (64 - b - nBits) (31 - j mod 32));
          destruct (Z.leb_spec bitOffset j);
          destruct (Z.ltb_spec j (bitOffset + nBits));
          try lia; cbn [andb]; try reflexivity.
        f_equal. lia.
      * destruct (decide (i = Z.to_nat (j / 32))) as [Hij | Hij].
        -- rewrite Hw. cbn [fmap option_fmap option_map default from_option]; unfold id.
           pose proof (first_word_bits w value b nBits (31 - j mod 32)
                         ltac:(lia) ltac:(lia) E ltac:(lia)) as Hbit.
           cbv zeta in Hbit. rewrite Hbit.
           assert (Hq' : j / 32 = bitOffset / 32)
             by (unfold i in Hij; lia).
           unfold stream_bit. rewrite <- Hij, Hw. cbn [default from_option]; unfold id.
           destruct (Z.ltb_spec (31 - j mod 32) (32 - b));
             destruct (Z.leb_spec bitOffset j);
             destruct (Z.ltb_spec j (bitOffset + nBits));
             try lia; cbn [andb]; try reflexivity.
           f_equal. lia.
        -- assert (Hq0 : j / 32 <> bitOffset / 32)
             by (unfold i in Hij; lia).
           assert (Hq1 : j / 32 <> bitOffset / 32 + 1)
             by (unfold i in Hij'; lia).
           destruct (Z.leb_spec bitOffset j);
             destruct (Z.ltb_spec j (bitOffset + nBits));
             cbn [andb]; try reflexivity.
           exfalso. nia.
    + intros Hws. apply words32_merge; [apply shl32_range |].
      apply words32_merge; [| exact Hws].
      apply shr32_range.
      * rewrite (sub32_small (b + nBits) 32) by lia. lia.
      * rewrite Hmask0. apply land_ones_range. lia.
Qed.

Lemma capacity_small (dest_len : Z) :
  0 <= dest_len -> (dest_len + 1) / 2 * 2 * 16 < 2 ^ 32 ->
  mul32 (mul32 (add32 dest_len 1 / 2) 2) 16 = (dest_len + 1) / 2 * 2 * 16.
Proof.
  intros Hlen Hcap.
  assert (Hq : 0 <= (dest_len + 1) / 2) by (apply Z.div_pos; lia).
  assert (Hl : dest_len + 1 < 2 ^ 32) by zlia.
  rewrite (add32_small dest_len 1) by lia.
  rewrite (mul32_small _ 2) by lia.
  apply mul32_small. lia.
Qed.

(** X8: [put_n_bits32] with a length from 1 to 32 that fits the capacity
    puts the [nBits] low bits of the value into the bitstream, most
    significant bit first, at the bits [bitOffset .. bitOffset + nBits - 1],
    where the stream counts from the most significant bit of the first
    word; every other bit of the buffer keeps its value, the buffer keeps
    its length and its words stay 32-bit values. *)
Theorem put_n_bits32_stream (value bitOffset nBits dest_len : Z) (a : nat)
    (h : store) (ws : list Z) :
  h !! a = Some (U32 <$> ws) ->
  0 <= bitOffset -> 1 <= nBits <= 32 -> 0 <= dest_len ->
  (dest_len + 1) / 2 * 2 * 16 < 2 ^ 32 ->
  bitOffset + nBits <= (dest_len + 1) / 2 * 2 * 16 ->
  (dest_len + 1) / 2 * 2 * 16 <= 32 * Z.of_nat (length ws) ->
  exists ws', length ws' = length ws /\
    put_n_bits32 value bitOffset nBits (Some a) dest_len h
    = Some (nBits, <[a := U32 <$> ws']> h) /\
    (forall j, 0 <= j < 32 * Z.of_nat (length ws) ->
       stream_bit ws' j
       = if (bitOffset <=? j) && (j <? bitOffset + nBits)
         then Z.testbit value (bitOffset + nBits - 1 - j)
         else stream_bit ws j) /\
    (words32 ws -> words32 ws').
Proof.
  intros Hb Hoff Hn Hlen Hcap Hfit Hws.
  assert (Ha : (a < length h)%nat) by (apply lookup_lt_Some in Hb; exact Hb).
  destruct (put_n_bits32_write_stream value bitOffset nBits a h ws
              Ha Hoff Hn ltac:(lia)) as (ws' & Hl & Hrun & Hbits & Hr).
  rewrite (list_insert_id h a _ Hb) in Hrun.
  exists ws'. split; [exact Hl |]. split; [| split; assumption].
  unfold put_n_bits32.
  rewrite (add32_small bitOffset nBits), capacity_small by lia.
  destruct (Z.gtb_spec (bitOffset + nBits) ((dest_len + 1) / 2 * 2 * 16));
    [lia |].
  destruct (Z.eqb_spec nBits 0); [lia |].
  destruct (Z.gtb_spec nBits 32); [lia |].
  exact Hrun.
Qed.

Lemma put_n_bits32_stream_witness :
  let h := [[U32 0xffffffff; U32 0]] in
  exists ws', length ws' = 2%nat /\
    put_n_bits32 5 30 3 (Some 0%nat) 4 h
    = Some (3, <[0%nat := U32 <$> ws']> h) /\
    stream_bit ws' 30 = true /\ stream_bit ws' 31 = false /\
    stream_bit ws' 32 = true /\ stream_bit ws' 29 = true /\
    stream_bit ws' 33 = false.
Proof.
  intros h.
  assert (Hb : h !! 0%nat = Some (U32 <$> [0xffffffff; 0]))
    by reflexivity.
  assert (H1 : 0 <= 30) by lia.
  assert (H2 : 1 <= 3 <= 32) by lia.
  assert (H3 : 0 <= 4) by lia.
  assert (H4 : (4 + 1) / 2 * 2 * 16 < 2 ^ 32) by (vm_compute; reflexivity).
  assert (H5 : 30 + 3 <= (4 + 1) / 2 * 2 * 16)
    by (vm_compute; discriminate).
  assert (H6 : (4 + 1) / 2 * 2 * 16
               <= 32 * Z.of_nat (length [0xffffffff; 0]))
    by (vm_compute; discriminate).
  destruct (put_n_bits32_stream 5 30 3 4 0 h [0xffffffff; 0]
              Hb H1 H2 H3 H4 H5 H6) as (ws' & Hl & Hrun & Hbits & _).
  exists ws'. split; [exact Hl |]. split; [exact Hrun |].
  repeat split.
  - rewrite Hbits by (cbn; lia). reflexivity.
  - rewrite Hbits by (cbn; lia). reflexivity.
  - rewrite Hbits by (cbn; lia). reflexivity.
  - rewrite Hbits by (cbn; lia). reflexivity.
  - rewrite Hbits by (cbn; lia). reflexivity.
Defined.

(** ** The entropy encoder on the bitstream *)

Lemma to_signed_neg2U : to_signed 32 neg2U = -2.
Proof. reflexivity. Qed.

Lemma to_signed_small (n : Z) : 0 <= n < 2 ^ 31 -> to_signed 32 n = n.
Proof.
  intros Hn. unfold to_signed. change (2 ^ (32 - 1)) with (2 ^ 31).
  destruct (Z.ltb_spec n (2 ^ 31)); [reflexivity | lia].
Qed.

(** The three guards of [put_n_bits32] when nothing wraps. *)
Lemma put_n_bits32_guards (value off n : Z) (p : ptr) (dest_len : Z) :
  0 <= off -> 0 <= n -> off + n < 2 ^ 32 ->
  0 <= dest_len -> (dest_len + 1) / 2 * 2 * 16 < 2 ^ 32 ->
  put_n_bits32 value off n p dest_len
  = if off + n >? (dest_len + 1) / 2 * 2 * 16 then ret neg2U
    else if n =? 0 then ret 0
    else if n >? 32 then ret 0
    else put_n_bits32_write value off n p.
Proof.
  intros Hoff Hn Hsum Hlen Hcap. unfold put_n_bits32.
  rewrite (add32_small off n), capacity_small by lia. reflexivity.
Qed.

Lemma put_n_bits32_fits (value off n dest_len : Z) (a : nat) (h : store)
    (ws : list Z) :
  h !! a = Some (U32 <$> ws) ->
  0 <= off -> 1 <= n <= 32 -> 0 <= dest_len ->
  (dest_len + 1) / 2 * 2 * 16 < 2 ^ 32 ->
  off + n <= (dest_len + 1) / 2 * 2 * 16 ->
  (dest_len + 1) / 2 * 2 * 16 <= 32 * Z.of_nat (length ws) ->
  exists ws', length ws' = length ws /\
    put_n_bits32 value off n (Some a) dest_len h
    = Some (n, <[a := U32 <$> ws']> h) /\
    (forall j, 0 <= j < 32 * Z.of_nat (length ws) ->
       stream_bit ws' j
       = if (off <=? j) && (j <? off + n)
         then Z.testbit value (off + n - 1 - j)
         else stream_bit ws j).
Proof.
  intros Hb Hoff Hn Hlen Hcap Hfit Hws.
  assert (Ha : (a < length h)%nat) by (apply lookup_lt_Some in Hb; exact Hb).
  destruct (put_n_bits32_write_stream value off n a h ws
              Ha Hoff Hn ltac:(lia)) as (ws' & Hl & Hrun & Hbits & _).
  rewrite (list_insert_id h a _ Hb) in Hrun.
  exists ws'. split; [exact Hl |]. split; [| exact Hbits].
  rewrite put_n_bits32_guards by lia.
  destruct (Z.gtb_spec (off + n) ((dest_len + 1) / 2 * 2 * 16)); [lia |].
  destruct (Z.eqb_spec n 0); [lia |].
  destruct (Z.gtb_spec n 32); [lia |].
  exact Hrun.
Qed.

Lemma call_encoder_length_range (e : encoder_ptr) (value m k : Z) :
  0 <= fst (call_encoder e value m k) < 2 ^ 32.
Proof.
  destruct e; cbn [call_encoder].
  - unfold Rice_encoder. cbn [fst]. apply u32_range.
  - unfold Golomb_encoder.
    destruct (value <? _); cbn [fst]; apply u32_range.
Qed.

Section Encode_normal.

Variables (value : Z) (cfg : cmp_cfg) (enc : encoder_struct)
  (e : encoder_ptr).
Hypothesis Hencoder : encoder enc = Some e.
Hypothesis Hsize : 0 <= cmp_size enc.
Hypothesis Hlen : 0 <= buffer_length cfg.
Hypothesis Hcap : (buffer_length cfg + 1) / 2 * 2 * 16 < 2 ^ 32.

Let capacity := (buffer_length cfg + 1) / 2 * 2 * 16.
Let cw := call_encoder e value (golomb_par cfg) (log2_golomb_par enc).

Hypothesis Hsum : cmp_size enc + fst cw < 2 ^ 32.

Lemma encode_normal_small_buffer (h : store) :
  capacity < cmp_size enc + fst cw ->
  encode_normal value cfg enc h = Some ((-2, enc), h).
Proof.
  intros Hover. unfold encode_normal. rewrite Hencoder.
  fold cw. pose proof (call_encoder_length_range e value (golomb_par cfg)
                         (log2_golomb_par enc)) as Hr. fold cw in Hr.
  destruct cw as [cw_len code_word] eqn:Ecw. cbn [fst] in *.
  rewrite put_n_bits32_guards by lia. fold capacity.
  destruct (Z.gtb_spec (cmp_size enc + cw_len) capacity); [| lia].
  reflexivity.
Qed.

Lemma encode_normal_dropped (h : store) :
  cmp_size enc + fst cw <= capacity -> 32 < fst cw ->
  encode_normal value cfg enc h = Some ((0, enc), h).
Proof.
  intros Hfit Hlong. unfold encode_normal. rewrite Hencoder.
  fold cw. destruct cw as [cw_len code_word] eqn:Ecw. cbn [fst] in *.
  rewrite put_n_bits32_guards by lia. fold capacity.
  destruct (Z.gtb_spec (cmp_size enc + cw_len) capacity); [lia |].
  destruct (Z.eqb_spec cw_len 0); [lia |].
  destruct (Z.gtb_spec cw_len 32); [| lia].
  reflexivity.
Qed.

Lemma encode_normal_written (h : store) (a : nat) (ws : list Z) :
  cmp_size enc + fst cw <= capacity -> 1 <= fst cw <= 32 ->
  icu_output_buf cfg = Some a -> h !! a = Some (U32 <$> ws) ->
  capacity <= 32 * Z.of_nat (length ws) ->
  exists ws', length ws' = length ws /\
    encode_normal value cfg enc h
    = Some ((0, set_cmp_size enc (cmp_size enc + fst cw)),
            <[a := U32 <$> ws']> h) /\
    (forall j, 0 <= j < 32 * Z.of_nat (length ws) ->
       stream_bit ws' j
       = if (cmp_size enc <=? j) && (j <? cmp_size enc + fst cw)
         then Z.testbit (snd cw) (cmp_size enc + fst cw - 1 - j)
         else stream_bit ws j).
Proof.
  intros Hfit Hn Hout Hb Hws. unfold encode_normal.
  rewrite Hencoder, Hout. fold cw.
  destruct cw as [cw_len code_word] eqn:Ecw. cbn [fst snd] in *.
  destruct (put_n_bits32_fits code_word (cmp_size enc) cw_len
              (buffer_length cfg) a h ws Hb Hsize Hn Hlen Hcap Hfit Hws)
    as (ws' & Hl & Hrun & Hbits).
  exists ws'. split; [exact Hl |]. split; [| exact Hbits].
  rewrite (bind_eq _ _ _ _ _ Hrun).
  rewrite to_signed_small by lia.
  destruct (Z.leb_spec cw_len 0); [lia |].
  rewrite add32_small by lia. reflexivity.
Qed.

End Encode_normal.

(** X9: the three outcomes of [encode_normal] with an encoder in place.  A
    codeword that does not fit the capacity gives -2 and changes nothing.
    A codeword of more than 32 bits that fits the capacity is dropped:
    the function returns 0, writes nothing and leaves [cmp_size] as it
    was.  A codeword of 1 to 32 bits that fits is put into the bitstream
    at [cmp_size], which then advances by its length; no other bit
    changes. *)
Theorem encode_normal_outcome (value : Z) (cfg : cmp_cfg)
    (enc : encoder_struct) (e : encoder_ptr) (h : store) :
  encoder enc = Some e ->
  0 <= cmp_size enc -> 0 <= buffer_length cfg ->
  let capacity := (buffer_length cfg + 1) / 2 * 2 * 16 in
  let cw := call_encoder e value (golomb_par cfg) (log2_golomb_par enc) in
  capacity < 2 ^ 32 -> cmp_size enc + fst cw < 2 ^ 32 ->
  (capacity < cmp_size enc + fst cw ->
   encode_normal value cfg enc h = Some ((-2, enc), h)) /\
  (cmp_size enc + fst cw <= capacity -> 32 < fst cw ->
   encode_normal value cfg enc h = Some ((0, enc), h)) /\
  (cmp_size enc + fst cw <= capacity -> 1 <= fst cw <= 32 ->
   forall a ws,
     icu_output_buf cfg = Some a -> h !! a = Some (U32 <$> ws) ->
     capacity <= 32 * Z.of_nat (length ws) ->
     exists ws', length ws' = length ws /\
       encode_normal value cfg enc h
       = Some ((0, set_cmp_size enc (cmp_size enc + fst cw)),
               <[a := U32 <$> ws']> h) /\
       (forall j, 0 <= j < 32 * Z.of_nat (length ws) ->
          stream_bit ws' j
          = if (cmp_size enc <=? j) && (j <? cmp_size enc + fst cw)
            then Z.testbit (snd cw) (cmp_size enc + fst cw - 1 - j)
            else stream_bit ws j)).
Proof.
  intros Henc Hsize Hlen capacity cw Hcap Hsum.
  split; [| split].
  - apply (encode_normal_small_buffer value cfg enc e); assumption.
  - apply (encode_normal_dropped value cfg enc e); assumption.
  - intros Hfit Hn a ws.
    apply (encode_normal_written value cfg enc e); assumption.
Qed.

Lemma encode_normal_outcome_witness :
  let cfg := mk_cfg MODE_DIFF_MULTI 1 60 0 0 1 4 (Some 0%nat) None None
                    (Some 1%nat) 0 0 in
  let enc := mk_enc (Some Rice_ptr) 0 0 in
  let h : store := [[U16 40]; [U32 0; U32 0]] in
  fst (call_encoder Rice_ptr 40 1 0) = 41 /\
  encode_normal 40 cfg enc h = Some ((0, enc), h).
Proof.
  intros cfg enc h.
  assert (H1 : encoder enc = Some Rice_ptr) by reflexivity.
  assert (H2 : 0 <= cmp_size enc) by (cbn; lia).
  assert (H3 : 0 <= buffer_length cfg) by (cbn; lia).
  assert (H4 : (buffer_length cfg + 1) / 2 * 2 * 16 < 2 ^ 32)
    by (vm_compute; reflexivity).
  assert (H5 : cmp_size enc
               + fst (call_encoder Rice_ptr 40 (golomb_par cfg)
                                   (log2_golomb_par enc)) < 2 ^ 32)
    by (vm_compute; reflexivity).
  split; [reflexivity |].
  destruct (encode_normal_outcome 40 cfg enc Rice_ptr h H1 H2 H3 H4 H5)
    as (_ & Hdrop & _).
  apply Hdrop; vm_compute; [discriminate | reflexivity].
Defined.

(** X10: [encode_outlier_multi] does not look at what [encode_normal]
    returns for the escape symbol.  When the escape symbol does not fit the
    capacity any more but the shorter unencoded data do, the function
    reports success: it returns 0, the unencoded data stand in the
    bitstream where the escape symbol was to go, and [cmp_size] has
    advanced by the length of the data alone. *)
Theorem encode_outlier_multi_lost_escape (value : Z) (cfg : cmp_cfg)
    (enc : encoder_struct) (e : encoder_ptr) (h : store) (a : nat)
    (ws : list Z) :
  encoder enc = Some e ->
  icu_output_buf cfg = Some a -> h !! a = Some (U32 <$> ws) ->
  0 <= cmp_size enc -> 0 <= buffer_length cfg ->
  let capacity := (buffer_length cfg + 1) / 2 * 2 * 16 in
  let d := sub32 value (spill cfg) in
  let n := (cal_multi_offset d + 1) * 2 in
  let escape :=
    call_encoder e (add32 (spill cfg) (cal_multi_offset d))
                 (golomb_par cfg) (log2_golomb_par enc) in
  capacity < 2 ^ 32 -> capacity <= 32 * Z.of_nat (length ws) ->
  capacity < cmp_size enc + fst escape < 2 ^ 32 ->
  cmp_size enc + n <= capacity ->
  exists ws', length ws' = length ws /\
    encode_outlier_multi value cfg enc h
    = Some ((0, set_cmp_size enc (cmp_size enc + n)),
            <[a := U32 <$> ws']> h) /\
    (forall j, 0 <= j < 32 * Z.of_nat (length ws) ->
       stream_bit ws' j
       = if (cmp_size enc <=? j) && (j <? cmp_size enc + n)
         then Z.testbit d (cmp_size enc + n - 1 - j)
         else stream_bit ws j).
Proof.
  intros Henc Hout Hb Hsize Hlen capacity d n escape Hcap Hws Hesc Hfit.
  pose proof (cal_multi_offset_range d) as Hoff.
  unfold encode_outlier_multi. fold d.
  assert (Hsum : cmp_size enc + fst escape < 2 ^ 32) by lia.
  assert (Hover : capacity < cmp_size enc + fst escape) by lia.
  rewrite (bind_eq _ _ _ _ _
             (encode_normal_small_buffer
                (add32 (spill cfg) (cal_multi_offset d)) cfg enc e
                Henc Hsize Hlen Hcap Hsum h Hover)).
  cbv beta iota. rewrite (u32_small ((cal_multi_offset d + 1) * 2)) by lia.
  fold n. rewrite Hout.
  destruct (put_n_bits32_fits d (cmp_size enc) n (buffer_length cfg) a h ws
              Hb Hsize ltac:(unfold n; lia) Hlen Hcap Hfit Hws)
    as (ws' & Hl & Hrun & Hbits).
  exists ws'. split; [exact Hl |]. split; [| exact Hbits].
  rewrite (bind_eq _ _ _ _ _ Hrun).
  rewrite to_signed_small by (unfold n; lia).
  destruct (Z.leb_spec n 0); [unfold n in *; lia |].
  rewrite add32_small by lia. reflexivity.
Qed.

Lemma encode_outlier_multi_lost_escape_witness :
  let cfg := mk_cfg MODE_DIFF_MULTI 4 2 0 0 1 2 (Some 0%nat) None None
                    (Some 1%nat) 0 0 in
  let enc := mk_enc (Some Rice_ptr) 2 30 in
  let h : store := [[U16 2]; [U32 0]] in
  fst (call_encoder Rice_ptr 2 4 2) = 3 /\
  exists ws',
    encode_outlier_multi 2 cfg enc h
    = Some ((0, set_cmp_size enc 32), <[1%nat := U32 <$> ws']> h).
Proof.
  intros cfg enc h.
  assert (H1 : encoder enc = Some Rice_ptr) by reflexivity.
  assert (H2 : icu_output_buf cfg = Some 1%nat) by reflexivity.
  assert (H3 : h !! 1%nat = Some (U32 <$> [0])) by reflexivity.
  assert (H4 : 0 <= cmp_size enc) by (cbn; lia).
  assert (H5 : 0 <= buffer_length cfg) by (cbn; lia).
  assert (H6 : (buffer_length cfg + 1) / 2 * 2 * 16 < 2 ^ 32)
    by (vm_compute; reflexivity).
  assert (H7 : (buffer_length cfg + 1) / 2 * 2 * 16
               <= 32 * Z.of_nat (length [0]))
    by (vm_compute; discriminate).
  split; [reflexivity |].
  destruct (encode_outlier_multi_lost_escape 2 cfg enc Rice_ptr h 1 [0]
              H1 H2 H3 H4 H5 H6 H7) as (ws' & _ & Hrun & _).
  - vm_compute. split; reflexivity.
  - vm_compute. discriminate.
  - exists ws'. exact Hrun.
Defined.

(** ** The validator, the padding and the return codes of the pipeline *)

Lemma b2z_zero (b : bool) : Z.b2z b = 0 -> b = false.
Proof. destruct b; [discriminate | reflexivity]. Qed.

Lemma is_null_false (p : ptr) : is_null p = false -> p <> None.
Proof.
  unfold is_null. intros Hn Hp. rewrite bool_decide_eq_true_2 in Hn by exact Hp.
  discriminate.
Qed.

Lemma ptr_eqb_false (p q : ptr) : ptr_eqb p q = false -> p <> q.
Proof.
  unfold ptr_eqb. intros Hn Hp. rewrite bool_decide_eq_true_2 in Hn by exact Hp.
  discriminate.
Qed.

Lemma gtb_false (x y : Z) : (x >? y) = false -> x <= y.
Proof. destruct (Z.gtb_spec x y); [discriminate | lia]. Qed.

Lemma ltb_false (x y : Z) : (x <? y) = false -> y <= x.
Proof. destruct (Z.ltb_spec x y); [discriminate | lia]. Qed.

Ltac b2z_lia :=
  repeat match goal with
         | |- context [Z.b2z ?b] =>
             pose proof (b2z_range b); generalize dependent (Z.b2z b);
             intros
         | H : context [Z.b2z ?b] |- _ =>
             pose proof (b2z_range b); generalize dependent (Z.b2z b);
             intros
         end;
  repeat match goal with
         | H : context [if ?b then _ else _] |- _ => destruct b
         end;
  lia.

Section Accepted.

Context `{cmp_support}.

Variable cfg : cmp_cfg.
Hypothesis Hcount : cfg_invalid_count cfg = 0.

Lemma accepted_buffer_checks :
  is_null (input_buf cfg) = false /\
  is_null (icu_output_buf cfg) = false /\
  ((buffer_length cfg =? 0) && negb (samples cfg =? 0)) = false /\
  ptr_eqb (icu_output_buf cfg) (input_buf cfg) = false /\
  (raw_mode_is_used (cmp_mode_of cfg) = true ->
   (samples cfg >? buffer_length cfg) = false).
Proof.
  revert Hcount.
  unfold cfg_invalid_count, buffer_errors, parameter_errors. cbv zeta.
  intros Hc.
  repeat split; try intros Hraw; try rewrite Hraw in Hc;
    apply b2z_zero; b2z_lia.
Qed.

Lemma accepted_model_checks :
  model_mode_is_used (cmp_mode_of cfg) = true ->
  is_null (model_buf cfg) = false /\
  ptr_eqb (model_buf cfg) (input_buf cfg) = false /\
  ptr_eqb (model_buf cfg) (icu_output_buf cfg) = false /\
  ptr_eqb (icu_new_model_buf cfg) (input_buf cfg) = false /\
  ptr_eqb (icu_new_model_buf cfg) (icu_output_buf cfg) = false /\
  (model_value cfg >? MAX_MODEL_VALUE) = false.
Proof.
  intros Hmodel.
  assert (Hraw : raw_mode_is_used (cmp_mode_of cfg) = false)
    by (destruct (cmp_mode_of cfg); try discriminate Hmodel; reflexivity).
  revert Hcount.
  unfold cfg_invalid_count, buffer_errors, parameter_errors. cbv zeta.
  rewrite Hmodel, Hraw. intros Hc.
  repeat split; apply b2z_zero; b2z_lia.
Qed.

Lemma accepted_parameter_checks :
  raw_mode_is_used (cmp_mode_of cfg) = false ->
  ((golomb_par cfg <? MIN_ICU_GOLOMB_PAR)
   || (golomb_par cfg >? MAX_ICU_GOLOMB_PAR)) = false /\
  (spill cfg <? MIN_ICU_SPILL) = false /\
  (spill cfg >? get_max_spill (golomb_par cfg) (cmp_mode_of cfg)) = false /\
  (round cfg >? MAX_ICU_ROUND) = false.
Proof.
  intros Hraw. revert Hcount.
  unfold cfg_invalid_count, buffer_errors, parameter_errors. cbv zeta.
  rewrite Hraw. intros Hc.
  repeat split; apply b2z_zero; b2z_lia.
Qed.

(** An accepted configuration leaves [info] with no error bit. *)
Lemma accepted_info (info : cmp_info) :
  icu_cmp_cfg_valid cfg info = (0, set_cmp_err info 0).
Proof.
  pose proof (accepted_mode_known cfg Hcount) as Hknown.
  destruct accepted_buffer_checks as (H1 & H2 & H3 & H4 & H5).
  unfold icu_cmp_cfg_valid. cbv zeta.
  rewrite H1, H2, H3, H4, Hknown. cbn [negb].
  destruct (model_mode_is_used (cmp_mode_of cfg)) eqn:Emodel.
  - destruct (accepted_model_checks Emodel) as (M1 & M2 & M3 & M4 & M5 & M6).
    assert (Hraw : raw_mode_is_used (cmp_mode_of cfg) = false)
      by (destruct (cmp_mode_of cfg); try discriminate Emodel; reflexivity).
    destruct (accepted_parameter_checks Hraw) as (P1 & P2 & P3 & P4).
    rewrite M1, M2, M3, M4, M5, M6, Hraw, P1, P2, P3, P4. reflexivity.
  - destruct (raw_mode_is_used (cmp_mode_of cfg)) eqn:Eraw.
    + rewrite (H5 eq_refl). reflexivity.
    + destruct (accepted_parameter_checks Eraw) as (P1 & P2 & P3 & P4).
      rewrite P1, P2, P3, P4. reflexivity.
Qed.

End Accepted.

(** X11: a configuration that [icu_cmp_cfg_valid] accepts (it returns 0)
    has an input and an output buffer that are present and distinct, a
    buffer length that is not zero when there are samples, and a known
    mode; in a model mode the model buffer is present, neither model
    buffer is the input or the output buffer and the model value is at
    most [MAX_MODEL_VALUE]; in a raw mode the samples are at most the
    buffer length, in every other mode the Golomb parameter, the spill and
    the rounding are inside their ranges.  [info] comes back with
    [cmp_err] cleared and is otherwise as it was. *)
Theorem icu_cmp_cfg_valid_accepted `{cmp_support} (cfg : cmp_cfg)
    (info : cmp_info) :
  fst (icu_cmp_cfg_valid cfg info) = 0 ->
  let mode := cmp_mode_of cfg in
  input_buf cfg <> None /\ icu_output_buf cfg <> None /\
  icu_output_buf cfg <> input_buf cfg /\
  (samples cfg <> 0 -> buffer_length cfg <> 0) /\
  (diff_mode_is_used mode || model_mode_is_used mode
   || raw_mode_is_used mode) = true /\
  (model_mode_is_used mode = true ->
   model_buf cfg <> None /\ model_buf cfg <> input_buf cfg /\
   model_buf cfg <> icu_output_buf cfg /\
   icu_new_model_buf cfg <> input_buf cfg /\
   icu_new_model_buf cfg <> icu_output_buf cfg /\
   model_value cfg <= MAX_MODEL_VALUE) /\
  (raw_mode_is_used mode = true -> samples cfg <= buffer_length cfg) /\
  (raw_mode_is_used mode = false ->
   MIN_ICU_GOLOMB_PAR <= golomb_par cfg <= MAX_ICU_GOLOMB_PAR /\
   MIN_ICU_SPILL <= spill cfg <= get_max_spill (golomb_par cfg) mode /\
   round cfg <= MAX_ICU_ROUND) /\
  snd (icu_cmp_cfg_valid cfg info) = set_cmp_err info 0.
Proof.
  intros Hvalid mode. subst mode. rewrite icu_cmp_cfg_valid_fst in Hvalid.
  assert (Hcount : cfg_invalid_count cfg = 0) by lia.
  destruct (accepted_buffer_checks cfg Hcount) as (H1 & H2 & H3 & H4 & H5).
  split; [apply is_null_false; exact H1 |].
  split; [apply is_null_false; exact H2 |].
  split; [apply ptr_eqb_false; exact H4 |].
  split.
  { intros Hs Hb. rewrite Hb in H3.
    destruct (Z.eqb_spec (samples cfg) 0); [lia | discriminate H3]. }
  split; [exact (accepted_mode_known cfg Hcount) |].
  split.
  { intros Hmodel.
    destruct (accepted_model_checks cfg Hcount Hmodel)
      as (M1 & M2 & M3 & M4 & M5 & M6).
    repeat split;
      [apply is_null_false; assumption | apply ptr_eqb_false; assumption ..
      | apply gtb_false; assumption]. }
  split; [intros Hraw; apply gtb_false, H5, Hraw |].
  split.
  { intros Hraw.
    destruct (accepted_parameter_checks cfg Hcount Hraw)
      as (P1 & P2 & P3 & P4).
    apply orb_false_iff in P1 as [P1 P1'].
    apply ltb_false in P1, P2. apply gtb_false in P1', P3, P4.
    lia. }
  rewrite (accepted_info cfg Hcount). reflexivity.
Qed.

Lemma icu_cmp_cfg_valid_accepted_witness :
  let cfg := mk_cfg MODE_MODEL_MULTI 4 16 8 0 2 4
                    (Some 0%nat) (Some 1%nat) (Some 2%nat) (Some 3%nat) 0 0 in
  let info := mk_info 7 0 0 0 0 0 0 0 0 0 0 0 in
  fst (@icu_cmp_cfg_valid sample_support cfg info) = 0 /\
  model_buf cfg <> input_buf cfg /\
  1 <= golomb_par cfg <= 65535 /\
  cmp_err (snd (@icu_cmp_cfg_valid sample_support cfg info)) = 0.
Proof.
  intros cfg info.
  assert (Hv : fst (@icu_cmp_cfg_valid sample_support cfg info) = 0)
    by reflexivity.
  destruct (@icu_cmp_cfg_valid_accepted sample_support cfg info Hv)
    as (_ & _ & _ & _ & _ & Hmodel & _ & Hpar & Hinfo).
  split; [exact Hv |].
  split; [exact (proj1 (proj2 (Hmodel eq_refl))) |].
  split; [exact (proj1 (Hpar eq_refl)) |].
  rewrite Hinfo. reflexivity.
Defined.

(** X12: the end of [encode_data] in the big-endian build (the build
    without the [cpu_to_be32s] pass over the output words), after an
    encoder that did not report -2, in a mode that is not raw and with a
    bitstream of [cmp_size] bits inside the capacity.  The function returns
    0 whatever else the encoder returned, it records [cmp_size] without the
    padding, and it sets the bits from [cmp_size] up to the next multiple
    of 32 to zero; the padding always fits, so that its small-buffer branch
    is never taken, and in that build no other bit of the output words
    changes. *)
Theorem encode_data_finish_pads `{cmp_support} (cfg : cmp_cfg)
    (info : cmp_info) (err : Z) (enc : encoder_struct) (h : store)
    (a : nat) (ws : list Z) :
  err <> -2 -> raw_mode_is_used (cmp_mode_of cfg) = false ->
  icu_output_buf cfg = Some a -> h !! a = Some (U32 <$> ws) ->
  0 <= buffer_length cfg ->
  let capacity := (buffer_length cfg + 1) / 2 * 2 * 16 in
  capacity < 2 ^ 32 -> capacity <= 32 * Z.of_nat (length ws) ->
  0 < cmp_size enc <= capacity ->
  exists ws', length ws' = length ws /\
    encode_data_finish cfg info err enc h
    = Some ((0, set_info_cmp_size info (cmp_size enc)),
            <[a := U32 <$> ws']> h) /\
    (forall j, 0 <= j < 32 * Z.of_nat (length ws) ->
       stream_bit ws' j
       = if (cmp_size enc <=? j) && (j <? 32 * ((cmp_size enc + 31) / 32))
         then false else stream_bit ws j).
Proof.
  intros Herr Hraw Hout Hb Hlen capacity Hcap Hws Hsize.
  unfold encode_data_finish.
  destruct (Z.eqb_spec err (-2)) as [| _]; [contradiction |].
  rewrite Hraw. destruct (Z.eqb_spec (cmp_size enc) 0) as [| _]; [lia |].
  cbn [negb andb].
  replace (Z.land (cmp_size enc) 0x1f) with (cmp_size enc mod 32)
    by (change 0x1f with (Z.ones 5); rewrite Z.land_ones by lia;
        reflexivity).
  pose proof (Z.mod_pos_bound (cmp_size enc) 32 ltac:(lia)) as Hm.
  pose proof (Z.div_mod (cmp_size enc) 32 ltac:(lia)) as Hd.
  rewrite (sub32_small 32 (cmp_size enc mod 32)) by lia.
  rewrite (to_signed_small (32 - cmp_size enc mod 32)) by lia.
  assert (Hup : (cmp_size enc + 31) / 32
                = cmp_size enc / 32
                  + (if cmp_size enc mod 32 =? 0 then 0 else 1)).
  { destruct (Z.eqb_spec (cmp_size enc mod 32) 0); zlia. }
  destruct (Z.ltb_spec (32 - cmp_size enc mod 32) 32) as [Hpad | Hnone].
  - assert ((cmp_size enc mod 32 =? 0) = false) as Hnz
        by (apply Z.eqb_neq; lia).
    rewrite Hnz in Hup.
    rewrite (u32_small (32 - cmp_size enc mod 32)) by lia.
    rewrite Hout.
    assert (Hfit : cmp_size enc + (32 - cmp_size enc mod 32) <= capacity).
    { unfold capacity in *.
      set (q := (buffer_length cfg + 1) / 2) in *. lia. }
    destruct (put_n_bits32_fits 0 (cmp_size enc) (32 - cmp_size enc mod 32)
                (buffer_length cfg) a h ws Hb ltac:(lia) ltac:(lia) Hlen
                Hcap Hfit Hws) as (ws' & Hl & Hrun & Hbits).
    exists ws'. split; [exact Hl |]. split.
    + rewrite (bind_eq _ _ _ _ _ Hrun).
      rewrite to_signed_small by lia.
      destruct (Z.leb_spec (32 - cmp_size enc mod 32) 0); [lia |].
      reflexivity.
    + intros j Hj. rewrite (Hbits j Hj), Z.testbit_0_l.
      replace (32 * ((cmp_size enc + 31) / 32))
        with (cmp_size enc + (32 - cmp_size enc mod 32)) by lia.
      reflexivity.
  - exists ws. split; [reflexivity |]. split.
    + rewrite (list_insert_id h a _ Hb). reflexivity.
    + intros j Hj.
      assert ((cmp_size enc mod 32 =? 0) = true) as Hz
        by (apply Z.eqb_eq; lia).
      rewrite Hz in Hup.
      destruct (Z.leb_spec (cmp_size enc) j);
        destruct (Z.ltb_spec j (32 * ((cmp_size enc + 31) / 32)));
        cbn [andb]; try reflexivity; lia.
Qed.

Lemma encode_data_finish_pads_witness :
  let cfg := mk_cfg MODE_DIFF_MULTI 4 2 0 0 1 2 (Some 0%nat) None None
                    (Some 1%nat) 0 0 in
  let info := mk_info 0 4 0 0 2 4 1 0 0 0 0 0 in
  let enc := mk_enc (Some Rice_ptr) 2 3 in
  let h : store := [[U16 2]; [U32 0xffffffff]] in
  exists ws',
    @encode_data_finish sample_support cfg info (-1) enc h
    = Some ((0, set_info_cmp_size info 3), <[1%nat := U32 <$> ws']> h) /\
    stream_bit ws' 2 = true /\ stream_bit ws' 3 = false /\
    stream_bit ws' 31 = false.
Proof.
  intros cfg info enc h.
  assert (H1 : -1 <> -2) by lia.
  assert (H2 : raw_mode_is_used (cmp_mode_of cfg) = false) by reflexivity.
  assert (H3 : icu_output_buf cfg = Some 1%nat) by reflexivity.
  assert (H4 : h !! 1%nat = Some (U32 <$> [0xffffffff])) by reflexivity.
  assert (H5 : 0 <= buffer_length cfg) by (cbn; lia).
  assert (H6 : (buffer_length cfg + 1) / 2 * 2 * 16 < 2 ^ 32)
    by (vm_compute; reflexivity).
  assert (H7 : (buffer_length cfg + 1) / 2 * 2 * 16
               <= 32 * Z.of_nat (length [0xffffffff]))
    by (vm_compute; discriminate).
  assert (H8 : 0 < cmp_size enc <= (buffer_length cfg + 1) / 2 * 2 * 16)
    by (vm_compute; split; [reflexivity | discriminate]).
  destruct (@encode_data_finish_pads sample_support cfg info (-1) enc h 1
              [0xffffffff] H1 H2 H3 H4 H5 H6 H7 H8)
    as (ws' & _ & Hrun & Hbits).
  exists ws'. split; [exact Hrun |].
  repeat split; rewrite Hbits by (cbn; lia); reflexivity.
Defined.

Lemma encode_data_finish_codes `{cmp_support} (cfg : cmp_cfg)
    (info info' : cmp_info) (err r : Z) (enc : encoder_struct)
    (h h' : store) :
  encode_data_finish cfg info err enc h = Some ((r, info'), h') ->
  (r = 0 /\ cmp_err info' = cmp_err info) \/
  (r = -2 /\
   cmp_err info'
   = Z.lor (cmp_err info) (Z.shiftl 1 SMALL_BUFFER_ERR_BIT)).
Proof.
  unfold encode_data_finish. intros Hrun.
  destruct (Z.eqb_spec err (-2)) as [-> | _].
  { inversion Hrun. right. split; reflexivity. }
  destruct (negb _ && negb _).
  - destruct (_ <? 32).
    + inv_bind Hrun. destruct (_ <=? 0); inversion Hrun.
      * right. split; reflexivity.
      * left. split; reflexivity.
    + inversion Hrun. left. split; reflexivity.
  - inversion Hrun. left. split; reflexivity.
Qed.

Lemma encode_data_zero_keeps_err `{cmp_support} (cfg : cmp_cfg)
    (info info' : cmp_info) (h h' : store) :
  encode_data cfg info h = Some ((0, info'), h') ->
  cmp_err info' = cmp_err info.
Proof.
  unfold encode_data. intros Hrun.
  destruct (cmp_mode_of cfg) eqn:Em;
    try (inv_bind Hrun;
         match goal with
         | x : (Z * encoder_struct)%type |- _ => destruct x
         end;
         apply encode_data_finish_codes in Hrun;
         destruct Hrun as [[_ He] | [Hr _]]; [exact He | lia]).
  inversion Hrun.
Qed.

(** X13: [encode_data] returns 0 or -2, and -1 only for a mode it does not
    know, in which case nothing has changed.  The -1 an encoder returns
    for a missing buffer, a missing encoder function or raw data that do
    not fit never comes back.  With -2 the small-buffer bit is set in
    [cmp_err]; with 0 [cmp_err] is as it was. *)
Theorem encode_data_codes `{cmp_support} (cfg : cmp_cfg)
    (info info' : cmp_info) (r : Z) (h h' : store) :
  encode_data cfg info h = Some ((r, info'), h') ->
  (r = 0 /\ cmp_err info' = cmp_err info) \/
  (r = -2 /\
   cmp_err info'
   = Z.lor (cmp_err info) (Z.shiftl 1 SMALL_BUFFER_ERR_BIT)) \/
  (r = -1 /\ (exists v, cmp_mode_of cfg = MODE_UNKNOWN v) /\
   info' = info /\ h' = h).
Proof.
  unfold encode_data. intros Hrun.
  destruct (cmp_mode_of cfg) eqn:Em;
    try (inv_bind Hrun;
         match goal with
         | x : (Z * encoder_struct)%type |- _ => destruct x
         end;
         apply encode_data_finish_codes in Hrun;
         destruct Hrun as [Hr | Hr]; [left | right; left]; exact Hr).
  right; right. inversion Hrun. eauto.
Qed.

Lemma encode_data_codes_witness :
  let cfg := mk_cfg MODE_DIFF_MULTI 4 8 0 0 1 0 (Some 0%nat) None None
                    (Some 1%nat) 0 0 in
  let info := mk_info 0 4 0 0 8 4 1 0 0 0 0 0 in
  let h : store := [[U16 3]; [U32 0xffffffff]] in
  exists info',
    @encode_data sample_support cfg info h = Some ((-2, info'), h) /\
    cmp_err info' = Z.lor 0 (Z.shiftl 1 5).
Proof.
  intros cfg info h.
  exists (set_info_cmp_size (@raise_err info 5) 0).
  assert (Hrun : @encode_data sample_support cfg info h
                 = Some ((-2, set_info_cmp_size (@raise_err info 5) 0), h))
    by reflexivity.
  split; [exact Hrun |].
  destruct (@encode_data_codes sample_support cfg info _ (-2) h h Hrun)
    as [[Hr _] | [[_ He] | [Hr _]]]; [lia | exact He | lia].
Defined.

Section Accepted_run.

Context `{cmp_support}.

Variables (cfg : cmp_cfg) (info : cmp_info).
Hypothesis Hvalid : fst (icu_cmp_cfg_valid cfg info) = 0.
Hypothesis Hmode : cmp_mode_value (cmp_mode_of cfg) <= UINT8_MAX.
Hypothesis Hround : round cfg <= UINT8_MAX.
Hypothesis Hmodel : model_value cfg <= UINT8_MAX.

Lemma set_info_accepts :
  set_info cfg info
  = (0, mk_info 0 (u8 (cmp_mode_value (cmp_mode_of cfg)))
                (u8 (model_value cfg)) (u8 (round cfg)) (spill cfg)
                (golomb_par cfg) (samples cfg) 0 0 0
                (rdcu_new_model_adr cfg) (rdcu_buffer_adr cfg)).
Proof.
  unfold set_info.
  destruct (Z.gtb_spec (cmp_mode_value (cmp_mode_of cfg)) UINT8_MAX);
    [lia |].
  destruct (Z.gtb_spec (round cfg) UINT8_MAX); [lia |].
  destruct (Z.gtb_spec (model_value cfg) UINT8_MAX); [lia |].
  reflexivity.
Qed.

Lemma accepted_count : cfg_invalid_count cfg = 0.
Proof. rewrite icu_cmp_cfg_valid_fst in Hvalid. lia. Qed.

(** [icu_compress_data] behind [set_info] and the validator. *)
Lemma icu_compress_data_accepted :
  icu_compress_data cfg info
  = let info := snd (set_info cfg info) in
    let* err := pre_process cfg in
    if negb (err =? 0) then ret (err, info)
    else
      let* err := map_to_pos cfg in
      if negb (err =? 0) then ret (err, info)
      else
        let* '(err, info) := encode_data cfg info in
        if negb (err =? 0) then ret (err, info)
        else ret (0, info).
Proof.
  unfold icu_compress_data. rewrite set_info_accepts.
  cbn [Z.eqb negb snd].
  rewrite (accepted_info cfg accepted_count). cbn [Z.eqb negb].
  reflexivity.
Qed.

End Accepted_run.

(** X14: raw data that do not fit the output buffer.  The validator
    compares the number of samples with the buffer length, [encode_raw]
    the number of bytes with twice the buffer length; for an accepted raw
    configuration whose samples take more bytes than that, [encode_raw]
    fails and [encode_data] drops the failure: [icu_compress_data] returns
    0, no buffer has changed, no error bit is set, and the compressed size
    it reports is the size of the data that were not copied. *)
Theorem icu_compress_data_raw_overflow `{cmp_support} (cfg : cmp_cfg)
    (info : cmp_info) (h : store) :
  fst (icu_cmp_cfg_valid cfg info) = 0 ->
  cmp_mode_value (cmp_mode_of cfg) <= UINT8_MAX ->
  round cfg <= UINT8_MAX -> model_value cfg <= UINT8_MAX ->
  raw_mode_is_used (cmp_mode_of cfg) = true ->
  buffer_length cfg * 2 < samples cfg * size_of_a_sample (cmp_mode_of cfg) ->
  exists info',
    icu_compress_data cfg info h = Some ((0, info'), h) /\
    cmp_err info' = 0 /\
    info_cmp_size info'
    = u32 (samples cfg * size_of_a_sample (cmp_mode_of cfg) * 8).
Proof.
  intros Hvalid Hmode Hround Hmodel Hraw Hover.
  rewrite (icu_compress_data_accepted cfg info Hvalid Hmode Hround Hmodel).
  rewrite (set_info_accepts cfg info Hmode Hround Hmodel). cbn [snd].
  destruct (accepted_buffer_checks cfg (accepted_count cfg info Hvalid))
    as (Hin & Hout & _).
  assert ((samples cfg * size_of_a_sample (cmp_mode_of cfg)
           >? buffer_length cfg * 2) = true) as Hgt
    by (apply Z.gtb_lt; lia).
  unfold pre_process, map_to_pos, encode_data, encode_raw_16,
    encode_raw_S_FX, encode_raw.
  rewrite Hin, Hout.
  destruct (cmp_mode_of cfg) eqn:Em; try discriminate Hraw;
    rewrite Hgt; unfold encode_data_finish; rewrite Em;
    (eexists; split;
     [destruct (samples cfg =? 0); reflexivity | split; reflexivity]).
Qed.

Lemma icu_compress_data_raw_overflow_witness :
  let cfg := mk_cfg MODE_RAW_S_FX 0 0 0 0 2 2 (Some 0%nat) None None
                    (Some 1%nat) 0 0 in
  let info := mk_info 0 0 0 0 0 0 0 0 0 0 0 0 in
  let h : store := [C_S_FX <$> [S_FX.mk 1 2; S_FX.mk 3 4]; [U32 0]] in
  exists info',
    @icu_compress_data sample_support cfg info h = Some ((0, info'), h) /\
    cmp_err info' = 0 /\ info_cmp_size info' = 80.
Proof.
  intros cfg info h.
  assert (H1 : fst (@icu_cmp_cfg_valid sample_support cfg info) = 0)
    by reflexivity.
  assert (H2 : @cmp_mode_value sample_support (cmp_mode_of cfg)
               <= UINT8_MAX) by (vm_compute; discriminate).
  assert (H3 : round cfg <= UINT8_MAX) by (vm_compute; discriminate).
  assert (H4 : model_value cfg <= UINT8_MAX) by (vm_compute; discriminate).
  assert (H5 : raw_mode_is_used (cmp_mode_of cfg) = true) by reflexivity.
  assert (H6 : buffer_length cfg * 2
               < samples cfg
                 * @size_of_a_sample sample_support (cmp_mode_of cfg))
    by (vm_compute; reflexivity).
  destruct (@icu_compress_data_raw_overflow sample_support cfg info h
              H1 H2 H3 H4 H5 H6) as (info' & Hrun & Herr & Hsize).
  exists info'. split; [exact Hrun |]. split; [exact Herr |].
  rewrite Hsize. reflexivity.
Defined.

(** X15: the model modes of the structures [S_FX_EFX], [S_FX_NCOB] and
    [S_FX_EFX_NCOB_ECOB] pass the validator, but [pre_process] has no case
    for them: with samples to compress, [icu_compress_data] returns -1 for
    an accepted configuration in one of these modes, with no error bit
    set and no buffer changed. *)
Theorem icu_compress_data_model_mode_without_pre_process `{cmp_support}
    (cfg : cmp_cfg) (info : cmp_info) (h : store) :
  fst (icu_cmp_cfg_valid cfg info) = 0 ->
  cmp_mode_value (cmp_mode_of cfg) <= UINT8_MAX ->
  round cfg <= UINT8_MAX -> model_value cfg <= UINT8_MAX ->
  model_mode_without_pre_process (cmp_mode_of cfg) = true ->
  samples cfg <> 0 ->
  model_mode_is_used (cmp_mode_of cfg) = true /\
  exists info',
    icu_compress_data cfg info h = Some ((-1, info'), h) /\
    cmp_err info' = 0.
Proof.
  intros Hvalid Hmode Hround Hmodel Hm Hs.
  split; [destruct (cmp_mode_of cfg); try discriminate Hm; reflexivity |].
  rewrite (icu_compress_data_accepted cfg info Hvalid Hmode Hround Hmodel).
  rewrite (set_info_accepts cfg info Hmode Hround Hmodel). cbn [snd].
  destruct (accepted_buffer_checks cfg (accepted_count cfg info Hvalid))
    as (Hin & _).
  unfold pre_process. rewrite Hin.
  destruct (Z.eqb_spec (samples cfg) 0); [contradiction |].
  destruct (cmp_mode_of cfg); try discriminate Hm;
    (eexists; split; [reflexivity | reflexivity]).
Qed.

Lemma icu_compress_data_model_mode_without_pre_process_witness :
  let cfg := mk_cfg MODE_MODEL_MULTI_S_FX_EFX 4 16 8 0 1 8
                    (Some 0%nat) (Some 1%nat) None (Some 2%nat) 0 0 in
  let info := mk_info 0 0 0 0 0 0 0 0 0 0 0 0 in
  let h : store := [[C_S_FX_EFX (S_FX_EFX.mk 1 2 3)];
                    [C_S_FX_EFX (S_FX_EFX.mk 1 2 3)]; [U32 0; U32 0]] in
  exists info',
    @icu_compress_data sample_support cfg info h = Some ((-1, info'), h) /\
    cmp_err info' = 0.
Proof.
  intros cfg info h.
  assert (H1 : fst (@icu_cmp_cfg_valid sample_support cfg info) = 0)
    by reflexivity.
  assert (H2 : @cmp_mode_value sample_support (cmp_mode_of cfg)
               <= UINT8_MAX) by (vm_compute; discriminate).
  assert (H3 : round cfg <= UINT8_MAX) by (vm_compute; discriminate).
  assert (H4 : model_value cfg <= UINT8_MAX) by (vm_compute; discriminate).
  assert (H5 : model_mode_without_pre_process (cmp_mode_of cfg) = true)
    by reflexivity.
  assert (H6 : samples cfg <> 0) by (cbn; lia).
  exact (proj2 (@icu_compress_data_model_mode_without_pre_process
                  sample_support cfg info h H1 H2 H3 H4 H5 H6)).
Defined.

(** X16: a return value of 0 from [icu_compress_data] means that
    [set_info] found the mode, the rounding and the model value within
    [UINT8_MAX], that the validator accepted the configuration, and that
    [info] comes back without an error bit. *)
Theorem icu_compress_data_success `{cmp_support} (cfg : cmp_cfg)
    (info info' : cmp_info) (h h' : store) :
  icu_compress_data cfg info h = Some ((0, info'), h') ->
  cmp_mode_value (cmp_mode_of cfg) <= UINT8_MAX /\
  round cfg <= UINT8_MAX /\ model_value cfg <= UINT8_MAX /\
  fst (icu_cmp_cfg_valid cfg info) = 0 /\
  cmp_err info' = 0.
Proof.
  intros Hrun.
  assert (Hset : cmp_mode_value (cmp_mode_of cfg) <= UINT8_MAX /\
                 round cfg <= UINT8_MAX /\ model_value cfg <= UINT8_MAX).
  { revert Hrun. unfold icu_compress_data, set_info.
    destruct (Z.gtb_spec (cmp_mode_value (cmp_mode_of cfg)) UINT8_MAX);
      [intros Hrun; inversion Hrun |].
    destruct (Z.gtb_spec (round cfg) UINT8_MAX);
      [intros Hrun; inversion Hrun |].
    destruct (Z.gtb_spec (model_value cfg) UINT8_MAX);
      [intros Hrun; inversion Hrun |].
    intros _. lia. }
  destruct Hset as (Hmode & Hround & Hmodel).
  assert (Hvalid : fst (icu_cmp_cfg_valid cfg info) = 0).
  { revert Hrun. unfold icu_compress_data.
    rewrite (set_info_accepts cfg info Hmode Hround Hmodel).
    cbn [Z.eqb negb].
    match goal with
    | |- context [icu_cmp_cfg_valid cfg ?i] =>
        rewrite (icu_cmp_cfg_valid_fst cfg info);
        rewrite <- (icu_cmp_cfg_valid_fst cfg i);
        destruct (icu_cmp_cfg_valid cfg i) as [err info2]
    end.
    cbn [fst]. destruct (Z.eqb_spec err 0) as [-> | Hne]; [reflexivity |].
    cbn [negb]. intros Hrun. inversion Hrun. contradiction. }
  repeat (split; [assumption |]).
  rewrite (icu_compress_data_accepted cfg info Hvalid Hmode Hround Hmodel)
    in Hrun.
  rewrite (set_info_accepts cfg info Hmode Hround Hmodel) in Hrun.
  cbn [snd] in Hrun. cbv zeta in Hrun.
  inv_bind Hrun.
  destruct (Z.eqb_spec a 0) as [-> | Hne]; cbn [negb] in Hrun;
    [| inversion Hrun; contradiction].
  inv_bind Hrun.
  destruct (Z.eqb_spec a 0) as [-> | Hne]; cbn [negb] in Hrun;
    [| inversion Hrun; contradiction].
  inv_bind Hrun. destruct a as [err info3].
  destruct (Z.eqb_spec err 0) as [-> | Hne]; cbn [negb] in Hrun;
    [| inversion Hrun; contradiction].
  inversion Hrun; subst.
  exact (encode_data_zero_keeps_err _ _ _ _ _ Hrun2).
Qed.

Lemma icu_compress_data_success_witness :
  let cfg := mk_cfg MODE_DIFF_MULTI 4 8 0 0 2 2 (Some 0%nat) None None
                    (Some 1%nat) 0 0 in
  let info := mk_info 9 0 0 0 0 0 0 0 0 0 0 0 in
  let h : store := [[U16 3; U16 4]; [U32 0xffffffff]] in
  exists info' h',
    @icu_compress_data sample_support cfg info h = Some ((0, info'), h') /\
    cmp_err info' = 0.
Proof.
  intros cfg info h.
  assert (Hrun : exists info' h',
             @icu_compress_data sample_support cfg info h
             = Some ((0, info'), h'))
    by (eexists; eexists; vm_compute; reflexivity).
  destruct Hrun as (info' & h' & Hrun).
  exists info', h'. split; [exact Hrun |].
  exact (proj2 (proj2 (proj2 (proj2
           (@icu_compress_data_success sample_support cfg info info' h h'
              Hrun))))).
Defined.

Lemma cfg_invalid_count_nonneg `{cmp_support} (cfg : cmp_cfg) :
  0 <= cfg_invalid_count cfg.
Proof.
  unfold cfg_invalid_count, buffer_errors, parameter_errors. cbv zeta.
  repeat match goal with
         | |- context [Z.b2z ?b] =>
             pose proof (b2z_range b); generalize dependent (Z.b2z b);
             intros
         end.
  repeat match goal with
         | |- context [if ?b then _ else _] => destruct b
         end; lia.
Qed.

(** X22: a configuration that passes [set_info] and that the validator
    rejects.  [icu_compress_data] returns the negated number of failed
    checks, which is -1 or less, with the error bits the validator has set
    and without touching a buffer; so -2 comes back for two failed checks
    as well as for an output buffer that is too small. *)
Theorem icu_compress_data_rejected `{cmp_support} (cfg : cmp_cfg)
    (info : cmp_info) (h : store) :
  cmp_mode_value (cmp_mode_of cfg) <= UINT8_MAX ->
  round cfg <= UINT8_MAX -> model_value cfg <= UINT8_MAX ->
  fst (icu_cmp_cfg_valid cfg info) <> 0 ->
  icu_compress_data cfg info h
  = Some ((- cfg_invalid_count cfg,
           snd (icu_cmp_cfg_valid cfg (snd (set_info cfg info)))), h) /\
  1 <= cfg_invalid_count cfg.
Proof.
  intros Hmode Hround Hmodel Hrej.
  rewrite icu_cmp_cfg_valid_fst in Hrej.
  pose proof (cfg_invalid_count_nonneg cfg) as Hnn.
  split; [| lia].
  unfold icu_compress_data.
  rewrite (set_info_accepts cfg info Hmode Hround Hmodel).
  cbn [Z.eqb negb snd].
  match goal with
  | |- context [icu_cmp_cfg_valid cfg ?i] =>
      pose proof (icu_cmp_cfg_valid_fst cfg i) as Hfst;
      destruct (icu_cmp_cfg_valid cfg i) as [err info2]
  end.
  cbn [fst snd] in *. subst err.
  destruct (Z.eqb_spec (- cfg_invalid_count cfg) 0); [lia |].
  reflexivity.
Qed.

Lemma icu_compress_data_rejected_witness :
  let cfg := mk_cfg MODE_DIFF_MULTI 4 8 0 4 1 2 (Some 0%nat) None None
                    (Some 0%nat) 0 0 in
  let info := mk_info 0 0 0 0 0 0 0 0 0 0 0 0 in
  let h : store := [[U32 0]] in
  exists info',
    @icu_compress_data sample_support cfg info h = Some ((-2, info'), h) /\
    cmp_err info' = 0.
Proof.
  intros cfg info h.
  assert (H1 : @cmp_mode_value sample_support (cmp_mode_of cfg)
               <= UINT8_MAX) by (vm_compute; discriminate).
  assert (H2 : round cfg <= UINT8_MAX) by (vm_compute; discriminate).
  assert (H3 : model_value cfg <= UINT8_MAX) by (vm_compute; discriminate).
  assert (H4 : fst (@icu_cmp_cfg_valid sample_support cfg info) <> 0)
    by (vm_compute; discriminate).
  destruct (@icu_compress_data_rejected sample_support cfg info h
              H1 H2 H3 H4) as [Hrun _].
  exists (snd (@icu_cmp_cfg_valid sample_support cfg
                 (snd (@set_info sample_support cfg info)))).
  split; [rewrite Hrun; reflexivity | reflexivity].
Defined.

(** ** The mapping stage on a buffer *)

Section Mapper_loop.

(** A buffer of integers whose cells are made by [mk] and read by [ld];
    every element goes through [f], and through [g] after that when the
    zero escape mechanism is in use. *)
Variables (mk : Z -> cell) (ld : ptr -> nat -> M Z).
Hypothesis ld_Some : forall a i h ws w,
  h !! a = Some (mk <$> ws) -> ws !! i = Some w ->
  ld (Some a) i h = Some (w, h).
Hypothesis mk_shape : forall v w, same_shape (mk v) (mk w) = true.
Variables (f g : Z -> Z) (zero_mode_used : bool).

Lemma mapper_loop a h n i ws :
  (a < length h)%nat -> (i + n <= length ws)%nat ->
  for_each n i
    (fun i =>
       let* v := ld (Some a) i in
       run store_cell (Some a) i (mk (f v)) in
       if zero_mode_used then
         let* v := ld (Some a) i in store_cell (Some a) i (mk (g v))
       else ret tt)
    (<[a := mk <$> ws]> h)
  = Some (tt, <[a := mk <$> map_range
                         (fun v => if zero_mode_used then g (f v) else f v)
                         n i ws]> h).
Proof.
  intros Ha. revert i ws. induction n as [| n IH]; intros i ws Hn; simpl.
  - reflexivity.
  - destruct (lookup_lt_is_Some_2 ws i ltac:(lia)) as [w Hw].
    unfold bind at 1. unfold bind at 1.
    rewrite (ld_words mk ld ld_Some a i h ws w Ha Hw).
    unfold bind at 1.
    rewrite (st_words mk mk_shape a i h ws (f w) Ha ltac:(lia)).
    destruct zero_mode_used.
    + unfold bind at 1.
      rewrite (ld_words mk ld ld_Some a i h (<[i := f w]> ws) (f w) Ha)
        by (apply list_lookup_insert_eq; lia).
      rewrite (st_words mk mk_shape a i h (<[i := f w]> ws) (g (f w)) Ha)
        by (rewrite length_insert; lia).
      rewrite list_insert_insert_eq.
      rewrite IH by (rewrite length_insert; lia).
      rewrite (insert_alter_eq (fun v => g (f v)) ws i w Hw). reflexivity.
    + unfold ret at 1.
      rewrite IH by (rewrite length_insert; lia).
      rewrite (insert_alter_eq f ws i w Hw). reflexivity.
Qed.

End Mapper_loop.

Lemma map_32_closed (zero_mode_used : bool) (x : Z) :
  0 <= x < 2 ^ 32 ->
  map_32 zero_mode_used x
  = ((if x <? 2 ^ 31 then 2 * x else 2 * (2 ^ 32 - x) - 1)
     + Z.b2z zero_mode_used) mod 2 ^ 32.
Proof.
  intros Hx. unfold map_32, map_to_pos_alg_32, to_signed, add32, u32, wrap.
  change (2 ^ (32 - 1)) with (2 ^ 31).
  destruct (Z.ltb_spec x (2 ^ 31)).
  - destruct (Z.ltb_spec x 0); [lia |].
    rewrite (Z.mod_small (x * 2)) by lia.
    destruct zero_mode_used; cbn [Z.b2z];
      [f_equal; lia | rewrite Z.add_0_r, Z.mod_small by lia; lia].
  - destruct (Z.ltb_spec (x - 2 ^ 32) 0); [| lia].
    rewrite (Z.mod_small (- (x - 2 ^ 32) * 2 - 1)) by lia.
    destruct zero_mode_used; cbn [Z.b2z];
      [f_equal; lia | rewrite Z.add_0_r, Z.mod_small by lia; lia].
Qed.

(** X17: [map_to_pos_32] replaces every word of the buffer by its image
    under [map_32] and returns 0.  On 32-bit words [map_32] never sends two
    residuals to the same value, with the increment of the zero escape
    mechanism or without it; with the increment the result 0, which the
    zero escape mechanism reserves, comes from the most negative residual
    [0x80000000] alone. *)
Theorem map_to_pos_32_buffer (a : nat) (h : store) (xs : list Z)
    (zero_mode_used : bool) :
  h !! a = Some (U32 <$> xs) ->
  map_to_pos_32 (Some a) (Z.of_nat (length xs)) zero_mode_used h
  = Some (0, <[a := U32 <$> (map_32 zero_mode_used <$> xs)]> h) /\
  (forall x, 0 <= x < 2 ^ 32 -> 0 <= map_32 zero_mode_used x < 2 ^ 32) /\
  (forall x y, 0 <= x < 2 ^ 32 -> 0 <= y < 2 ^ 32 ->
     map_32 zero_mode_used x = map_32 zero_mode_used y -> x = y) /\
  (forall x, 0 <= x < 2 ^ 32 -> (map_32 true x = 0 <-> x = 2 ^ 31)).
Proof.
  intros Hb.
  assert (Ha : (a < length h)%nat) by (apply lookup_lt_Some in Hb; exact Hb).
  split; [| split; [| split]].
  - unfold map_to_pos_32.
    destruct (Z.eqb_spec (Z.of_nat (length xs)) 0) as [Hz | Hnz].
    + assert (xs = []) as -> by (destruct xs; [reflexivity | simpl in Hz; lia]).
      simpl in *. rewrite (list_insert_id h a _ Hb). reflexivity.
    + rewrite is_null_Some, Nat2Z.id.
      rewrite <- (list_insert_id h a _ Hb) at 1.
      rewrite (bind_eq _ _ _ _ _
                 (mapper_loop U32 load_u32 load_u32_Some ltac:(reflexivity)
                    (fun v => map_to_pos_alg_32 (to_signed 32 v))
                    (fun v => add32 v 1) zero_mode_used a h (length xs) 0 xs
                    Ha ltac:(lia))).
      rewrite map_range_all. reflexivity.
  - intros x Hx. rewrite map_32_closed by exact Hx.
    apply Z.mod_pos_bound. lia.
  - intros x y Hx Hy. rewrite !map_32_closed by assumption.
    destruct (Z.ltb_spec x (2 ^ 31)), (Z.ltb_spec y (2 ^ 31));
      destruct zero_mode_used; cbn [Z.b2z]; intros Heq; zlia.
  - intros x Hx. rewrite map_32_closed by exact Hx. cbn [Z.b2z].
    destruct (Z.ltb_spec x (2 ^ 31)); split; intros Heq; zlia.
Qed.

Lemma map_to_pos_32_buffer_witness :
  let h : store := [U32 <$> [5; 0xfffffffe; 0x80000000]] in
  h !! 0%nat = Some (U32 <$> [5; 0xfffffffe; 0x80000000]) /\
  map_to_pos_32 (Some 0%nat) 3 true h
  = Some (0, [U32 <$> [11; 4; 0]]).
Proof.
  intros h.
  assert (Hb : h !! 0%nat = Some (U32 <$> [5; 0xfffffffe; 0x80000000]))
    by reflexivity.
  split; [exact Hb |].
  exact (proj1 (map_to_pos_32_buffer 0 h [5; 0xfffffffe; 0x80000000] true
                  Hb)).
Defined.

(** ** Model pre-processing without a buffer for the updated model *)

Section Model_fallback.

Context `{cmp_support}.

Lemma model_16_in_place (pd pm : nat) (h : store) (xs ms : list Z)
    (model_value round : Z) :
  pd <> pm ->
  h !! pd = Some (U16 <$> xs) -> h !! pm = Some (U16 <$> ms) ->
  length ms = length xs -> (1 <= length xs)%nat ->
  model_value <= MAX_MODEL_VALUE ->
  exists h',
    model_16 (Some pd) (Some pm) None (Z.of_nat (length xs))
             model_value round h
    = Some (0, h') /\
    h' !! pd = Some (U16 <$> zip_with (model_residual_16 round) xs ms) /\
    h' !! pm
    = Some (U16 <$> zip_with (updated_model_16 round model_value) xs ms) /\
    (forall q, q <> pd -> q <> pm -> h' !! q = h !! q).
Proof.
  intros Hne Hd Hm Hlen Hn Hmv.
  destruct (model_loop_in_place U16 load_u16 load_u16_Some
              ltac:(reflexivity) (model_residual_16 round)
              (updated_model_16 round model_value) pd pm h xs ms
              Hne Hd Hm Hlen) as (h' & Hrun & Hd' & Hm' & _ & Hq').
  exists h'. unfold model_16.
  assert ((Z.of_nat (length xs) =? 0) = false) as ->
    by (apply Z.eqb_neq; lia).
  rewrite !is_null_Some, is_null_None.
  assert ((model_value >? MAX_MODEL_VALUE) = false) as ->.
  { destruct (Z.gtb_spec model_value MAX_MODEL_VALUE); [lia | reflexivity]. }
  rewrite Nat2Z.id.
  split; [| auto].
  exact (bind_eq _ _ _ _ _ Hrun).
Qed.

Lemma model_S_FX_in_place (pd pm : nat) (h : store)
    (xs ms : list S_FX.t) (model_value round : Z) :
  pd <> pm ->
  h !! pd = Some (C_S_FX <$> xs) -> h !! pm = Some (C_S_FX <$> ms) ->
  length ms = length xs -> (1 <= length xs)%nat ->
  model_value <= MAX_MODEL_VALUE ->
  exists h',
    model_S_FX (Some pd) (Some pm) None (Z.of_nat (length xs))
               model_value round h
    = Some (0, h') /\
    h' !! pd
    = Some (C_S_FX <$> zip_with (model_residual_S_FX round) xs ms) /\
    h' !! pm
    = Some (C_S_FX
              <$> zip_with (updated_model_S_FX round model_value) xs ms) /\
    (forall q, q <> pd -> q <> pm -> h' !! q = h !! q).
Proof.
  intros Hne Hd Hm Hlen Hn Hmv.
  destruct (model_loop_in_place C_S_FX load_S_FX load_S_FX_Some
              ltac:(reflexivity) (model_residual_S_FX round)
              (updated_model_S_FX round model_value) pd pm h xs ms
              Hne Hd Hm Hlen) as (h' & Hrun & Hd' & Hm' & _ & Hq').
  exists h'. unfold model_S_FX.
  assert ((Z.of_nat (length xs) =? 0) = false) as ->
    by (apply Z.eqb_neq; lia).
  rewrite !is_null_Some, is_null_None.
  assert ((model_value >? MAX_MODEL_VALUE) = false) as ->.
  { destruct (Z.gtb_spec model_value MAX_MODEL_VALUE); [lia | reflexivity]. }
  rewrite Nat2Z.id.
  split; [| auto].
  exact (bind_eq _ _ _ _ _ Hrun).
Qed.

End Model_fallback.

(** X20: without a buffer for the updated model ([icu_new_model_buf] is
    [NULL]) the 16-bit and the S_FX model modes work in place, as the
    32-bit model modes always do: [pre_process] returns 0, leaves the
    residuals in the input buffer and writes the updated model over the
    model buffer, sample by sample from the model value it has just read;
    no other buffer changes. *)
Theorem pre_process_model_without_new_model_buf `{cmp_support}
    (pd pm : nat) :
  pd <> pm ->
  (forall (cfg : cmp_cfg) (h : store) (xs ms : list Z),
     model_16_mode (cmp_mode_of cfg) = true ->
     input_buf cfg = Some pd -> model_buf cfg = Some pm ->
     icu_new_model_buf cfg = None ->
     h !! pd = Some (U16 <$> xs) -> h !! pm = Some (U16 <$> ms) ->
     samples cfg = Z.of_nat (length xs) -> length ms = length xs ->
     (1 <= length xs)%nat -> model_value cfg <= MAX_MODEL_VALUE ->
     exists h',
       pre_process cfg h = Some (0, h') /\
       h' !! pd
       = Some (U16 <$> zip_with (model_residual_16 (round cfg)) xs ms) /\
       h' !! pm
       = Some (U16 <$> zip_with (updated_model_16 (round cfg)
                                                  (model_value cfg))
                                xs ms) /\
       (forall q, q <> pd -> q <> pm -> h' !! q = h !! q)) /\
  (forall (cfg : cmp_cfg) (h : store) (xs ms : list S_FX.t),
     model_S_FX_mode (cmp_mode_of cfg) = true ->
     input_buf cfg = Some pd -> model_buf cfg = Some pm ->
     icu_new_model_buf cfg = None ->
     h !! pd = Some (C_S_FX <$> xs) -> h !! pm = Some (C_S_FX <$> ms) ->
     samples cfg = Z.of_nat (length xs) -> length ms = length xs ->
     (1 <= length xs)%nat -> model_value cfg <= MAX_MODEL_VALUE ->
     exists h',
       pre_process cfg h = Some (0, h') /\
       h' !! pd
       = Some (C_S_FX <$> zip_with (model_residual_S_FX (round cfg)) xs ms) /\
       h' !! pm
       = Some (C_S_FX <$> zip_with (updated_model_S_FX (round cfg)
                                                       (model_value cfg))
                                   xs ms) /\
       (forall q, q <> pd -> q <> pm -> h' !! q = h !! q)).
Proof.
  intros Hne. split.
  - intros cfg h xs ms Hmode Hin Hmod Hnew Hd Hm Hs Hlen Hn Hmv.
    destruct (model_16_in_place pd pm h xs ms (model_value cfg) (round cfg)
                Hne Hd Hm Hlen Hn Hmv) as (h' & Hrun & Hres).
    exists h'. split; [| exact Hres].
    unfold pre_process. rewrite Hs, Hin, Hmod, Hnew, is_null_Some.
    assert ((Z.of_nat (length xs) =? 0) = false) as ->
      by (apply Z.eqb_neq; lia).
    destruct (cmp_mode_of cfg); try discriminate Hmode; exact Hrun.
  - intros cfg h xs ms Hmode Hin Hmod Hnew Hd Hm Hs Hlen Hn Hmv.
    destruct (model_S_FX_in_place pd pm h xs ms (model_value cfg)
                (round cfg) Hne Hd Hm Hlen Hn Hmv) as (h' & Hrun & Hres).
    exists h'. split; [| exact Hres].
    unfold pre_process. rewrite Hs, Hin, Hmod, Hnew, is_null_Some.
    assert ((Z.of_nat (length xs) =? 0) = false) as ->
      by (apply Z.eqb_neq; lia).
    destruct (cmp_mode_of cfg); try discriminate Hmode; exact Hrun.
Qed.

Lemma pre_process_model_without_new_model_buf_witness :
  let cfg := mk_cfg MODE_MODEL_MULTI 4 16 8 0 2 4
                    (Some 0%nat) (Some 1%nat) None (Some 2%nat) 0 0 in
  let h : store := [U16 <$> [100; 7]; U16 <$> [95; 9]; U32 <$> [0; 0]] in
  exists h',
    @pre_process sample_support cfg h = Some (0, h') /\
    h' !! 0%nat = Some (U16 <$> [5; 65534]) /\
    h' !! 1%nat = Some (U16 <$> [97; 8]).
Proof.
  intros cfg h.
  assert (H0 : 0%nat <> 1%nat) by lia.
  assert (H1 : model_16_mode (cmp_mode_of cfg) = true) by reflexivity.
  assert (H2 : input_buf cfg = Some 0%nat) by reflexivity.
  assert (H3 : model_buf cfg = Some 1%nat) by reflexivity.
  assert (H4 : icu_new_model_buf cfg = None) by reflexivity.
  assert (H5 : h !! 0%nat = Some (U16 <$> [100; 7])) by reflexivity.
  assert (H6 : h !! 1%nat = Some (U16 <$> [95; 9])) by reflexivity.
  assert (H7 : samples cfg = Z.of_nat (length [100; 7])) by reflexivity.
  assert (H8 : length [95; 9] = length [100; 7]) by reflexivity.
  assert (H9 : (1 <= length [100; 7])%nat) by (simpl; lia).
  assert (H10 : model_value cfg <= MAX_MODEL_VALUE)
    by (vm_compute; discriminate).
  destruct (proj1 (@pre_process_model_without_new_model_buf sample_support
                     0 1 H0)
              cfg h [100; 7] [95; 9] H1 H2 H3 H4 H5 H6 H7 H8 H9 H10)
    as (h' & Hrun & Hd & Hm & _).
  exists h'. split; [exact Hrun |]. split; [exact Hd | exact Hm].
Defined.

(** ** The bitstream of a buffer of normal values *)

Lemma set_cmp_size_same (enc : encoder_struct) :
  set_cmp_size enc (cmp_size enc) = enc.
Proof. destruct enc. reflexivity. Qed.

Lemma total_length_nonneg (cws : list (Z * Z)) :
  Forall (fun c => 1 <= fst c <= 32) cws -> 0 <= total_length cws.
Proof.
  induction cws as [| c cws IH]; intros HF; cbn [total_length foldr];
    [lia |].
  apply Forall_cons in HF as [Hc HF]. specialize (IH HF).
  unfold total_length in IH. cbv beta in *. lia.
Qed.

Lemma encode_value_normal (cfg : cmp_cfg) (v bit_len : Z)
    (enc : encoder_struct) :
  is_normal_value cfg v ->
  encode_value v bit_len cfg enc = encode_normal v cfg enc.
Proof.
  intros [Hlt Hz]. unfold encode_value.
  destruct (Z.leb_spec (spill cfg) v); [lia |].
  destruct (zero_escape_mech_is_used (cmp_mode_of cfg)); [| reflexivity].
  destruct (Z.eqb_spec v 0); [| reflexivity].
  exfalso. apply Hz; [reflexivity | assumption].
Qed.

Section Stream.

(** The input buffer holds integers in cells made by [mk] and read by
    [ld]; [bit_len] is the width [encode_value] is told. *)
Variables (mk : Z -> cell) (ld : ptr -> nat -> M Z) (bit_len : Z).
Hypothesis ld_Some : forall a i h ws w,
  h !! a = Some (mk <$> ws) -> ws !! i = Some w ->
  ld (Some a) i h = Some (w, h).

Variables (cfg : cmp_cfg) (e : encoder_ptr) (L : Z).
Variables (pin pout : nat) (h : store) (vs : list Z) (nwords : nat).
Hypothesis Hptr : pin <> pout.
Hypothesis Hout : icu_output_buf cfg = Some pout.
Hypothesis Hin : h !! pin = Some (mk <$> vs).
Hypothesis Hpout : (pout < length h)%nat.
Hypothesis Hlen : 0 <= buffer_length cfg.
Hypothesis Hcap : (buffer_length cfg + 1) / 2 * 2 * 16 < 2 ^ 32.
Hypothesis Hwords :
  (buffer_length cfg + 1) / 2 * 2 * 16 <= 32 * Z.of_nat nwords.

Let codeword (v : Z) : Z * Z := call_encoder e v (golomb_par cfg) L.

Lemma encode_loop (rest pre : list Z) (ws : list Z)
    (enc : encoder_struct) :
  vs = pre ++ rest -> length ws = nwords ->
  encoder enc = Some e -> log2_golomb_par enc = L ->
  Forall (is_normal_value cfg) rest ->
  Forall (fun c => 1 <= fst c <= 32) (codeword <$> rest) ->
  0 <= cmp_size enc ->
  cmp_size enc + total_length (codeword <$> rest)
  <= (buffer_length cfg + 1) / 2 * 2 * 16 ->
  exists ws', length ws' = nwords /\
    for_loop (length rest) (length pre)
      (fun i enc =>
         let* v := ld (Some pin) i in encode_value v bit_len cfg enc)
      enc (<[pout := U32 <$> ws]> h)
    = Some ((0, set_cmp_size enc
                  (cmp_size enc + total_length (codeword <$> rest))),
            <[pout := U32 <$> ws']> h) /\
    (forall j, 0 <= j < 32 * Z.of_nat nwords ->
       stream_bit ws' j
       = if j <? cmp_size enc then stream_bit ws j
         else match emitted_bit (codeword <$> rest) (j - cmp_size enc) with
              | Some b => b
              | None => stream_bit ws j
              end).
Proof.
  revert pre ws enc.
  induction rest as [| v rest IH];
    intros pre ws enc Hvs Hws Henc HL Hnormal Hcw Hsize Hfit.
  - exists ws. split; [exact Hws |]. split.
    + cbn [length for_loop fmap list_fmap total_length foldr].
      rewrite Z.add_0_r, set_cmp_size_same. reflexivity.
    + intros j Hj. cbn [fmap list_fmap emitted_bit].
      destruct (j <? cmp_size enc); reflexivity.
  - rewrite fmap_cons in Hcw, Hfit |- *.
    apply Forall_cons in Hnormal as [Hv Hnormal].
    apply Forall_cons in Hcw as [Hc Hcw].
    pose proof (total_length_nonneg _ Hcw) as Hrest.
    cbn [total_length foldr] in Hfit |- *.
    fold (total_length (codeword <$> rest)) in Hfit |- *.
    set (h1 := <[pout := U32 <$> ws]> h).
    assert (Hin1 : h1 !! pin = Some (mk <$> vs))
      by (unfold h1; rewrite list_lookup_insert_ne by lia; exact Hin).
    assert (Hout1 : h1 !! pout = Some (U32 <$> ws))
      by (unfold h1; apply list_lookup_insert_eq; exact Hpout).
    assert (Hv_at : vs !! length pre = Some v).
    { rewrite Hvs, lookup_app_r by lia.
      replace (length pre - length pre)%nat with 0%nat by lia.
      reflexivity. }
    assert (Hcv : call_encoder e v (golomb_par cfg) (log2_golomb_par enc)
                  = codeword v) by (rewrite HL; reflexivity).
    destruct (encode_normal_written v cfg enc e Henc Hsize Hlen Hcap
                ltac:(rewrite Hcv; lia) h1 pout ws
                ltac:(rewrite Hcv; lia) ltac:(rewrite Hcv; exact Hc)
                Hout Hout1 ltac:(rewrite Hws; exact Hwords))
      as (ws1 & Hl1 & Hrun1 & Hbits1).
    rewrite Hcv in Hrun1, Hbits1.
    unfold h1 in Hrun1. rewrite list_insert_insert_eq in Hrun1.
    set (enc1 := set_cmp_size enc (cmp_size enc + fst (codeword v))) in *.
    destruct (IH (pre ++ [v]) ws1 enc1) as (ws' & Hl' & Hrun' & Hbits').
    + rewrite <- app_assoc. exact Hvs.
    + rewrite Hl1. exact Hws.
    + exact Henc.
    + exact HL.
    + exact Hnormal.
    + exact Hcw.
    + cbn [enc1 cmp_size set_cmp_size]. lia.
    + cbn [enc1 cmp_size set_cmp_size]. lia.
    + exists ws'. split; [exact Hl' |]. split.
      * cbn [length for_loop].
        unfold bind at 1. unfold bind at 1.
        rewrite (ld_Some pin (length pre) h1 vs v Hin1 Hv_at).
        rewrite (encode_value_normal cfg v bit_len enc Hv).
        fold h1 in Hrun1. rewrite Hrun1. cbn [Z.eqb].
        rewrite length_app in Hrun'. cbn [length] in Hrun'.
        replace (length pre + 1)%nat with (S (length pre)) in Hrun' by lia.
        rewrite Hrun'. unfold enc1, set_cmp_size.
        cbn [encoder log2_golomb_par cmp_size].
        do 4 f_equal. lia.
      * intros j Hj. rewrite (Hbits' j Hj).
        cbn [enc1 cmp_size set_cmp_size emitted_bit].
        rewrite (Hbits1 j ltac:(rewrite Hws; exact Hj)).
        destruct (codeword v) as [len cw] eqn:Ecw. cbn [fst snd] in *.
        destruct (Z.ltb_spec j (cmp_size enc + len));
          destruct (Z.ltb_spec j (cmp_size enc));
          destruct (Z.leb_spec (cmp_size enc) j);
          destruct (Z.ltb_spec (j - cmp_size enc) len);
          try lia; cbn [andb]; try reflexivity.
        -- f_equal. lia.
        -- replace (j - (cmp_size enc + len))
             with (j - cmp_size enc - len) by lia.
           reflexivity.
Qed.

End Stream.

(** X21: a buffer of values that all take a normal codeword of 1 to 32
    bits, with room for all of them in the output buffer.  [encode_16]
    (and [encode_32] on 32-bit words) returns 0, advances [cmp_size] by
    the sum of the codeword lengths, and leaves the codewords in the
    bitstream one after the other in the order of the samples, each with
    its most significant bit first, starting at the old [cmp_size]; the
    bits before and behind them keep their values. *)
Theorem encode_16_stream (cfg : cmp_cfg) (enc : encoder_struct)
    (e : encoder_ptr) (pin pout : nat) (h : store) (ws : list Z) :
  pin <> pout -> encoder enc = Some e ->
  icu_output_buf cfg = Some pout -> h !! pout = Some (U32 <$> ws) ->
  0 <= buffer_length cfg -> 0 <= cmp_size enc ->
  let capacity := (buffer_length cfg + 1) / 2 * 2 * 16 in
  let codeword v :=
    call_encoder e v (golomb_par cfg) (log2_golomb_par enc) in
  capacity < 2 ^ 32 -> capacity <= 32 * Z.of_nat (length ws) ->
  forall vs : list Z,
    samples cfg = Z.of_nat (length vs) ->
    Forall (is_normal_value cfg) vs ->
    Forall (fun c => 1 <= fst c <= 32) (codeword <$> vs) ->
    cmp_size enc + total_length (codeword <$> vs) <= capacity ->
    let result ws' :=
      Some ((0, set_cmp_size enc
                  (cmp_size enc + total_length (codeword <$> vs))),
            <[pout := U32 <$> ws']> h) in
    let stream ws' :=
      forall j, 0 <= j < 32 * Z.of_nat (length ws) ->
        stream_bit ws' j
        = if j <? cmp_size enc then stream_bit ws j
          else match emitted_bit (codeword <$> vs) (j - cmp_size enc) with
               | Some b => b
               | None => stream_bit ws j
               end in
    (h !! pin = Some (U16 <$> vs) ->
     exists ws', length ws' = length ws /\
       encode_16 (Some pin) cfg enc h = result ws' /\ stream ws') /\
    (h !! pin = Some (U32 <$> vs) -> input_buf cfg = Some pin ->
     exists ws', length ws' = length ws /\
       encode_32 cfg enc h = result ws' /\ stream ws').
Proof.
  intros Hptr Henc Hout Hb Hlen Hsize capacity codeword Hcap Hwords
         vs Hs Hnormal Hcw Hfit result stream.
  assert (Hpout : (pout < length h)%nat)
    by (apply lookup_lt_Some in Hb; exact Hb).
  split.
  - intros Hin.
    destruct (encode_loop U16 load_u16 16 load_u16_Some cfg e
                (log2_golomb_par enc) pin pout h vs (length ws)
                Hptr Hout Hin Hpout Hlen Hcap Hwords vs [] ws enc
                eq_refl eq_refl Henc eq_refl Hnormal Hcw Hsize Hfit)
      as (ws' & Hl & Hrun & Hbits).
    exists ws'. split; [exact Hl |]. split; [| exact Hbits].
    rewrite (list_insert_id h pout _ Hb) in Hrun.
    unfold encode_16. rewrite Hs, Nat2Z.id, is_null_Some.
    destruct vs as [| v vs'].
    + cbn [length Nat2Z.inj Z.of_nat Z.eqb]. exact Hrun.
    + assert ((Z.of_nat (length (v :: vs')) =? 0) = false) as ->
        by (apply Z.eqb_neq; cbn [length]; lia).
      exact Hrun.
  - intros Hin Hinput.
    destruct (encode_loop U32 load_u32 32 load_u32_Some cfg e
                (log2_golomb_par enc) pin pout h vs (length ws)
                Hptr Hout Hin Hpout Hlen Hcap Hwords vs [] ws enc
                eq_refl eq_refl Henc eq_refl Hnormal Hcw Hsize Hfit)
      as (ws' & Hl & Hrun & Hbits).
    exists ws'. split; [exact Hl |]. split; [| exact Hbits].
    rewrite (list_insert_id h pout _ Hb) in Hrun.
    unfold encode_32. rewrite Hs, Nat2Z.id, Hinput. exact Hrun.
Qed.

Lemma encode_16_stream_witness :
  let cfg := mk_cfg MODE_DIFF_MULTI 4 8 0 0 3 2 (Some 0%nat) None None
                    (Some 1%nat) 0 0 in
  let enc := mk_enc (Some Rice_ptr) 2 0 in
  let h : store := [U16 <$> [3; 6; 1]; [U32 0xffffffff]] in
  exists ws',
    encode_16 (Some 0%nat) cfg enc h
    = Some ((0, set_cmp_size enc 10), <[1%nat := U32 <$> ws']> h) /\
    stream_bit ws' 0 = false /\ stream_bit ws' 1 = true /\
    stream_bit ws' 3 = true /\ stream_bit ws' 10 = true.
Proof.
  intros cfg enc h.
  assert (H1 : 0%nat <> 1%nat) by lia.
  assert (H2 : encoder enc = Some Rice_ptr) by reflexivity.
  assert (H3 : icu_output_buf cfg = Some 1%nat) by reflexivity.
  assert (H4 : h !! 1%nat = Some (U32 <$> [0xffffffff])) by reflexivity.
  assert (H5 : 0 <= buffer_length cfg) by (cbn; lia).
  assert (H6 : 0 <= cmp_size enc) by (cbn; lia).
  assert (H7 : (buffer_length cfg + 1) / 2 * 2 * 16 < 2 ^ 32)
    by (vm_compute; reflexivity).
  assert (H8 : (buffer_length cfg + 1) / 2 * 2 * 16
               <= 32 * Z.of_nat (length [0xffffffff]))
    by (vm_compute; discriminate).
  assert (H9 : samples cfg = Z.of_nat (length [3; 6; 1])) by reflexivity.
  assert (H10 : Forall (is_normal_value cfg) [3; 6; 1]).
  { repeat constructor; cbn; try lia; discriminate. }
  assert (H11 : Forall (fun c => 1 <= fst c <= 32)
                  ((fun v => call_encoder Rice_ptr v (golomb_par cfg)
                               (log2_golomb_par enc)) <$> [3; 6; 1])).
  { repeat constructor; vm_compute; discriminate. }
  assert (H12 : cmp_size enc
                + total_length
                    ((fun v => call_encoder Rice_ptr v (golomb_par cfg)
                                 (log2_golomb_par enc)) <$> [3; 6; 1])
                <= (buffer_length cfg + 1) / 2 * 2 * 16)
    by (vm_compute; discriminate).
  destruct (proj1 (encode_16_stream cfg enc Rice_ptr 0 1 h [0xffffffff]
                     H1 H2 H3 H4 H5 H6 H7 H8 [3; 6; 1] H9 H10 H11 H12)
              eq_refl) as (ws' & _ & Hrun & Hbits).
  exists ws'. split; [exact Hrun |].
  repeat split; rewrite Hbits by (cbn; lia); reflexivity.
Defined.

Lemma cal_multi_offset_le (d : Z) : 0 <= d -> cal_multi_offset d <= d.
Proof.
  intros Hd. unfold cal_multi_offset.
  repeat match goal with
         | |- context [?a <=? ?b] => destruct (Z.leb_spec a b)
         end; lia.
Qed.

(** An escape symbol as a normal codeword and [n] unencoded bits behind
    it, as both [encode_outlier_multi] and [encode_outlier_zero] write
    them. *)
Lemma escape_then_unencoded (cfg : cmp_cfg) (enc : encoder_struct)
    (e : encoder_ptr) (sym data n : Z) (h : store) (pout : nat)
    (ws : list Z) :
  encoder enc = Some e ->
  icu_output_buf cfg = Some pout -> h !! pout = Some (U32 <$> ws) ->
  0 <= buffer_length cfg -> 0 <= cmp_size enc ->
  (buffer_length cfg + 1) / 2 * 2 * 16 < 2 ^ 32 ->
  (buffer_length cfg + 1) / 2 * 2 * 16 <= 32 * Z.of_nat (length ws) ->
  let cw := call_encoder e sym (golomb_par cfg) (log2_golomb_par enc) in
  1 <= fst cw <= 32 -> 1 <= n <= 32 ->
  cmp_size enc + fst cw + n <= (buffer_length cfg + 1) / 2 * 2 * 16 ->
  exists ws', length ws' = length ws /\
    (let* '(_, enc) := encode_normal sym cfg enc in
     let* r := put_n_bits32 data (cmp_size enc) n
                            (icu_output_buf cfg) (buffer_length cfg) in
     let err := to_signed 32 r in
     if err <=? 0 then ret (err, enc)
     else ret (0, set_cmp_size enc (add32 (cmp_size enc) n))) h
    = Some ((0, set_cmp_size enc (cmp_size enc + fst cw + n)),
            <[pout := U32 <$> ws']> h) /\
    (forall j, 0 <= j < 32 * Z.of_nat (length ws) ->
       stream_bit ws' j
       = if j <? cmp_size enc then stream_bit ws j
         else match emitted_bit [cw; (n, data)] (j - cmp_size enc) with
              | Some b => b
              | None => stream_bit ws j
              end).
Proof.
  intros Henc Hout Hb Hlen Hsize Hcap Hwords cw Hcw Hn Hfit.
  assert (Hpout : (pout < length h)%nat)
    by (apply lookup_lt_Some in Hb; exact Hb).
  destruct (encode_normal_written sym cfg enc e Henc Hsize Hlen Hcap
              ltac:(fold cw; lia) h pout ws ltac:(fold cw; lia) Hcw
              Hout Hb Hwords) as (ws1 & Hl1 & Hrun1 & Hbits1).
  fold cw in Hrun1, Hbits1.
  set (enc1 := set_cmp_size enc (cmp_size enc + fst cw)) in *.
  set (h1 := <[pout := U32 <$> ws1]> h) in *.
  assert (Hb1 : h1 !! pout = Some (U32 <$> ws1))
    by (unfold h1; apply list_lookup_insert_eq; exact Hpout).
  destruct (put_n_bits32_fits data (cmp_size enc1) n (buffer_length cfg)
              pout h1 ws1 Hb1 ltac:(cbn; lia) Hn Hlen Hcap
              ltac:(cbn; lia) ltac:(rewrite Hl1; exact Hwords))
    as (ws2 & Hl2 & Hrun2 & Hbits2).
  unfold h1 in Hrun2 at 2. rewrite list_insert_insert_eq in Hrun2.
  exists ws2. split; [congruence |]. split.
  - unfold bind at 1. rewrite Hrun1. cbv beta iota.
    rewrite Hout. unfold bind at 1. rewrite Hrun2.
    rewrite to_signed_small by lia.
    destruct (Z.leb_spec n 0); [lia |].
    unfold enc1, set_cmp_size. cbn [encoder log2_golomb_par cmp_size].
    rewrite add32_small by lia. reflexivity.
  - intros j Hj.
    rewrite (Hbits2 j ltac:(rewrite Hl1; exact Hj)), (Hbits1 j Hj).
    cbn [enc1 cmp_size set_cmp_size emitted_bit].
    destruct cw as [len c]. cbn [fst snd] in *.
    destruct (Z.leb_spec (cmp_size enc + len) j);
      destruct (Z.ltb_spec j (cmp_size enc + len + n));
      destruct (Z.leb_spec (cmp_size enc) j);
      destruct (Z.ltb_spec j (cmp_size enc + len));
      destruct (Z.ltb_spec j (cmp_size enc));
      destruct (Z.ltb_spec (j - cmp_size enc) len);
      destruct (Z.ltb_spec (j - cmp_size enc - len) n);
      try lia; cbn [andb]; try reflexivity; f_equal; lia.
Qed.

(** X23: a value that takes the outlier path, with an escape symbol of 1
    to 32 bits and room for everything.  Under the multi escape mechanism
    [encode_value] puts the codeword of [spill + offset] and behind it
    [u - spill] in [(offset + 1) * 2] bits; under the zero escape
    mechanism the codeword of 0 and behind it the [bit_len] low bits of
    the value.  It returns 0, [cmp_size] advances by both lengths, and
    the other bits of the stream stay as they were. *)
Theorem encode_value_outlier_stream (cfg : cmp_cfg) (enc : encoder_struct)
    (e : encoder_ptr) (u bit_len : Z) (h : store) (pout : nat)
    (ws : list Z) :
  encoder enc = Some e ->
  icu_output_buf cfg = Some pout -> h !! pout = Some (U32 <$> ws) ->
  0 <= buffer_length cfg -> 0 <= cmp_size enc ->
  0 <= u < 2 ^ 32 -> 0 <= spill cfg ->
  let capacity := (buffer_length cfg + 1) / 2 * 2 * 16 in
  let multi := multi_escape_mech_is_used (cmp_mode_of cfg) in
  let zero := zero_escape_mech_is_used (cmp_mode_of cfg) in
  capacity < 2 ^ 32 -> capacity <= 32 * Z.of_nat (length ws) ->
  (multi = true /\ spill cfg <= u) \/
  (multi = false /\ zero = true /\ (spill cfg <= u \/ u = 0) /\
   1 <= bit_len <= 32) ->
  let d := u - spill cfg in
  let sym := if multi then spill cfg + cal_multi_offset d else 0 in
  let n := if multi then (cal_multi_offset d + 1) * 2 else bit_len in
  let data := if multi then d else u in
  let cw := call_encoder e sym (golomb_par cfg) (log2_golomb_par enc) in
  1 <= fst cw <= 32 -> cmp_size enc + fst cw + n <= capacity ->
  exists ws', length ws' = length ws /\
    encode_value u bit_len cfg enc h
    = Some ((0, set_cmp_size enc (cmp_size enc + fst cw + n)),
            <[pout := U32 <$> ws']> h) /\
    (forall j, 0 <= j < 32 * Z.of_nat (length ws) ->
       stream_bit ws' j
       = if j <? cmp_size enc then stream_bit ws j
         else match emitted_bit [cw; (n, data)] (j - cmp_size enc) with
              | Some b => b
              | None => stream_bit ws j
              end).
Proof.
  intros Henc Hout Hb Hlen Hsize Hu Hspill capacity multi zero Hcap Hwords
         Hmode d sym n data cw Hcw Hfit.
  subst capacity multi zero sym n data cw.
  assert (Hcond : ((spill cfg <=? u)
                   || (zero_escape_mech_is_used (cmp_mode_of cfg)
                       && (u =? 0))) = true).
  { destruct Hmode as [[_ Hge] | (_ & Hz & [Hge | ->] & _)].
    - apply orb_true_iff. left. apply Z.leb_le. exact Hge.
    - apply orb_true_iff. left. apply Z.leb_le. exact Hge.
    - rewrite Hz. apply orb_true_r. }
  unfold encode_value. rewrite Hcond. unfold encode_outlier.
  destruct Hmode as [[Hm Hge] | (Hm & Hz & _ & Hbits)].
  - rewrite Hm in *.
    pose proof (cal_multi_offset_range d) as Hoff.
    pose proof (cal_multi_offset_le d ltac:(unfold d; lia)) as Hle.
    unfold encode_outlier_multi.
    rewrite (sub32_small u (spill cfg)) by lia. fold d.
    rewrite (add32_small (spill cfg) (cal_multi_offset d))
      by (unfold d in *; lia).
    rewrite (u32_small ((cal_multi_offset d + 1) * 2)) by lia.
    apply (escape_then_unencoded cfg enc e
             (spill cfg + cal_multi_offset d) d
             ((cal_multi_offset d + 1) * 2) h pout ws);
      try assumption; lia.
  - rewrite Hm in *. rewrite Hz.
    unfold encode_outlier_zero.
    destruct (Z.gtb_spec bit_len 32); [lia |].
    rewrite (u32_small bit_len) by lia.
    apply (escape_then_unencoded cfg enc e 0 u bit_len h pout ws);
      try assumption.
Qed.

Lemma encode_value_outlier_stream_witness :
  let cfg := mk_cfg MODE_DIFF_MULTI 4 2 0 0 1 4 (Some 0%nat) None None
                    (Some 1%nat) 0 0 in
  let enc := mk_enc (Some Rice_ptr) 2 0 in
  let h : store := [[U16 7]; [U32 0; U32 0]] in
  exists ws',
    encode_value 7 16 cfg enc h
    = Some ((0, set_cmp_size enc 7), <[1%nat := U32 <$> ws']> h) /\
    stream_bit ws' 0 = false /\ stream_bit ws' 1 = true /\
    stream_bit ws' 3 = false /\ stream_bit ws' 4 = true /\
    stream_bit ws' 6 = true.
Proof.
  intros cfg enc h.
  assert (H1 : encoder enc = Some Rice_ptr) by reflexivity.
  assert (H2 : icu_output_buf cfg = Some 1%nat) by reflexivity.
  assert (H3 : h !! 1%nat = Some (U32 <$> [0; 0])) by reflexivity.
  assert (H4 : 0 <= buffer_length cfg) by (cbn; lia).
  assert (H5 : 0 <= cmp_size enc) by (cbn; lia).
  assert (H6 : 0 <= 7 < 2 ^ 32) by lia.
  assert (H7 : 0 <= spill cfg) by (cbn; lia).
  assert (H8 : (buffer_length cfg + 1) / 2 * 2 * 16 < 2 ^ 32)
    by (vm_compute; reflexivity).
  assert (H9 : (buffer_length cfg + 1) / 2 * 2 * 16
               <= 32 * Z.of_nat (length [0; 0]))
    by (vm_compute; discriminate).
  destruct (encode_value_outlier_stream cfg enc Rice_ptr 7 16 h 1 [0; 0]
              H1 H2 H3 H4 H5 H6 H7 H8 H9)
    as (ws' & _ & Hrun & Hbits).
  - left. split; [reflexivity | cbn; lia].
  - vm_compute. split; discriminate.
  - vm_compute. discriminate.
  - exists ws'. split; [exact Hrun |].
    repeat split; rewrite Hbits by (cbn; lia); reflexivity.
Defined.

(** ** Codewords one after the other *)

Lemma total_length_app (a b : list (Z * Z)) :
  total_length (a ++ b) = total_length a + total_length b.
Proof.
  unfold total_length.
  induction a as [| c a IH]; cbn [app foldr]; [lia | rewrite IH; lia].
Qed.

Lemma writable_app (a b : list (Z * Z)) :
  writable (a ++ b) <-> writable a /\ writable b.
Proof. apply Forall_app. Qed.

Lemma writable_concat {A} (f : A -> list (Z * Z)) (l : list A) :
  Forall (fun a => writable (f a)) l -> writable (concat (f <$> l)).
Proof.
  induction l as [| a l IH]; intros HF; cbn [fmap list_fmap concat].
  - constructor.
  - apply Forall_cons in HF as [Ha HF].
    apply writable_app. split; [exact Ha | exact (IH HF)].
Qed.

Lemma writable_each {A} (f : A -> list (Z * Z)) (l : list A) :
  writable (concat (f <$> l)) -> Forall (fun a => writable (f a)) l.
Proof.
  induction l as [| a l IH]; intros Hw; cbn [fmap list_fmap concat] in Hw.
  - constructor.
  - apply writable_app in Hw as [Ha Hw].
    constructor; [exact Ha | exact (IH Hw)].
Qed.

Lemma emitted_bit_app (cws1 cws2 : list (Z * Z)) (j : Z) :
  writable cws1 -> 0 <= j ->
  emitted_bit (cws1 ++ cws2) j
  = if j <? total_length cws1 then emitted_bit cws1 j
    else emitted_bit cws2 (j - total_length cws1).
Proof.
  revert j. induction cws1 as [| [len cw] cws1 IH]; intros j Hw Hj.
  - cbn [app total_length foldr]. destruct (Z.ltb_spec j 0); [lia |].
    f_equal. lia.
  - apply Forall_cons in Hw as [Hc Hw]. cbn [fst] in Hc.
    pose proof (total_length_nonneg _ Hw) as Ht.
    cbn [app emitted_bit total_length foldr fst].
    fold (total_length cws1).
    destruct (Z.ltb_spec j len).
    + destruct (Z.ltb_spec j (len + total_length cws1)); [reflexivity | lia].
    + rewrite (IH (j - len) Hw ltac:(lia)).
      destruct (Z.ltb_spec (j - len) (total_length cws1));
        destruct (Z.ltb_spec j (len + total_length cws1)); try lia;
        [reflexivity | f_equal; lia].
Qed.

Lemma emitted_bit_behind (cws : list (Z * Z)) (j : Z) :
  writable cws -> total_length cws <= j -> emitted_bit cws j = None.
Proof.
  revert j. induction cws as [| [len cw] cws IH]; intros j Hw Hj;
    [reflexivity |].
  apply Forall_cons in Hw as [Hc Hw]. cbn [fst] in Hc.
  pose proof (total_length_nonneg _ Hw) as Ht.
  cbn [total_length foldr fst] in Hj. fold (total_length cws) in Hj.
  cbn [emitted_bit]. destruct (Z.ltb_spec j len); [lia |].
  apply IH; [exact Hw | lia].
Qed.

Lemma holds_codewords_nil (ws : list Z) (c : Z) : holds_codewords ws c [] ws.
Proof.
  split; [reflexivity |]. intros j _. cbn [emitted_bit].
  destruct (j <? c); reflexivity.
Qed.

Lemma holds_codewords_app (ws ws1 ws2 : list Z) (c : Z)
    (cws1 cws2 : list (Z * Z)) :
  writable cws1 ->
  holds_codewords ws c cws1 ws1 ->
  holds_codewords ws1 (c + total_length cws1) cws2 ws2 ->
  holds_codewords ws c (cws1 ++ cws2) ws2.
Proof.
  intros Hw [Hl1 Hb1] [Hl2 Hb2].
  pose proof (total_length_nonneg _ Hw) as Ht.
  split; [congruence |]. intros j Hj.
  rewrite (Hb2 j ltac:(rewrite Hl1; exact Hj)), (Hb1 j Hj).
  destruct (Z.ltb_spec j c).
  - destruct (Z.ltb_spec j (c + total_length cws1)); [reflexivity | lia].
  - rewrite (emitted_bit_app cws1 cws2 (j - c) Hw ltac:(lia)).
    destruct (Z.ltb_spec j (c + total_length cws1));
      destruct (Z.ltb_spec (j - c) (total_length cws1)); try lia.
    + reflexivity.
    + rewrite (emitted_bit_behind cws1 (j - c) Hw ltac:(lia)).
      replace (j - (c + total_length cws1))
        with (j - c - total_length cws1) by lia.
      reflexivity.
Qed.

(** One codeword, as [put_n_bits32] leaves it. *)
Lemma holds_codewords_single (ws ws' : list Z) (c len cw : Z) :
  length ws' = length ws ->
  (forall j, 0 <= j < 32 * Z.of_nat (length ws) ->
     stream_bit ws' j
     = if (c <=? j) && (j <? c + len)
       then Z.testbit cw (c + len - 1 - j)
       else stream_bit ws j) ->
  holds_codewords ws c [(len, cw)] ws'.
Proof.
  intros Hl Hb. split; [exact Hl |]. intros j Hj. rewrite (Hb j Hj).
  cbn [emitted_bit].
  destruct (Z.leb_spec c j); destruct (Z.ltb_spec j (c + len));
    destruct (Z.ltb_spec j c); destruct (Z.ltb_spec (j - c) len);
    try lia; cbn [andb]; try reflexivity.
  f_equal. lia.
Qed.

(** ** What one call of the encoder leaves in the bitstream *)

Lemma set_cmp_size_twice (enc : encoder_struct) (a b : Z) :
  set_cmp_size (set_cmp_size enc a) b = set_cmp_size enc b.
Proof. reflexivity. Qed.

Section Steps.

Variables (cfg : cmp_cfg) (e : encoder_ptr) (pout : nat) (h : store)
  (nwords : nat).
Hypothesis Hout : icu_output_buf cfg = Some pout.
Hypothesis Hpout : (pout < length h)%nat.
Hypothesis Hlen : 0 <= buffer_length cfg.
Hypothesis Hcap : (buffer_length cfg + 1) / 2 * 2 * 16 < 2 ^ 32.
Hypothesis Hwords :
  (buffer_length cfg + 1) / 2 * 2 * 16 <= 32 * Z.of_nat nwords.

Lemma encode_normal_emits (v : Z) (enc : encoder_struct) (ws : list Z) :
  encoder enc = Some e -> length ws = nwords -> 0 <= cmp_size enc ->
  let cw := call_encoder e v (golomb_par cfg) (log2_golomb_par enc) in
  writable [cw] ->
  cmp_size enc + total_length [cw] <= (buffer_length cfg + 1) / 2 * 2 * 16 ->
  exists ws',
    encode_normal v cfg enc (<[pout := U32 <$> ws]> h)
    = Some ((0, set_cmp_size enc (cmp_size enc + total_length [cw])),
            <[pout := U32 <$> ws']> h) /\
    holds_codewords ws (cmp_size enc) [cw] ws'.
Proof.
  intros Henc Hws Hsize cw Hw Hfit.
  apply Forall_cons in Hw as [Hc _].
  cbn [total_length foldr] in Hfit |- *. rewrite Z.add_0_r in Hfit |- *.
  set (h1 := <[pout := U32 <$> ws]> h).
  assert (Hb : h1 !! pout = Some (U32 <$> ws))
    by (apply list_lookup_insert_eq; exact Hpout).
  destruct (encode_normal_written v cfg enc e Henc Hsize Hlen Hcap
              ltac:(fold cw; lia) h1 pout ws ltac:(fold cw; lia) Hc
              Hout Hb ltac:(rewrite Hws; exact Hwords))
    as (ws' & Hl & Hrun & Hbits).
  fold cw in Hrun, Hbits. unfold h1 in Hrun at 2.
  rewrite list_insert_insert_eq in Hrun.
  exists ws'. split; [exact Hrun |].
  destruct cw as [len c]. cbn [fst snd] in *.
  apply holds_codewords_single; assumption.
Qed.

Lemma encode_value_emits (v bit_len : Z) (enc : encoder_struct)
    (ws : list Z) :
  encoder enc = Some e -> length ws = nwords -> 0 <= cmp_size enc ->
  multi_escape_mech_is_used (cmp_mode_of cfg) = true \/ 1 <= bit_len <= 32 ->
  has_escape cfg v ->
  let cws := emission cfg e (log2_golomb_par enc) bit_len v in
  writable cws ->
  cmp_size enc + total_length cws <= (buffer_length cfg + 1) / 2 * 2 * 16 ->
  exists ws',
    encode_value v bit_len cfg enc (<[pout := U32 <$> ws]> h)
    = Some ((0, set_cmp_size enc (cmp_size enc + total_length cws)),
            <[pout := U32 <$> ws']> h) /\
    holds_codewords ws (cmp_size enc) cws ws'.
Proof.
  intros Henc Hws Hsize Hbits Hesc cws Hw Hfit.
  unfold emission in cws. unfold encode_value.
  set (h1 := <[pout := U32 <$> ws]> h).
  assert (Hb : h1 !! pout = Some (U32 <$> ws))
    by (apply list_lookup_insert_eq; exact Hpout).
  destruct ((spill cfg <=? v)
            || (zero_escape_mech_is_used (cmp_mode_of cfg) && (v =? 0)))
    eqn:Eout.
  - assert (Hmode : multi_escape_mech_is_used (cmp_mode_of cfg) = true \/
                    zero_escape_mech_is_used (cmp_mode_of cfg) = true).
    { apply Hesc. apply orb_true_iff in Eout as [Hs | Hz].
      - left. apply Z.leb_le. exact Hs.
      - right. apply andb_true_iff in Hz as [Hz H0].
        split; [exact Hz | apply Z.eqb_eq; exact H0]. }
    unfold encode_outlier.
    destruct (multi_escape_mech_is_used (cmp_mode_of cfg)) eqn:Em.
    + unfold encode_outlier_multi.
      set (d := sub32 v (spill cfg)) in *.
      pose proof (cal_multi_offset_range d) as Hoff.
      rewrite (u32_small ((cal_multi_offset d + 1) * 2)) by lia.
      subst cws. apply Forall_cons in Hw as [Hc _].
      cbn [total_length foldr fst] in Hfit |- *.
      rewrite Z.add_0_r in Hfit |- *.
      destruct (escape_then_unencoded cfg enc e
                  (add32 (spill cfg) (cal_multi_offset d)) d
                  ((cal_multi_offset d + 1) * 2) h1 pout ws
                  Henc Hout Hb Hlen Hsize Hcap
                  ltac:(rewrite Hws; exact Hwords) Hc ltac:(lia)
                  ltac:(lia)) as (ws' & Hl & Hrun & Hstream).
      unfold h1 in Hrun at 2. rewrite list_insert_insert_eq in Hrun.
      exists ws'. split; [| split; assumption].
      rewrite Z.add_assoc. exact Hrun.
    + destruct Hmode as [Hm | Hz]; [discriminate |].
      subst cws. rewrite Hz in Hw, Hfit |- *.
      destruct Hbits as [Hm | Hbits]; [discriminate |].
      unfold encode_outlier_zero.
      destruct (Z.gtb_spec bit_len 32); [lia |].
      rewrite (u32_small bit_len) by lia.
      apply Forall_cons in Hw as [Hc _].
      cbn [total_length foldr fst] in Hfit |- *.
      rewrite Z.add_0_r in Hfit |- *.
      destruct (escape_then_unencoded cfg enc e 0 v bit_len h1 pout ws
                  Henc Hout Hb Hlen Hsize Hcap
                  ltac:(rewrite Hws; exact Hwords) Hc Hbits
                  ltac:(lia)) as (ws' & Hl & Hrun & Hstream).
      unfold h1 in Hrun at 2. rewrite list_insert_insert_eq in Hrun.
      exists ws'. split; [| split; assumption].
      rewrite Z.add_assoc. exact Hrun.
  - subst cws.
    apply (encode_normal_emits v enc ws Henc Hws Hsize Hw Hfit).
Qed.


Hypothesis Hescape :
  multi_escape_mech_is_used (cmp_mode_of cfg)
  || zero_escape_mech_is_used (cmp_mode_of cfg) = true.




End Steps.

(** ** Loops over the samples *)

Section Loop.

Context {St A : Type}.
Variables (pout : nat) (h : store) (nwords : nat) (cap : Z).
Variables (size : St -> Z) (inv : St -> Prop).
Variable body : nat -> St -> M (Z * St).
Variables (vs : list A) (cws : A -> list (Z * Z)).

Hypothesis body_emits : forall i a s ws,
  vs !! i = Some a -> writable (cws a) ->
  inv s -> length ws = nwords -> 0 <= size s ->
  size s + total_length (cws a) <= cap ->
  exists s' ws',
    body i s (<[pout := U32 <$> ws]> h)
    = Some ((0, s'), <[pout := U32 <$> ws']> h) /\
    inv s' /\ size s' = size s + total_length (cws a) /\
    holds_codewords ws (size s) (cws a) ws'.

Lemma loop_emits (rest pre : list A) (s : St) (ws : list Z) :
  vs = pre ++ rest -> Forall (fun a => writable (cws a)) rest ->
  inv s -> length ws = nwords -> 0 <= size s ->
  size s + total_length (concat (cws <$> rest)) <= cap ->
  exists s' ws',
    for_loop (length rest) (length pre) body s (<[pout := U32 <$> ws]> h)
    = Some ((0, s'), <[pout := U32 <$> ws']> h) /\
    inv s' /\ size s' = size s + total_length (concat (cws <$> rest)) /\
    holds_codewords ws (size s) (concat (cws <$> rest)) ws'.
Proof.
  revert pre s ws.
  induction rest as [| a rest IH]; intros pre s ws Hvs Hw Hinv Hws Hsize Hfit.
  - exists s, ws. cbn [length for_loop fmap list_fmap concat].
    split; [reflexivity |]. split; [exact Hinv |].
    split; [cbn; lia | apply holds_codewords_nil].
  - apply Forall_cons in Hw as [Ha Hw].
    cbn [fmap list_fmap concat] in Hfit |- *.
    fold (list_fmap A _ cws rest) in Hfit |- *.
    change (list_fmap A _ cws rest) with (cws <$> rest) in Hfit |- *.
    pose proof (total_length_nonneg _ Ha) as Hta.
    pose proof (total_length_nonneg _ (writable_concat cws rest Hw)) as Htr.
    rewrite total_length_app in Hfit |- *.
    assert (Hat : vs !! length pre = Some a).
    { rewrite Hvs, lookup_app_r by lia.
      replace (length pre - length pre)%nat with 0%nat by lia.
      reflexivity. }
    destruct (body_emits (length pre) a s ws Hat Ha Hinv Hws Hsize
                ltac:(lia)) as (s1 & ws1 & Hrun1 & Hinv1 & Hs1 & Hst1).
    destruct (IH (pre ++ [a]) s1 ws1) as (s2 & ws2 & Hrun2 & Hinv2 & Hs2 & Hst2).
    + rewrite <- app_assoc. exact Hvs.
    + exact Hw.
    + exact Hinv1.
    + destruct Hst1; congruence.
    + lia.
    + lia.
    + exists s2, ws2.
      split; [| split; [exact Hinv2 | split; [lia |]]].
      * cbn [length for_loop]. unfold bind at 1. rewrite Hrun1.
        cbn [Z.eqb]. rewrite length_app in Hrun2. cbn [length] in Hrun2.
        replace (length pre + 1)%nat with (S (length pre)) in Hrun2 by lia.
        exact Hrun2.
      * apply (holds_codewords_app ws ws1 ws2 (size s) (cws a)
                 (concat (cws <$> rest)) Ha Hst1).
        rewrite <- Hs1. exact Hst2.
Qed.

End Loop.

(** ** The encoders of the sample structures *)

Lemma load_S_FX_at (pin pout i : nat) (h : store) (vs : list S_FX.t)
    (s : S_FX.t) (ws0 : list Z) :
  pin <> pout -> h !! pin = Some (C_S_FX <$> vs) -> vs !! i = Some s ->
  load_S_FX (Some pin) i (<[pout := U32 <$> ws0]> h)
  = Some (s, <[pout := U32 <$> ws0]> h).
Proof.
  intros Hptr Hb Hs. apply (load_S_FX_Some pin i _ vs s); [| exact Hs].
  rewrite list_lookup_insert_ne by lia. exact Hb.
Qed.





Section Shapes.

Context `{cmp_support}.

Variables (cfg : cmp_cfg) (e : encoder_ptr) (pin pout : nat) (h : store)
  (nwords : nat).
Hypothesis Hptr : pin <> pout.
Hypothesis Hin : input_buf cfg = Some pin.
Hypothesis Hout : icu_output_buf cfg = Some pout.
Hypothesis Hpout : (pout < length h)%nat.
Hypothesis Hlen : 0 <= buffer_length cfg.
Hypothesis Hcap : (buffer_length cfg + 1) / 2 * 2 * 16 < 2 ^ 32.
Hypothesis Hwords :
  (buffer_length cfg + 1) / 2 * 2 * 16 <= 32 * Z.of_nat nwords.
Hypothesis Hescape :
  multi_escape_mech_is_used (cmp_mode_of cfg)
  || zero_escape_mech_is_used (cmp_mode_of cfg) = true.

Let st (ws : list Z) : store := <[pout := U32 <$> ws]> h.




(** [encode_S_FX] keeps two encoder states, [enc] and [enc_exp_flag],
    whose sizes it copies to and fro. *)
Lemma encode_S_FX_emits (vs : list S_FX.t) (enc : encoder_struct)
    (ws : list Z) :
  h !! pin = Some (C_S_FX <$> vs) ->
  samples cfg = Z.of_nat (length vs) ->
  encoder enc = Some e -> length ws = nwords -> 0 <= cmp_size enc ->
  let cws := concat (codewords_S_FX cfg e <$> vs) in
  writable cws ->
  cmp_size enc + total_length cws <= (buffer_length cfg + 1) / 2 * 2 * 16 ->
  exists enc' ws',
    encode_S_FX cfg enc (st ws) = Some ((0, enc'), st ws') /\
    encoder enc' = Some e /\
    cmp_size enc' = cmp_size enc + total_length cws /\
    holds_codewords ws (cmp_size enc) cws ws'.
Proof.
  intros Hb Hs Henc Hws Hsize cws Hw Hfit.
  unfold encode_S_FX. rewrite Hs, Nat2Z.id, Hin.
  set (inv := fun s : encoder_struct * encoder_struct =>
                encoder (fst s) = Some e /\ encoder (snd s) = Some e /\
                log2_golomb_par (snd s) = ilog_2 GOLOMB_PAR_EXPOSURE_FLAGS /\
                cmp_size (snd s) = cmp_size (fst s)).
  match goal with
  | |- context [for_loop _ _ ?b _] => set (body := b)
  end.
  assert (Hbody : forall i a s ws0,
            vs !! i = Some a -> writable (codewords_S_FX cfg e a) ->
            inv s -> length ws0 = nwords -> 0 <= cmp_size (fst s) ->
            cmp_size (fst s) + total_length (codewords_S_FX cfg e a)
            <= (buffer_length cfg + 1) / 2 * 2 * 16 ->
            exists s' ws',
              body i s (st ws0) = Some ((0, s'), st ws') /\
              inv s' /\
              cmp_size (fst s')
              = cmp_size (fst s) + total_length (codewords_S_FX cfg e a) /\
              holds_codewords ws0 (cmp_size (fst s))
                (codewords_S_FX cfg e a) ws').
  { clear ws Hws Hw Hfit cws Hsize. subst body. cbv beta.
      intros i s [enc0 ef0] ws Hat Hw (He0 & Hf0 & HL0 & Hsz0) Hws Hsize Hfit.
      cbn [fst snd] in *. unfold codewords_S_FX in *.
      apply writable_app in Hw as [Hw1 Hw2].
      pose proof (total_length_nonneg _ Hw1) as Ht1.
      pose proof (total_length_nonneg _ Hw2) as Ht2.
      rewrite total_length_app in Hfit |- *.
      assert (Hld : forall ws0, load_S_FX (Some pin) i (st ws0)
                                = Some (s, st ws0))
        by (intros ws0; apply (load_S_FX_at pin pout i h vs); assumption).
      set (cfg_exp_flag := set_golomb_par cfg GOLOMB_PAR_EXPOSURE_FLAGS).
      assert (Hsize0 : 0 <= cmp_size ef0) by lia.
      set (flags := [call_encoder e (S_FX.EXPOSURE_FLAGS s)
                       GOLOMB_PAR_EXPOSURE_FLAGS
                       (ilog_2 GOLOMB_PAR_EXPOSURE_FLAGS)]) in *.
      assert (Hflags : [call_encoder e (S_FX.EXPOSURE_FLAGS s)
                          (golomb_par cfg_exp_flag) (log2_golomb_par ef0)]
                       = flags) by (rewrite HL0; reflexivity).
      assert (Hfit1 : cmp_size ef0 + total_length flags
                      <= (buffer_length cfg_exp_flag + 1) / 2 * 2 * 16)
        by (cbn [cfg_exp_flag buffer_length set_golomb_par]; lia).
      pose proof (encode_normal_emits cfg_exp_flag e pout h nwords Hout Hpout
                    Hlen Hcap Hwords (S_FX.EXPOSURE_FLAGS s) ef0 ws Hf0 Hws
                    Hsize0) as Hflag.
      cbv zeta in Hflag. rewrite Hflags in Hflag.
      destruct (Hflag Hw1 Hfit1) as (ws1 & Hrun1 & Hst1). clear Hflag.
      rewrite Hsz0 in Hrun1, Hst1.
      set (ef1 := set_cmp_size ef0 (cmp_size enc0 + total_length flags)) in *.
      set (enc1 := set_log2_golomb_par (set_cmp_size enc0 (cmp_size ef1))
                     (ilog_2 (golomb_par cfg))).
      assert (Hws1 : length ws1 = nwords) by (destruct Hst1; congruence).
      assert (Hsize1 : 0 <= cmp_size enc1)
        by (unfold enc1, ef1;
            cbn [cmp_size set_cmp_size set_log2_golomb_par]; lia).
      assert (Hbits : 1 <= 32 <= 32) by lia.
      assert (Hesc : has_escape cfg (S_FX.FX s))
        by (intros _; apply orb_true_iff; exact Hescape).
      set (fx := emission cfg e (ilog_2 (golomb_par cfg)) 32 (S_FX.FX s)) in *.
      assert (Hfit2 : cmp_size enc1 + total_length fx
                      <= (buffer_length cfg + 1) / 2 * 2 * 16)
        by (unfold enc1, ef1;
            cbn [cmp_size set_cmp_size set_log2_golomb_par]; lia).
      pose proof (encode_value_emits cfg e pout h nwords Hout Hpout Hlen Hcap
                    Hwords (S_FX.FX s) 32 enc1 ws1 He0 Hws1 Hsize1
                    (or_intror Hbits) Hesc) as Hvalue.
      cbv zeta in Hvalue.
      change (log2_golomb_par enc1) with (ilog_2 (golomb_par cfg)) in Hvalue.
      fold fx in Hvalue.
      destruct (Hvalue Hw2 Hfit2) as (ws2 & Hrun2 & Hst2). clear Hvalue.
      set (enc2 := set_cmp_size enc1 (cmp_size enc1 + total_length fx)) in *.
      exists (enc2, set_cmp_size ef1 (cmp_size enc2)), ws2.
      split; [| split; [| split]].
      - unfold bind. rewrite Hld. unfold st in *. fold cfg_exp_flag.
        rewrite Hrun1. cbn [Z.eqb negb]. rewrite Hld. fold enc1.
        rewrite Hrun2. cbn [Z.eqb negb]. reflexivity.
      - cbn [fst snd]. repeat split; try assumption; reflexivity.
      - cbn [fst enc2 enc1 ef1 cmp_size set_cmp_size set_log2_golomb_par]. lia.
      - cbn [fst]. apply (holds_codewords_app ws ws1 ws2 (cmp_size enc0)
                            flags fx Hw1 Hst1).
        exact Hst2. }
  destruct (loop_emits pout h nwords
              ((buffer_length cfg + 1) / 2 * 2 * 16)
              (fun s => cmp_size (fst s)) inv body vs
              (codewords_S_FX cfg e) Hbody vs []
              (enc, set_log2_golomb_par enc
                      (ilog_2 GOLOMB_PAR_EXPOSURE_FLAGS)) ws
              eq_refl (writable_each _ _ Hw)
              (conj Henc (conj Henc (conj eq_refl eq_refl)))
              Hws Hsize Hfit)
    as ([enc' ef'] & ws' & Hrun & (He & _) & Hs' & Hst).
  cbn [length] in Hrun. fold (st ws) (st ws') in Hrun.
  unfold bind. rewrite Hrun.
  exists enc', ws'. repeat split; try assumption; apply Hst.
Qed.

End Shapes.

(** ** The branches of the bit writer and the multi escape mechanism *)

Lemma put_n_bits32_by_branch (value bitOffset nBits : Z) (destAddr : ptr)
    (dest_len : Z) :
  put_n_bits32 value bitOffset nBits destAddr dest_len
  = match put_n_bits32_branch bitOffset nBits dest_len with
    | Small_buffer => ret neg2U
    | No_bits | Too_many_bits => ret 0
    | Write_bits => put_n_bits32_write value bitOffset nBits destAddr
    end.
Proof.
  unfold put_n_bits32, put_n_bits32_branch.
  destruct (_ >? _); [reflexivity |].
  destruct (nBits =? 0); [reflexivity |].
  destruct (nBits >? 32); reflexivity.
Qed.

(** C10, for the call that writes the unencoded data: the offset of the
    multi escape mechanism lies between 0 and 15 for every input; in
    [encode_outlier_multi] the length [(offset + 1) * 2] of the unencoded
    data is therefore between 2 and 32, the call of [put_n_bits32] that
    writes them leaves by the small-buffer branch or by the write and never
    by the branches for no bits or for more than 32 bits, and
    [encode_outlier_multi] is the function without these two guards in
    that call.  The call inside [encode_normal] that writes the escape
    symbol is not covered: the length there is the length of a
    codeword. *)
Theorem cal_multi_offset_bound (value : Z) (cfg : cmp_cfg)
    (enc : encoder_struct) (h : store) :
  (forall d, 0 <= cal_multi_offset d <= 15) /\
  (forall v bitOffset nBits destAddr dest_len,
     put_n_bits32 v bitOffset nBits destAddr dest_len
     = match put_n_bits32_branch bitOffset nBits dest_len with
       | Small_buffer => ret neg2U
       | No_bits | Too_many_bits => ret 0
       | Write_bits => put_n_bits32_write v bitOffset nBits destAddr
       end) /\
  let d := sub32 value (spill cfg) in
  let offset := cal_multi_offset d in
  let n := u32 ((offset + 1) * 2) in
  2 <= n <= 32 /\
  (forall bitOffset dest_len,
     put_n_bits32_branch bitOffset n dest_len = Small_buffer \/
     put_n_bits32_branch bitOffset n dest_len = Write_bits) /\
  encode_outlier_multi value cfg enc h
  = (let* '(_, enc) := encode_normal (add32 (spill cfg) offset) cfg enc in
     let* r :=
       if add32 (cmp_size enc) n
          >? mul32 (mul32 (add32 (buffer_length cfg) 1 / 2) 2) 16
       then ret neg2U
       else put_n_bits32_write d (cmp_size enc) n (icu_output_buf cfg) in
     let err := to_signed 32 r in
     if err <=? 0 then ret (err, enc)
     else ret (0, set_cmp_size enc (add32 (cmp_size enc) n))) h.
Proof.
  split; [exact cal_multi_offset_range |].
  split; [intros; apply put_n_bits32_by_branch |].
  intros d offset n. pose proof (cal_multi_offset_range d) as Hr.
  fold offset in Hr.
  assert (Hn : n = (offset + 1) * 2) by (unfold n; apply u32_small; lia).
  split; [lia |].
  assert (Hbranch : forall bitOffset dest_len,
            put_n_bits32_branch bitOffset n dest_len
            = if add32 bitOffset n
                 >? mul32 (mul32 (add32 dest_len 1 / 2) 2) 16
              then Small_buffer else Write_bits).
  { intros bitOffset dest_len. unfold put_n_bits32_branch.
    destruct (_ >? _); [reflexivity |].
    destruct (Z.eqb_spec n 0); [lia |].
    destruct (Z.gtb_spec n 32); [lia | reflexivity]. }
  split.
  - intros bitOffset dest_len. rewrite Hbranch.
    destruct (_ >? _); [left | right]; reflexivity.
  - unfold encode_outlier_multi. fold d offset n. unfold bind.
    destruct (encode_normal _ cfg enc h) as [[[err1 enc1] h1] |];
      [| reflexivity].
    cbv beta iota. rewrite put_n_bits32_by_branch, Hbranch.
    destruct (_ >? _); reflexivity.
Qed.

(** The claim as worded takes the branch of [put_n_bits32] for more than
    32 bits to be out of reach of the whole multi escape path.  With
    [golomb_par = 1] and [spill = 60] the escape symbol 60 of the value 61
    has a codeword of 61 bits; the call of [put_n_bits32] inside
    [encode_normal] takes that branch, the codeword is dropped, and
    [encode_outlier_multi] returns 0 with the two bits of unencoded data
    alone in the stream. *)
Lemma escape_symbol_branch_counterexample :
  let cfg := mk_cfg MODE_DIFF_MULTI 1 60 0 0 1 4 (Some 0%nat) None None
                    (Some 1%nat) 0 0 in
  let enc := mk_enc (Some Rice_ptr) 0 0 in
  let h : store := [[U16 61]; [U32 0; U32 0]] in
  let escape_sym :=
    add32 (spill cfg) (cal_multi_offset (sub32 61 (spill cfg))) in
  let cw :=
    call_encoder Rice_ptr escape_sym (golomb_par cfg)
                 (log2_golomb_par enc) in
  escape_sym = 60 /\ fst cw = 61 /\
  put_n_bits32_branch (cmp_size enc) (fst cw) (buffer_length cfg)
  = Too_many_bits /\
  put_n_bits32 (snd cw) (cmp_size enc) (fst cw) (icu_output_buf cfg)
               (buffer_length cfg) h = Some (0, h) /\
  encode_normal escape_sym cfg enc h = Some ((0, enc), h) /\
  encode_outlier_multi 61 cfg enc h
  = Some ((0, set_cmp_size enc 2),
          <[1%nat := U32 <$> [0x40000000; 0]]> h).
Proof. vm_compute. repeat split; reflexivity. Qed.

(** C4, for codewords that [put_n_bits32] writes and that the buffer has
    room for: in a multi escape mode [encode_value] takes the outlier path
    exactly for the values from the spill threshold on.  A value below
    it leaves one normal codeword in the bitstream; an outlier leaves the
    normal codeword of [spill + offset] and behind it [d = u - spill] in
    [(offset + 1) * 2] unencoded bits, with [offset] read off the sixteen
    rows of the step table (row [j] ends at [4 ^ (j + 1) - 1]).  The
    function returns 0, [cmp_size] advances by the bits written and no
    other bit of the stream changes. *)
Theorem encode_value_multi_escape (cfg : cmp_cfg) (enc : encoder_struct)
    (e : encoder_ptr) (u bit_len : Z) (h : store) (pout : nat)
    (ws : list Z) :
  multi_escape_mech_is_used (cmp_mode_of cfg) = true ->
  encoder enc = Some e ->
  icu_output_buf cfg = Some pout -> h !! pout = Some (U32 <$> ws) ->
  0 <= buffer_length cfg -> 0 <= cmp_size enc ->
  0 <= u < 2 ^ 32 -> 0 <= spill cfg ->
  let capacity := (buffer_length cfg + 1) / 2 * 2 * 16 in
  capacity < 2 ^ 32 -> capacity <= 32 * Z.of_nat (length ws) ->
  let codeword v :=
    call_encoder e v (golomb_par cfg) (log2_golomb_par enc) in
  let d := u - spill cfg in
  let offset := table_offset d in
  let cws :=
    if u <? spill cfg then [codeword u]
    else [codeword (spill cfg + offset); ((offset + 1) * 2, d)] in
  writable cws -> cmp_size enc + total_length cws <= capacity ->
  encode_value u bit_len cfg enc
  = (if u <? spill cfg then encode_normal u cfg enc
     else encode_outlier_multi u cfg enc) /\
  (spill cfg <= u -> 0 <= offset <= 15 /\ cal_multi_offset d = offset) /\
  multi_escape_rows = (fun j => 4 ^ (Z.of_nat j + 1) - 1) <$> seq 0 15 /\
  exists ws',
    encode_value u bit_len cfg enc h
    = Some ((0, set_cmp_size enc (cmp_size enc + total_length cws)),
            <[pout := U32 <$> ws']> h) /\
    holds_codewords ws (cmp_size enc) cws ws'.
Proof.
  intros Hmulti Henc Hout Hb Hlen Hsize Hu Hspill capacity Hcap Hwords
         codeword d offset cws Hw Hfit.
  pose proof (multi_not_zero _ Hmulti) as Hzero.
  assert (Hpout : (pout < length h)%nat)
    by (apply lookup_lt_Some in Hb; exact Hb).
  assert (Hoff : cal_multi_offset d = offset)
    by apply cal_multi_offset_table.
  assert (Hem : emission cfg e (log2_golomb_par enc) bit_len u = cws).
  { unfold emission, cws. rewrite Hmulti, Hzero, andb_false_l, orb_false_r.
    destruct (Z.leb_spec (spill cfg) u); destruct (Z.ltb_spec u (spill cfg));
      try lia; [| reflexivity].
    rewrite (sub32_small u (spill cfg)) by lia. fold d. rewrite Hoff.
    pose proof (cal_multi_offset_le d ltac:(unfold d; lia)) as Hle.
    pose proof (cal_multi_offset_range d) as Hr. rewrite Hoff in Hle, Hr.
    rewrite (add32_small (spill cfg) offset) by (unfold d in Hle; lia).
    reflexivity. }
  split.
  { unfold encode_value. rewrite Hzero, andb_false_l, orb_false_r.
    destruct (Z.leb_spec (spill cfg) u); destruct (Z.ltb_spec u (spill cfg));
      try lia; [| reflexivity].
    unfold encode_outlier. rewrite Hmulti. reflexivity. }
  split.
  { intros _. split; [| exact Hoff].
    rewrite <- Hoff. apply cal_multi_offset_range. }
  split; [exact multi_escape_rows_pow4 |].
  assert (Hesc : has_escape cfg u) by (intros _; left; exact Hmulti).
  pose proof (encode_value_emits cfg e pout h (length ws) Hout Hpout Hlen
                Hcap Hwords u bit_len enc ws Henc eq_refl Hsize
                (or_introl Hmulti) Hesc) as Hrun.
  cbv zeta in Hrun. rewrite Hem, (list_insert_id h pout _ Hb) in Hrun.
  exact (Hrun Hw Hfit).
Qed.

Lemma encode_value_multi_escape_witness :
  let cfg := mk_cfg MODE_DIFF_MULTI 4 2 0 0 1 4 (Some 0%nat) None None
                    (Some 1%nat) 0 0 in
  let enc := mk_enc (Some Rice_ptr) 2 3 in
  let h : store := [[U16 9]; [U32 0; U32 0]] in
  table_offset (9 - spill cfg) = 1 /\
  call_encoder Rice_ptr 3 4 2 = (3, 3) /\
  exists ws',
    encode_value 9 16 cfg enc h
    = Some ((0, set_cmp_size enc 10), <[1%nat := U32 <$> ws']> h) /\
    stream_bit ws' 3 = false /\ stream_bit ws' 4 = true /\
    stream_bit ws' 5 = true /\
    stream_bit ws' 6 = false /\ stream_bit ws' 7 = true /\
    stream_bit ws' 8 = true /\ stream_bit ws' 9 = true /\
    stream_bit ws' 10 = false.
Proof.
  intros cfg enc h.
  assert (H0 : multi_escape_mech_is_used (cmp_mode_of cfg) = true)
    by reflexivity.
  assert (H1 : encoder enc = Some Rice_ptr) by reflexivity.
  assert (H2 : icu_output_buf cfg = Some 1%nat) by reflexivity.
  assert (H3 : h !! 1%nat = Some (U32 <$> [0; 0])) by reflexivity.
  assert (H4 : 0 <= buffer_length cfg) by (cbn; lia).
  assert (H5 : 0 <= cmp_size enc) by (cbn; lia).
  assert (H6 : 0 <= 9 < 2 ^ 32) by lia.
  assert (H7 : 0 <= spill cfg) by (cbn; lia).
  assert (H8 : (buffer_length cfg + 1) / 2 * 2 * 16 < 2 ^ 32)
    by (vm_compute; reflexivity).
  assert (H9 : (buffer_length cfg + 1) / 2 * 2 * 16
               <= 32 * Z.of_nat (length [0; 0]))
    by (vm_compute; discriminate).
  split; [reflexivity |]. split; [reflexivity |].
  destruct (encode_value_multi_escape cfg enc Rice_ptr 9 16 h 1 [0; 0]
              H0 H1 H2 H3 H4 H5 H6 H7 H8 H9)
    as (_ & _ & _ & ws' & Hrun & _ & Hbits).
  - repeat constructor; vm_compute; discriminate.
  - vm_compute. discriminate.
  - exists ws'. split; [exact Hrun |].
    repeat split; rewrite Hbits by (cbn; lia); reflexivity.
Defined.

(** The claim as worded has no condition on the length of the codewords.
    With [golomb_par = 2] and [spill = 70] the escape symbol 71 of the
    value 75 has a codeword of 37 bits: the buffer has room for the 41
    bits of the emission, and [encode_value] returns 0 with [cmp_size] at
    4 and the four bits of unencoded data alone in the stream. *)
Lemma multi_escape_long_codeword_counterexample :
  ~ (forall (cfg : cmp_cfg) (enc : encoder_struct) (e : encoder_ptr)
       (u bit_len : Z) (h : store) (pout : nat) (ws : list Z),
       multi_escape_mech_is_used (cmp_mode_of cfg) = true ->
       encoder enc = Some e ->
       icu_output_buf cfg = Some pout -> h !! pout = Some (U32 <$> ws) ->
       0 <= buffer_length cfg -> 0 <= cmp_size enc ->
       0 <= u < 2 ^ 32 -> 0 <= spill cfg ->
       let capacity := (buffer_length cfg + 1) / 2 * 2 * 16 in
       capacity < 2 ^ 32 -> capacity <= 32 * Z.of_nat (length ws) ->
       let codeword v :=
         call_encoder e v (golomb_par cfg) (log2_golomb_par enc) in
       let d := u - spill cfg in
       let offset := table_offset d in
       let cws :=
         if u <? spill cfg then [codeword u]
         else [codeword (spill cfg + offset); ((offset + 1) * 2, d)] in
       cmp_size enc + total_length cws <= capacity ->
       exists ws',
         encode_value u bit_len cfg enc h
         = Some ((0, set_cmp_size enc (cmp_size enc + total_length cws)),
                 <[pout := U32 <$> ws']> h) /\
         holds_codewords ws (cmp_size enc) cws ws').
Proof.
  intros Hclaim.
  destruct (Hclaim
              (mk_cfg MODE_DIFF_MULTI 2 70 0 0 1 4 (Some 0%nat) None None
                      (Some 1%nat) 0 0)
              (mk_enc (Some Rice_ptr) 1 0) Rice_ptr 75 16
              [[U16 75]; [U32 0; U32 0]] 1%nat [0; 0]
              eq_refl eq_refl eq_refl eq_refl
              ltac:(cbn; lia) ltac:(cbn; lia) ltac:(lia) ltac:(cbn; lia)
              ltac:(vm_compute; reflexivity)
              ltac:(vm_compute; discriminate)
              ltac:(vm_compute; discriminate))
    as (ws' & Hrun & _).
  vm_compute in Hrun. discriminate Hrun.
Qed.

(** ** The encoders of the sample structures on the bitstream *)

(** X18: [encode_S_FX] on a buffer of samples whose codewords have 1 to 32
    bits each, with room for all of them.  With its two encoder states
    the function leaves in the bitstream, sample after sample, the normal
    codeword of the exposure flags under [GOLOMB_PAR_EXPOSURE_FLAGS]
    (without an escape mechanism, by the encoder function that [enc]
    came with) and behind it what [encode_value] gives for [FX] under the
    configured Golomb parameter and its logarithm.  It returns 0, the
    encoder function stays, [cmp_size] advances by the bits written and no
    other bit of the stream changes. *)
Theorem encode_S_FX_stream `{cmp_support} (cfg : cmp_cfg)
    (enc : encoder_struct) (e : encoder_ptr) (pin pout : nat) (h : store)
    (ws : list Z) (vs : list S_FX.t) :
  pin <> pout -> encoder enc = Some e ->
  input_buf cfg = Some pin -> icu_output_buf cfg = Some pout ->
  h !! pin = Some (C_S_FX <$> vs) -> h !! pout = Some (U32 <$> ws) ->
  samples cfg = Z.of_nat (length vs) ->
  0 <= buffer_length cfg -> 0 <= cmp_size enc ->
  multi_escape_mech_is_used (cmp_mode_of cfg)
  || zero_escape_mech_is_used (cmp_mode_of cfg) = true ->
  let capacity := (buffer_length cfg + 1) / 2 * 2 * 16 in
  capacity < 2 ^ 32 -> capacity <= 32 * Z.of_nat (length ws) ->
  let sample s :=
    [call_encoder e (S_FX.EXPOSURE_FLAGS s) GOLOMB_PAR_EXPOSURE_FLAGS
                  (ilog_2 GOLOMB_PAR_EXPOSURE_FLAGS)]
    ++ emission cfg e (ilog_2 (golomb_par cfg)) 32 (S_FX.FX s) in
  let cws := concat (sample <$> vs) in
  writable cws -> cmp_size enc + total_length cws <= capacity ->
  exists enc' ws',
    encode_S_FX cfg enc h = Some ((0, enc'), <[pout := U32 <$> ws']> h) /\
    encoder enc' = encoder enc /\
    cmp_size enc' = cmp_size enc + total_length cws /\
    holds_codewords ws (cmp_size enc) cws ws'.
Proof.
  intros Hptr Henc Hin Hout Hb Hbo Hs Hlen Hsize Hescape capacity Hcap
         Hwords sample cws Hw Hfit.
  assert (Hpout : (pout < length h)%nat)
    by (apply lookup_lt_Some in Hbo; exact Hbo).
  destruct (encode_S_FX_emits cfg e pin pout h (length ws) Hptr Hin Hout
              Hpout Hlen Hcap Hwords Hescape vs enc ws Hb Hs Henc eq_refl
              Hsize Hw Hfit) as (enc' & ws' & Hrun & He & Hs' & Hst).
  rewrite (list_insert_id h pout _ Hbo) in Hrun.
  exists enc', ws'. repeat split; try assumption; try apply Hst.
  congruence.
Qed.

Lemma encode_S_FX_stream_witness :
  let cfg := mk_cfg MODE_DIFF_MULTI_S_FX 4 8 0 0 2 2 (Some 0%nat) None None
                    (Some 1%nat) 0 0 in
  let enc := mk_enc (Some Rice_ptr) 2 0 in
  let h : store := [C_S_FX <$> [S_FX.mk 2 5; S_FX.mk 0 1]; [U32 0]] in
  exists enc' ws',
    @encode_S_FX sample_support cfg enc h
    = Some ((0, enc'), <[1%nat := U32 <$> ws']> h) /\
    cmp_size enc' = 11 /\
    stream_bit ws' 0 = true /\ stream_bit ws' 1 = true /\
    stream_bit ws' 2 = false /\ stream_bit ws' 3 = true /\
    stream_bit ws' 4 = false /\ stream_bit ws' 5 = false /\
    stream_bit ws' 6 = true.
Proof.
  intros cfg enc h.
  assert (H1 : 0%nat <> 1%nat) by lia.
  assert (H2 : encoder enc = Some Rice_ptr) by reflexivity.
  assert (H3 : input_buf cfg = Some 0%nat) by reflexivity.
  assert (H4 : icu_output_buf cfg = Some 1%nat) by reflexivity.
  assert (H5 : h !! 0%nat = Some (C_S_FX <$> [S_FX.mk 2 5; S_FX.mk 0 1]))
    by reflexivity.
  assert (H6 : h !! 1%nat = Some (U32 <$> [0])) by reflexivity.
  assert (H7 : samples cfg
               = Z.of_nat (length [S_FX.mk 2 5; S_FX.mk 0 1]))
    by reflexivity.
  assert (H8 : 0 <= buffer_length cfg) by (cbn; lia).
  assert (H9 : 0 <= cmp_size enc) by (cbn; lia).
  assert (H10 : multi_escape_mech_is_used (cmp_mode_of cfg)
                || zero_escape_mech_is_used (cmp_mode_of cfg) = true)
    by reflexivity.
  assert (H11 : (buffer_length cfg + 1) / 2 * 2 * 16 < 2 ^ 32)
    by (vm_compute; reflexivity).
  assert (H12 : (buffer_length cfg + 1) / 2 * 2 * 16
                <= 32 * Z.of_nat (length [0]))
    by (vm_compute; discriminate).
  destruct (@encode_S_FX_stream sample_support cfg enc Rice_ptr 0 1 h [0]
              [S_FX.mk 2 5; S_FX.mk 0 1]
              H1 H2 H3 H4 H5 H6 H7 H8 H9 H10 H11 H12)
    as (enc' & ws' & Hrun & _ & Hsz & _ & Hbits).
  - repeat constructor; vm_compute; discriminate.
  - vm_compute. discriminate.
  - exists enc', ws'. split; [exact Hrun |]. split; [exact Hsz |].
    repeat split; rewrite Hbits by (cbn; lia); reflexivity.
Defined.




(** ** A bitstream that does not fit and is reported as compressed *)

(** C2, an input on which it fails: eleven 16-bit samples, ten of them 0
    and the last 1, in the mode [MODE_DIFF_MULTI] with [golomb_par = 4]
    and [spill = 2], which the validator accepts.  The bitstream takes 35
    bits, as the run with a buffer of four 16-bit words shows.  With a
    buffer of two words, 32 bits: ten codewords of three bits fill 30
    bits, the escape symbol of the last sample does not fit, its
    two bits of unencoded data do, and [encode_outlier_multi] does not look
    at the -2 that [encode_normal] returned for the escape symbol.
    [icu_compress_data] returns 0 with [cmp_size = 32] and no error bit
    set. *)
Theorem icu_compress_data_lost_escape :
  let data := [0; 0; 0; 0; 0; 0; 0; 0; 0; 0; 1] in
  let info := mk_info 0 0 0 0 0 0 0 0 0 0 0 0 in
  let cfg := mk_cfg MODE_DIFF_MULTI 4 2 0 0 11 2 (Some 0%nat) None None
                    (Some 1%nat) 0 0 in
  let h : store := [U16 <$> data; [U32 0]] in
  let roomy := mk_cfg MODE_DIFF_MULTI 4 2 0 0 11 4 (Some 0%nat) None None
                      (Some 1%nat) 0 0 in
  let h_roomy : store := [U16 <$> data; [U32 0; U32 0]] in
  fst (@icu_cmp_cfg_valid sample_support cfg info) = 0 /\
  (exists info' h',
     @icu_compress_data sample_support roomy info h_roomy
     = Some ((0, info'), h') /\ info_cmp_size info' = 35) /\
  (buffer_length cfg + 1) / 2 * 2 * 16 = 32 /\
  exists info' h',
    @icu_compress_data sample_support cfg info h = Some ((0, info'), h') /\
    cmp_err info' = 0 /\ info_cmp_size info' = 32.
Proof.
  intros data info cfg h roomy h_roomy.
  split; [reflexivity |]. split.
  - eexists _, _. split; [vm_compute; reflexivity | reflexivity].
  - split; [reflexivity |].
    eexists _, _. split; [vm_compute; reflexivity |].
    split; reflexivity.
Qed.
